(** * SeedboxSync: the synchronisation and transfer engine

    A shallow embedding of the two TypeScript classes that make up the
    engine:

    - [FtpDownloader] (src/server/src/libs/FtpDownloader.ts): one resumable
      transfer attempt, with its once-guarded finalize routine;
    - [Downloader] (the orchestrator: queue, connection pool, path mapping,
      tree flattening, sync state machine).

    JavaScript objects that are shared and mutated (the [FtpFile] entries,
    the JSFtp sessions with their listener lists, the files on disk) are
    kept in explicit stores; callbacks registered on event emitters are
    closures in defunctionalised form, and the asynchronous completions of
    the outside world are events fed to a step function. *)

From Stdlib Require Import ZArith QArith Ascii String Strings.Byte.
From stdpp Require Import gmap strings list fin_maps.

Local Open Scope string_scope.
Local Open Scope list_scope.
Local Open Scope Z_scope.

(** ** JavaScript strings *)

(** [s.indexOf(sub)]: position of the first occurrence, or -1. *)
Definition indexOf (s sub : string) : Z :=
  match String.index 0 sub s with
  | Some n => Z.of_nat n
  | None => -1
  end.

(** [s.substring(k)]: the characters from position [k] to the end. *)
Definition substring_from (s : string) (k : nat) : string :=
  String.substring k (String.length s - k) s.

(** Whether the last character of [s] is a slash. *)
Definition endsWithSlash (s : string) : bool :=
  String.eqb (substring_from s (String.length s - 1)) "/".

(** Modelled from the spec: [FtpFile.appendSlash] is called by both classes
    but its body (objects/FtpFile) is not among the source files covered
    here.  The spec has it enforce a trailing separator; its examples
    (relative directories such as "tv/showA/" for entries below the sync
    root, and a catch-all mapping rule whose remote path is the empty
    string) have the empty path stay empty.  The models below take the
    helper as a parameter; [slashed] is the instance used where a concrete
    one is needed. *)
Definition slashed (s : string) : string :=
  if String.eqb s "" then s
  else if endsWithSlash s then s
  else s +:+ "/".

(** ** Remote entries *)

Module Entry.

(** Modelled from the spec: the FtpFile class (objects/FtpFile) is not among
    the source files covered here.  The record has the fields the two
    classes read and write; [size] is [None] while no size is known (a
    symbolic link whose target has not been looked up), [mtime] is the
    remote modification time the queue is sorted by. *)
Record FtpFile := mkFtpFile {
  fullPath : string;
  actualPath : string;
  name : string;
  relativeDirectory : string;
  isSymLink : bool;
  size : option Z;
  mtime : Z;
  downloading : bool;
  transferred : Z;
  downloadRate : Z;
  destinationRoot : option string
}.

#[export] Instance FtpFile_inhabited : Inhabited FtpFile :=
  populate (mkFtpFile "" "" "" "" false None 0 false 0 0 None).

Definition set_downloading (b : bool) (f : FtpFile) : FtpFile :=
  mkFtpFile (fullPath f) (actualPath f) (name f) (relativeDirectory f)
    (isSymLink f) (size f) (mtime f) b (transferred f) (downloadRate f)
    (destinationRoot f).

Definition set_transferred (n : Z) (f : FtpFile) : FtpFile :=
  mkFtpFile (fullPath f) (actualPath f) (name f) (relativeDirectory f)
    (isSymLink f) (size f) (mtime f) (downloading f) n (downloadRate f)
    (destinationRoot f).

Definition set_downloadRate (r : Z) (f : FtpFile) : FtpFile :=
  mkFtpFile (fullPath f) (actualPath f) (name f) (relativeDirectory f)
    (isSymLink f) (size f) (mtime f) (downloading f) (transferred f) r
    (destinationRoot f).

Definition set_destinationRoot (d : string) (f : FtpFile) : FtpFile :=
  mkFtpFile (fullPath f) (actualPath f) (name f) (relativeDirectory f)
    (isSymLink f) (size f) (mtime f) (downloading f) (transferred f)
    (downloadRate f) (Some d).

End Entry.
Export Entry.

(** The value passed as [err] to a completion routine.  JavaScript tests it
    for truthiness only. *)
Inductive Err :=
| ErrNone                       (* undefined, null or false *)
| ErrTrue                       (* the boolean true, as in close(hadError) *)
| ErrString (s : string)        (* a string such as 'timeout' *)
| ErrException (msg : string).  (* an Error object *)

Definition truthy (e : Err) : bool :=
  match e with
  | ErrNone => false
  | ErrTrue => true
  | ErrString s => negb (String.eqb s "")
  | ErrException _ => true
  end.

(** [localSize < file.size]: a comparison with [undefined] is false. *)
Definition size_less (localSize : Z) (expected : option Z) : bool :=
  match expected with
  | Some n => localSize <? n
  | None => false
  end.

(** ** One resumable transfer attempt (FtpDownloader.ts) *)

Module FtpDownloader.

(** What the file system answers during the attempt: [fs.openSync] returns a
    descriptor or throws, [fs.closeSync] and [fs.renameSync] may throw.
    Descriptors are positive numbers (0 is the standard input of the
    process), so that [if (fd)] asks whether the file was opened. *)
Record Env := mkEnv {
  open_result : positive + string;
  close_throws : option string;
  rename_throws : option string
}.

(** The data socket handed over by [ftp.getGetSocket]. *)
Record Socket := mkSocket {
  bytesRead : Z;
  destroyed : bool;
  listening : bool     (* the "data" and "close" listeners are attached *)
}.

(** Everything the attempt does to the outside, in the order it happens. *)
Inductive Effect :=
| EMkdirp (dir : string)
| EBorrowFtp                               (* FtpController.ftpForDownloading() *)
| EDoneWithFtp                             (* FtpController.doneWithFtpObj(ftp) *)
| ERequest (path : string) (offset : Z)    (* ftp.getGetSocket(path, offset, _) *)
| EResume                                  (* sock.resume() *)
| EDestroy                                 (* socket.destroy() *)
| ECloseFd (fd : positive)
| ERename (src dst : string)
| ESignal (err : Err)                      (* the once-wrapped downloadDone is called *)
| EFinalize                                (* its body starts to run *)
| ECallback (err : Err) (f : FtpFile)      (* this._downloadDoneCallback(err, file) *)
| EUncaught (msg : string).                (* an exception nothing catches *)

Definition is_signal (e : Effect) : bool :=
  match e with ESignal _ => true | _ => false end.
Definition is_finalize (e : Effect) : bool :=
  match e with EFinalize => true | _ => false end.
Definition is_callback (e : Effect) : bool :=
  match e with ECallback _ _ => true | _ => false end.
Definition is_done_with_ftp (e : Effect) : bool :=
  match e with EDoneWithFtp => true | _ => false end.
Definition is_rename (e : Effect) : bool :=
  match e with ERename _ _ => true | _ => false end.
Definition is_request (e : Effect) : bool :=
  match e with ERequest _ _ => true | _ => false end.

Fixpoint count (p : Effect -> bool) (l : list Effect) : nat :=
  match l with
  | [] => 0%nat
  | e :: l' => ((if p e then 1 else 0) + count p l')%nat
  end.

Fixpoint select (p : Effect -> bool) (l : list Effect) : list Effect :=
  match l with
  | [] => []
  | e :: l' => if p e then e :: select p l' else select p l'
  end.

Section WithCollaborators.

(** Helpers of the repository that are not among the source files covered
    here:
    [FtpFile.appendSlash], [Utils.sanitizeFtpPath] and the
    [TransferSpeedAverage] estimator. *)
Variable appendSlash : string -> string.
Variable sanitizeFtpPath : string -> string.
Context {Tracker : Type}.
Variable newTracker : Tracker.
Variable dataReceived : Z -> Tracker -> Tracker.
Variable average : Tracker -> Z.

(** The object fields and the closure variables of [start], with the disk. *)
Record St := mkSt {
  file : FtpFile;                     (* this._file *)
  downloadSpeed : Tracker;            (* this._downloadSpeed *)
  files : gmap string (list byte);    (* the files on disk *)
  fd : option positive;
  fdClosed : bool;
  socket : option Socket;
  pendingSocket : bool;               (* getGetSocket has not called back yet *)
  skipBytes : option Z;
  called : bool;                      (* the flag of once() *)
  trace : list Effect
}.

Definition emit (e : Effect) (s : St) : St :=
  mkSt (file s) (downloadSpeed s) (files s) (fd s) (fdClosed s) (socket s)
    (pendingSocket s) (skipBytes s) (called s) (trace s ++ [e]).
Definition with_file (f : FtpFile) (s : St) : St :=
  mkSt f (downloadSpeed s) (files s) (fd s) (fdClosed s) (socket s)
    (pendingSocket s) (skipBytes s) (called s) (trace s).
Definition with_downloadSpeed (t : Tracker) (s : St) : St :=
  mkSt (file s) t (files s) (fd s) (fdClosed s) (socket s)
    (pendingSocket s) (skipBytes s) (called s) (trace s).
Definition with_files (m : gmap string (list byte)) (s : St) : St :=
  mkSt (file s) (downloadSpeed s) m (fd s) (fdClosed s) (socket s)
    (pendingSocket s) (skipBytes s) (called s) (trace s).
Definition with_fd (d : option positive) (s : St) : St :=
  mkSt (file s) (downloadSpeed s) (files s) d (fdClosed s) (socket s)
    (pendingSocket s) (skipBytes s) (called s) (trace s).
Definition with_fdClosed (b : bool) (s : St) : St :=
  mkSt (file s) (downloadSpeed s) (files s) (fd s) b (socket s)
    (pendingSocket s) (skipBytes s) (called s) (trace s).
Definition with_socket (k : option Socket) (s : St) : St :=
  mkSt (file s) (downloadSpeed s) (files s) (fd s) (fdClosed s) k
    (pendingSocket s) (skipBytes s) (called s) (trace s).
Definition with_pendingSocket (b : bool) (s : St) : St :=
  mkSt (file s) (downloadSpeed s) (files s) (fd s) (fdClosed s) (socket s)
    b (skipBytes s) (called s) (trace s).
Definition with_skipBytes (k : option Z) (s : St) : St :=
  mkSt (file s) (downloadSpeed s) (files s) (fd s) (fdClosed s) (socket s)
    (pendingSocket s) k (called s) (trace s).
Definition with_called (b : bool) (s : St) : St :=
  mkSt (file s) (downloadSpeed s) (files s) (fd s) (fdClosed s) (socket s)
    (pendingSocket s) (skipBytes s) b (trace s).

Definition localPath (dir : string) (f : FtpFile) : string :=
  appendSlash dir +:+ sanitizeFtpPath (name f).
Definition tempPath (dir : string) (f : FtpFile) : string :=
  localPath dir f +:+ ".tmp".

Definition byteLength (p : list byte) : Z := Z.of_nat (length p).

(** [fs.closeSync(fd)]: throws when the system says so, or when the
    descriptor is no longer open. *)
Definition closeSync (e : Env) (n : positive) (s : St) : St + string :=
  match close_throws e with
  | Some msg => inr msg
  | None =>
      if fdClosed s then inr "EBADF"
      else inl (emit (ECloseFd n) (with_fdClosed true s))
  end.

(** [fs.renameSync(src, dst)]: replaces [dst]; throws when the system says
    so or when [src] does not exist. *)
Definition renameSync (e : Env) (src dst : string) (s : St) : St + string :=
  match rename_throws e with
  | Some msg => inr msg
  | None =>
      match files s !! src with
      | None => inr "ENOENT"
      | Some c =>
          inl (emit (ERename src dst)
                 (with_files (<[dst := c]> (delete src (files s))) s))
      end
  end.

(** The stages of the body of [downloadDone], in source order. *)

(** [if (socket) socket.destroy()]: make sure no more data can come in. *)
Definition destroySocket (s : St) : St :=
  match socket s with
  | Some k =>
      emit EDestroy
        (with_socket (Some (mkSocket (bytesRead k) true (listening k))) s)
  | None => s
  end.

(** [if (fd) try closeSync(fd) catch err = exception]. *)
Definition closeDescriptor (e : Env) (err : Err) (s : St) : Err * St :=
  match fd s with
  | Some n =>
      match closeSync e n s with
      | inl s' => (err, s')
      | inr msg => (ErrException msg, s)
      end
  | None => (err, s)
  end.

(** [if (!err) if (statSync(tempPath).size < file.size) err = ...];
    [inr] when [fs.statSync] throws, which nothing catches. *)
Definition checkSize (dir : string) (err : Err) (s : St) : Err + string :=
  if truthy err then inl err
  else
    match files s !! tempPath dir (file s) with
    | None => inr "ENOENT"
    | Some c =>
        if size_less (byteLength c) (size (file s))
        then inl (ErrString "Not completely downloaded")
        else inl err
    end.

(** [if (!err) try renameSync(tempPath, localPath) catch err = exception]. *)
Definition publish (e : Env) (dir : string) (err : Err) (s : St) : Err * St :=
  if truthy err then (err, s)
  else
    match renameSync e (tempPath dir (file s)) (localPath dir (file s)) s with
    | inl s' => (err, s')
    | inr msg => (ErrException msg, s)
    end.

(** The body of [downloadDone]. *)
Definition finalize (e : Env) (dir : string) (err : Err) (s : St) : St :=
  let s := emit EFinalize s in
  let s := destroySocket s in
  let s := emit EDoneWithFtp s in
  let (err, s) := closeDescriptor e err s in
  match checkSize dir err s with
  | inr msg => emit (EUncaught msg) s
  | inl err =>
      let (err, s) := publish e dir err s in
      let s := with_file (set_downloading false (file s)) s in
      emit (ECallback err (file s)) s
  end.

(** [downloadDone = once(downloadDone)]. *)
Definition downloadDone (e : Env) (dir : string) (err : Err) (s : St) : St :=
  let s := emit (ESignal err) s in
  if called s then s else finalize e dir err (with_called true s).

(** The synchronous part of [start]: everything up to the stream request. *)
Definition start (e : Env) (dir : string) (f : FtpFile)
    (disk : gmap string (list byte)) : St :=
  let f := set_downloading true (set_destinationRoot dir f) in
  let s := mkSt f newTracker disk None false None false None false
             [EMkdirp dir; EBorrowFtp] in
  match open_result e with
  | inr msg => downloadDone e dir (ErrException msg) s
  | inl n =>
      let c := default [] (disk !! tempPath dir f) in
      let s := with_fd (Some n) (with_files (<[tempPath dir f := c]> disk) s) in
      let s := with_skipBytes (Some (byteLength c)) s in
      let s := with_file (set_transferred (byteLength c) (file s)) s in
      emit (ERequest (fullPath f) (byteLength c)) (with_pendingSocket true s)
  end.

(** What the session and the socket can deliver afterwards. *)
Inductive Event :=
| FtpError (err : Err)                    (* ftp emits 'error' *)
| FtpTimeout                              (* ftp emits 'timeout' *)
| GetSocketCb (err : Err) (sock : bool)   (* the getGetSocket callback *)
| SockData (p : list byte)
| SockClose (hadError : bool).

(** The "data" listener: append the chunk, publish progress and rate.
    [fs.writeSync] throws on a descriptor that was closed. *)
Definition onData (dir : string) (p : list byte) (k : Socket) (s : St) : St :=
  let k := mkSocket (bytesRead k + byteLength p) (destroyed k) (listening k) in
  let s := with_socket (Some k) s in
  if fdClosed s then emit (EUncaught "EBADF") s
  else
    let t := tempPath dir (file s) in
    let s := with_files (<[t := default [] (files s !! t) ++ p]> (files s)) s in
    let s := with_file
               (set_transferred (bytesRead k + default 0 (skipBytes s)) (file s)) s in
    let s := with_downloadSpeed (dataReceived (byteLength p) (downloadSpeed s)) s in
    with_file (set_downloadRate (average (downloadSpeed s)) (file s)) s.

Definition step (e : Env) (dir : string) (ev : Event) (s : St) : St :=
  match ev with
  | FtpError err => downloadDone e dir err s
  | FtpTimeout => downloadDone e dir (ErrString "timeout") s
  | GetSocketCb err sock =>
      if pendingSocket s then
        let s := with_pendingSocket false s in
        let s := with_socket
                   (if sock then Some (mkSocket 0 false false) else None) s in
        if truthy err then downloadDone e dir err s
        else
          match socket s with
          | None => emit (EUncaught "TypeError") s     (* sock.on of undefined *)
          | Some k =>
              emit EResume
                (with_socket (Some (mkSocket (bytesRead k) (destroyed k) true)) s)
          end
      else s
  | SockData p =>
      match socket s with
      | Some k =>
          if listening k && negb (destroyed k) then onData dir p k s else s
      | None => s
      end
  | SockClose hadError =>
      match socket s with
      | Some k =>
          if listening k
          then downloadDone e dir (if hadError then ErrTrue else ErrNone) s
          else s
      | None => s
      end
  end.

Definition run (e : Env) (dir : string) (evs : list Event) (s : St) : St :=
  fold_left (fun s ev => step e dir ev s) evs s.

(** The disk is shared with the rest of the system: between two events of
    the attempt the temp file can lose its name, because another process
    removes it.  What is written afterwards through the descriptor that is
    still open does not give the name back. *)
Inductive Happening :=
| Delivered (ev : Event)
| TempFileGone.

Definition happen (e : Env) (dir : string) (h : Happening) (s : St) : St :=
  let t := tempPath dir (file s) in
  match h with
  | Delivered ev =>
      let s' := step e dir ev s in
      match files s !! t with
      | Some _ => s'
      | None => with_files (delete t (files s')) s'
      end
  | TempFileGone => with_files (delete t (files s)) s
  end.

Definition course (e : Env) (dir : string) (hs : list Happening) (s : St) : St :=
  fold_left (fun s h => happen e dir h s) hs s.

(** *** Observations on a state *)

Definition signals (s : St) : nat := count is_signal (trace s).
Definition finalizations (s : St) : nat := count is_finalize (trace s).
Definition callbacks (s : St) : list Effect := select is_callback (trace s).
Definition renames (s : St) : list Effect := select is_rename (trace s).
Definition requests (s : St) : list Effect := select is_request (trace s).
Definition sessionReturns (s : St) : nat := count is_done_with_ftp (trace s).

(** The exceptions of [fs.statSync], which leave the body of
    [downloadDone] before its last two statements. *)
Definition is_uncaught (e : Effect) : bool :=
  match e with EUncaught _ => true | _ => false end.
Definition is_stat_failure (e : Effect) : bool :=
  match e with EUncaught msg => String.eqb msg "ENOENT" | _ => false end.
Definition statFailures (s : St) : nat := count is_stat_failure (trace s).

(** Before the first termination signal nothing has been finalized and the
    temp file is on disk; after it, finalize and the callback have run
    once. *)
Definition attempt_inv (dir : string) (s : St) : Prop :=
  if called s
  then (1 <= signals s)%nat /\ finalizations s = 1%nat /\
       length (callbacks s) = 1%nat /\ sessionReturns s = 1%nat
  else signals s = 0%nat /\ finalizations s = 0%nat /\
       length (callbacks s) = 0%nat /\ sessionReturns s = 0%nat /\
       is_Some (files s !! tempPath dir (file s)).

(** *** Counting effects *)

(** Reduce record projections and updates of a state, leaving the disk
    (a [gmap]) alone. *)
Ltac st_simpl :=
  cbn [file downloadSpeed files fd fdClosed socket pendingSocket skipBytes
       called trace emit with_file with_downloadSpeed with_files with_fd
       with_fdClosed with_socket with_pendingSocket with_skipBytes with_called
       bytesRead destroyed listening
       fullPath actualPath name relativeDirectory isSymLink size mtime
       downloading transferred downloadRate destinationRoot
       set_downloading set_transferred set_downloadRate set_destinationRoot
       truthy negb andb orb fold_left run step
       select count is_signal is_finalize is_callback is_done_with_ftp
       is_rename is_request app fst snd fmap option_fmap option_map].

Lemma count_snoc p l x :
  count p (l ++ [x]) = (count p l + if p x then 1 else 0)%nat.
Proof.
  induction l as [|y l IH]; simpl; [destruct (p x); lia | rewrite IH; lia].
Qed.

Lemma select_snoc p l x :
  select p (l ++ [x]) = select p l ++ (if p x then [x] else []).
Proof.
  induction l as [|y l IH]; simpl; [by destruct (p x)|].
  rewrite IH. by destruct (p y).
Qed.

Lemma finalize_counts e dir err s :
  truthy err = true \/ is_Some (files s !! tempPath dir (file s)) ->
  called (finalize e dir err s) = called s /\
  signals (finalize e dir err s) = signals s /\
  finalizations (finalize e dir err s) = S (finalizations s) /\
  length (callbacks (finalize e dir err s)) = S (length (callbacks s)) /\
  sessionReturns (finalize e dir err s) = S (sessionReturns s).
Proof.
  intros H. unfold finalize, destroySocket, closeDescriptor, checkSize, publish,
    closeSync, renameSync, signals, finalizations, callbacks, sessionReturns.
  repeat (case_match; simplify_eq/=);
    rewrite ?count_snoc, ?select_snoc, ?length_app; simpl.
  all: try (repeat split; lia).
  all: by destruct H as [?|[? ?]].
Qed.

Lemma downloadDone_first e dir err s :
  called s = false ->
  signals s = 0%nat -> finalizations s = 0%nat ->
  length (callbacks s) = 0%nat -> sessionReturns s = 0%nat ->
  truthy err = true \/ is_Some (files s !! tempPath dir (file s)) ->
  attempt_inv dir (downloadDone e dir err s).
Proof.
  intros Hc Hs Hf Hk Hr Hfile. unfold downloadDone.
  replace (called (emit (ESignal err) s)) with false by (symmetry; exact Hc).
  destruct (finalize_counts e dir err (with_called true (emit (ESignal err) s)))
    as (Hc' & Hs' & Hf' & Hk' & Hr'); [exact Hfile|].
  unfold attempt_inv. rewrite Hc', Hs', Hf', Hk', Hr'.
  unfold signals, finalizations, callbacks, sessionReturns in *.
  cbn [called with_called emit trace].
  rewrite !count_snoc, select_snoc. cbn [is_signal is_finalize is_callback
    is_done_with_ftp]. rewrite app_nil_r. lia.
Qed.

Lemma downloadDone_inv e dir err s :
  attempt_inv dir s -> attempt_inv dir (downloadDone e dir err s).
Proof.
  intros H. destruct (called s) eqn:Hc.
  - unfold attempt_inv in *. unfold downloadDone.
    cbn [called emit]. rewrite Hc in *.
    unfold signals, finalizations, callbacks, sessionReturns in *.
    cbn [called emit trace].
    rewrite !count_snoc, select_snoc. cbn [is_signal is_finalize is_callback
      is_done_with_ftp]. rewrite app_nil_r, Hc. lia.
  - unfold attempt_inv in H. rewrite Hc in H.
    destruct H as (Hs & Hf & Hk & Hr & Hfile).
    apply downloadDone_first; auto.
Qed.

Lemma start_inv e dir f disk : attempt_inv dir (start e dir f disk).
Proof.
  unfold start. destruct (open_result e) as [n|msg].
  - unfold attempt_inv. simpl. repeat split; try done.
    rewrite lookup_insert_eq. by eexists.
  - apply downloadDone_first; try done. by left.
Qed.

Lemma step_inv e dir ev s :
  attempt_inv dir s -> attempt_inv dir (step e dir ev s).
Proof.
  intros H. destruct ev as [err| |err sock|p|hadError]; simpl.
  - by apply downloadDone_inv.
  - by apply downloadDone_inv.
  - destruct (pendingSocket s); [|done].
    destruct (truthy err).
    + apply downloadDone_inv. exact H.
    + destruct sock; simpl; [|].
      * unfold attempt_inv, signals, finalizations, callbacks,
          sessionReturns in *. simpl.
        rewrite !count_snoc, select_snoc. simpl. rewrite app_nil_r, !Nat.add_0_r.
        exact H.
      * unfold attempt_inv, signals, finalizations, callbacks,
          sessionReturns in *. simpl.
        rewrite !count_snoc, select_snoc. simpl. rewrite app_nil_r, !Nat.add_0_r.
        exact H.
  - destruct (socket s) as [k|]; [|done].
    destruct (listening k && negb (destroyed k)); [|done].
    unfold onData. simpl. destruct (fdClosed s) eqn:Hfd.
    + unfold attempt_inv, signals, finalizations, callbacks,
        sessionReturns in *. simpl.
      rewrite !count_snoc, select_snoc. simpl. rewrite app_nil_r, !Nat.add_0_r.
      exact H.
    + unfold attempt_inv, signals, finalizations, callbacks,
        sessionReturns in *. simpl.
      destruct (called s); [done|].
      destruct H as (? & ? & ? & ? & ?). repeat split; try done.
      rewrite lookup_insert_eq. by eexists.
  - destruct (socket s) as [k|]; [|done].
    destruct (listening k); [|done].
    by apply downloadDone_inv.
Qed.

Lemma run_inv e dir evs s :
  attempt_inv dir s -> attempt_inv dir (run e dir evs s).
Proof.
  revert s. induction evs as [|ev evs IH]; intros s H; [done|].
  simpl. apply IH. by apply step_inv.
Qed.

(** A state that never saw a termination signal was never finalized;
    one that did keeps its once-flag set. *)
Lemma signalled_called dir s :
  attempt_inv dir s -> (1 <= signals s)%nat -> called s = true.
Proof.
  unfold attempt_inv. destruct (called s); [done|]. intros (-> & _). lia.
Qed.

(** C2. An attempt that reaches finalize without a prior error (first
    termination signal, falsy [err], descriptor closed without trouble)
    while the temp file is strictly shorter than the expected size reports
    the incomplete-transfer error to the callback, performs no rename, and
    leaves the disk -- the temp file with its partial contents included --
    as it was. *)
Theorem incomplete_transfer_keeps_temp e dir err s content expected :
  called s = false ->
  truthy err = false ->
  (is_Some (fd s) -> close_throws e = None /\ fdClosed s = false) ->
  files s !! tempPath dir (file s) = Some content ->
  size (file s) = Some expected ->
  byteLength content < expected ->
  let s' := downloadDone e dir err s in
  callbacks s' =
    callbacks s ++
      [ECallback (ErrString "Not completely downloaded")
         (set_downloading false (file s))] /\
  renames s' = renames s /\
  files s' = files s /\
  files s' !! tempPath dir (file s') = Some content.
Proof.
  intros Hc Herr Hfd Htemp Hsize Hlt. cbv zeta.
  assert (Hless : size_less (byteLength content) (size (file s)) = true).
  { rewrite Hsize. simpl. by apply Z.ltb_lt. }
  unfold downloadDone. cbn [called emit]. rewrite Hc.
  remember (emit EDoneWithFtp
              (destroySocket (emit EFinalize (with_called true (emit (ESignal err) s)))))
    as s1 eqn:Hs1.
  assert (H1 : files s1 = files s /\ file s1 = file s /\ fd s1 = fd s /\
               fdClosed s1 = fdClosed s /\ callbacks s1 = callbacks s /\
               renames s1 = renames s).
  { rewrite Hs1. unfold destroySocket, callbacks, renames. cbn.
    destruct (socket s); cbn; rewrite ?select_snoc; cbn; by rewrite ?app_nil_r. }
  destruct H1 as (Hfiles & Hfile & Hfd1 & Hcl1 & Hcb1 & Hrn1).
  assert (H2 : exists s2, closeDescriptor e err s1 = (err, s2) /\
               files s2 = files s /\ file s2 = file s /\
               callbacks s2 = callbacks s /\ renames s2 = renames s).
  { unfold closeDescriptor, closeSync. rewrite Hfd1, Hcl1.
    destruct (fd s) as [n|].
    - destruct Hfd as [-> ->]; [by eexists|]. eexists. split; [reflexivity|].
      unfold callbacks, renames in *. cbn. rewrite !select_snoc. cbn.
      by rewrite !app_nil_r.
    - by exists s1. }
  destruct H2 as (s2 & Hclose & Hfiles2 & Hfile2 & Hcb2 & Hrn2).
  unfold finalize. rewrite <- Hs1, Hclose.
  unfold checkSize. rewrite Herr, Hfiles2, Hfile2, Htemp, Hless.
  unfold publish. cbn [truthy String.eqb Ascii.eqb Bool.eqb negb].
  unfold callbacks, renames in *. cbn. rewrite !select_snoc. cbn.
  rewrite app_nil_r, Hfile2, Hfiles2, Hcb2, Hrn2.
  repeat split; try reflexivity. exact Htemp.
Qed.

Lemma string_length_app (a b : string) :
  String.length (a +:+ b) = (String.length a + String.length b)%nat.
Proof. induction a as [|c a IH]; simpl; [done|by rewrite IH]. Qed.

(** The temp path differs from the final path. *)
Lemma tempPath_neq dir f : tempPath dir f <> localPath dir f.
Proof.
  unfold tempPath. intros H.
  apply (f_equal String.length) in H. rewrite string_length_app in H.
  simpl in H. lia.
Qed.

(** C3. When the temp file can be opened, [start] leaves it on disk with
    the contents it had (empty if it did not exist), takes its size K as
    [skipBytes], shows K as [transferred], and asks the session for the
    remote file from offset K; K is 0 when there was no temp file.  When K
    is the expected size and the stream ends cleanly without delivering a
    chunk, the size check passes and the temp file is renamed to the final
    path with those K bytes; no byte was read from the socket. *)
Theorem resume_from_temp_size e dir f disk n :
  open_result e = inl n ->
  let t := tempPath dir f in
  let existing := default [] (disk !! t) in
  let K := byteLength existing in
  let s := start e dir f disk in
  (files s !! t = Some existing /\
   skipBytes s = Some K /\
   transferred (file s) = K /\
   requests s = [ERequest (fullPath f) K] /\
   callbacks s = []) /\
  (disk !! t = None -> K = 0) /\
  (size f = Some K -> close_throws e = None -> rename_throws e = None ->
   let s' := run e dir [GetSocketCb ErrNone true; SockClose false] s in
   callbacks s' = [ECallback ErrNone (set_downloading false (file s))] /\
   renames s' = [ERename t (localPath dir f)] /\
   files s' !! localPath dir f = Some existing /\
   files s' !! t = None /\
   (bytesRead <$> socket s') = Some 0).
Proof.
  intros Hopen t existing K s.
  assert (Hs : s = emit (ERequest (fullPath f) K)
                 (with_pendingSocket true
                    (with_file (set_transferred K
                                  (set_downloading true (set_destinationRoot dir f)))
                       (with_skipBytes (Some K)
                          (with_fd (Some n)
                             (with_files (<[t := existing]> disk)
                                (mkSt (set_downloading true (set_destinationRoot dir f))
                                   newTracker disk None false None false None false
                                   [EMkdirp dir; EBorrowFtp]))))))).
  { unfold s, start. by rewrite Hopen. }
  split; [|split].
  - rewrite Hs. unfold requests, callbacks. st_simpl. by rewrite lookup_insert_eq.
  - intros Hnone. unfold K, existing. by rewrite Hnone.
  - intros Hsize Hclose Hrename s'.
    unfold s'. rewrite Hs. unfold run. st_simpl.
    unfold downloadDone. st_simpl.
    unfold finalize, destroySocket. st_simpl.
    unfold closeDescriptor, closeSync. st_simpl. rewrite Hclose. st_simpl.
    unfold checkSize. st_simpl.
    change (localPath dir (set_transferred K (set_downloading true
              (set_destinationRoot dir f))) +:+ ".tmp") with t.
    change (tempPath dir (set_transferred K (set_downloading true
              (set_destinationRoot dir f)))) with t.
    rewrite lookup_insert_eq, Hsize.
    unfold size_less. fold K. rewrite Z.ltb_irrefl.
    unfold publish, renameSync. st_simpl. rewrite Hrename.
    change (tempPath dir (set_transferred K (set_downloading true
              (set_destinationRoot dir f)))) with t.
    change (localPath dir (set_transferred K (set_downloading true
              (set_destinationRoot dir f)))) with (localPath dir f).
    rewrite lookup_insert_eq. st_simpl.
    unfold callbacks, renames. st_simpl.
    split; [reflexivity|]. split; [reflexivity|].
    split; [apply lookup_insert_eq|]. split; [|reflexivity].
    rewrite lookup_insert_ne; [apply lookup_delete_eq|].
    intros H. symmetry in H. exact (tempPath_neq dir f H).
Qed.

(** While the stream is open, the chunks are appended to the temp file in
    the order of their arrival and the progress follows. *)
Lemma chunks_are_appended e dir chunks s k c skip :
  socket s = Some k -> listening k = true -> destroyed k = false ->
  fdClosed s = false ->
  files s !! tempPath dir (file s) = Some c ->
  skipBytes s = Some skip ->
  let s' := run e dir (map SockData chunks) s in
  files s' !! tempPath dir (file s) = Some (c ++ concat chunks) /\
  socket s' =
    Some (mkSocket (bytesRead k + byteLength (concat chunks)) false true) /\
  (chunks <> [] ->
   transferred (file s') = bytesRead k + byteLength (concat chunks) + skip) /\
  name (file s') = name (file s) /\ size (file s') = size (file s) /\
  fd s' = fd s /\ fdClosed s' = false /\ called s' = called s /\
  skipBytes s' = Some skip /\ callbacks s' = callbacks s /\
  renames s' = renames s.
Proof.
  revert s k c. induction chunks as [|p chunks IH]; intros s k c Hk Hl Hd Hfd Hc Hskip.
  - cbv zeta. cbn. rewrite app_nil_r. unfold byteLength. cbn. rewrite Z.add_0_r.
    destruct k as [b d l]. cbn in *. subst. by repeat split.
  - set (s1 := step e dir (SockData p) s). cbv zeta.
    change (run e dir (map SockData (p :: chunks)) s)
      with (run e dir (map SockData chunks) s1).
    assert (Hs1 : s1 = onData dir p k s).
    { unfold s1. cbn [step]. by rewrite Hk, Hl, Hd. }
    assert (Hname : name (file s1) = name (file s)).
    { rewrite Hs1. unfold onData. st_simpl. by rewrite Hfd. }
    assert (Htemp : tempPath dir (file s1) = tempPath dir (file s)).
    { unfold tempPath, localPath. by rewrite Hname. }
    destruct (IH s1 (mkSocket (bytesRead k + byteLength p) (destroyed k) (listening k))
                (c ++ p)) as (H1 & H2 & H3 & H4 & H5 & H6 & H7 & H8 & H9 & H10 & H11).
    + rewrite Hs1. unfold onData. st_simpl. by rewrite Hfd.
    + done.
    + done.
    + rewrite Hs1. unfold onData. st_simpl. by rewrite Hfd.
    + rewrite Htemp, Hs1. unfold onData. st_simpl. rewrite Hfd. st_simpl.
      by rewrite lookup_insert_eq, Hc.
    + rewrite Hs1. unfold onData. st_simpl. by rewrite Hfd.
    + assert (Hlen : byteLength (p ++ concat chunks) =
                     byteLength p + byteLength (concat chunks)).
      { unfold byteLength. rewrite length_app. lia. }
      rewrite Htemp in H1. cbn [concat]. rewrite app_assoc.
      split; [exact H1|]. cbn [bytesRead destroyed listening] in H2.
      split; [rewrite H2, Hlen; do 2 f_equal; lia|].
      split.
      { intros _. destruct chunks as [|q chunks].
        - change (run e dir (map SockData []) s1) with s1.
          rewrite Hs1. unfold onData. st_simpl. rewrite Hfd. st_simpl.
          rewrite Hskip. cbn [concat default]. by rewrite app_nil_r.
        - rewrite H3 by done. st_simpl. rewrite Hlen. lia. }
      rewrite H4, H5, H6, H8, H9, H10, H11, Hname.
      split; [done|]. split; [|split; [|split; [exact H7|]]].
      all: rewrite Hs1; unfold onData, callbacks, renames; st_simpl;
        rewrite Hfd; st_simpl; done.
Qed.

Lemma run_cons e dir ev evs s :
  run e dir (ev :: evs) s = run e dir evs (step e dir ev s).
Proof. reflexivity. Qed.

Lemma run_snoc e dir evs ev s :
  run e dir (evs ++ [ev]) s = step e dir ev (run e dir evs s).
Proof. unfold run. by rewrite fold_left_app. Qed.

(** A first termination signal without an error, on a temp file that is
    long enough: the temp file becomes the final file and the callback
    gets no error. *)
Lemma clean_finish_publishes e dir s content :
  called s = false ->
  (is_Some (fd s) -> close_throws e = None /\ fdClosed s = false) ->
  rename_throws e = None ->
  files s !! tempPath dir (file s) = Some content ->
  size_less (byteLength content) (size (file s)) = false ->
  let s' := downloadDone e dir ErrNone s in
  callbacks s' = callbacks s ++ [ECallback ErrNone (set_downloading false (file s))] /\
  renames s' =
    renames s ++ [ERename (tempPath dir (file s)) (localPath dir (file s))] /\
  files s' =
    <[localPath dir (file s) := content]> (delete (tempPath dir (file s)) (files s)).
Proof.
  intros Hc Hfd Hrename Htemp Hsize. cbv zeta.
  unfold downloadDone. cbn [called emit]. rewrite Hc.
  remember (emit EDoneWithFtp
              (destroySocket (emit EFinalize (with_called true (emit (ESignal ErrNone) s)))))
    as s1 eqn:Hs1.
  assert (H1 : files s1 = files s /\ file s1 = file s /\ fd s1 = fd s /\
               fdClosed s1 = fdClosed s /\ callbacks s1 = callbacks s /\
               renames s1 = renames s).
  { rewrite Hs1. unfold destroySocket, callbacks, renames. cbn.
    destruct (socket s); cbn; rewrite ?select_snoc; cbn; by rewrite ?app_nil_r. }
  destruct H1 as (Hfiles & Hfile & Hfd1 & Hcl1 & Hcb1 & Hrn1).
  assert (H2 : exists s2, closeDescriptor e ErrNone s1 = (ErrNone, s2) /\
               files s2 = files s /\ file s2 = file s /\
               callbacks s2 = callbacks s /\ renames s2 = renames s).
  { unfold closeDescriptor, closeSync. rewrite Hfd1, Hcl1.
    destruct (fd s) as [n|].
    - destruct Hfd as [-> ->]; [by eexists|]. eexists. split; [reflexivity|].
      unfold callbacks, renames in *. cbn. rewrite !select_snoc. cbn.
      by rewrite !app_nil_r.
    - by exists s1. }
  destruct H2 as (s2 & Hclose & Hfiles2 & Hfile2 & Hcb2 & Hrn2).
  unfold finalize. rewrite <- Hs1, Hclose.
  unfold checkSize. cbn [truthy]. rewrite Hfiles2, Hfile2, Htemp, Hsize.
  unfold publish, renameSync. cbn [truthy].
  rewrite Hrename, Hfiles2, Hfile2, Htemp.
  unfold callbacks, renames in *. cbn. rewrite !select_snoc. cbn.
  by rewrite !app_nil_r, Hfile2, Hcb2, Hrn2.
Qed.

(** A resumed transfer, end to end: [K] bytes are in the temp file, the
    stream delivers the remaining bytes in chunks and closes cleanly; the
    final file then holds the old bytes followed by the new ones, as many
    as the entry's size, and the callback gets no error. *)
Lemma resumed_download_is_published e dir f disk n chunks total :
  open_result e = inl n -> close_throws e = None -> rename_throws e = None ->
  let t := tempPath dir f in
  let existing := default [] (disk !! t) in
  size f = Some total ->
  byteLength existing + byteLength (concat chunks) = total ->
  let s' := run e dir
              (GetSocketCb ErrNone true :: map SockData chunks ++ [SockClose false])
              (start e dir f disk) in
  files s' !! localPath dir f = Some (existing ++ concat chunks) /\
  files s' !! t = None /\
  byteLength (existing ++ concat chunks) = total /\
  length (callbacks s') = 1%nat /\
  (forall err g, ECallback err g ∈ callbacks s' ->
                 err = ErrNone /\ downloading g = false).
Proof.
  intros Hopen Hclose Hrename t existing Hsize Htotal.
  set (K := byteLength existing).
  assert (Hs : start e dir f disk =
               emit (ERequest (fullPath f) K)
                 (with_pendingSocket true
                    (with_file (set_transferred K
                                  (set_downloading true (set_destinationRoot dir f)))
                       (with_skipBytes (Some K)
                          (with_fd (Some n)
                             (with_files (<[t := existing]> disk)
                                (mkSt (set_downloading true (set_destinationRoot dir f))
                                   newTracker disk None false None false None false
                                   [EMkdirp dir; EBorrowFtp]))))))).
  { unfold start. by rewrite Hopen. }
  cbv zeta. rewrite run_cons, run_snoc.
  set (s1 := step e dir (GetSocketCb ErrNone true) (start e dir f disk)).
  assert (Hs1 : socket s1 = Some (mkSocket 0 false true) /\ fdClosed s1 = false /\
                files s1 !! tempPath dir (file s1) = Some existing /\
                skipBytes s1 = Some K /\ name (file s1) = name f /\
                size (file s1) = size f /\ fd s1 = Some n /\ called s1 = false /\
                callbacks s1 = []).
  { unfold s1. rewrite Hs. unfold callbacks. st_simpl. repeat split.
    apply lookup_insert_eq. }
  destruct Hs1 as (Hk & Hfd & Hc & Hskip & Hname & Hsz & Hfdn & Hcalled & Hcb).
  destruct (chunks_are_appended e dir chunks s1 _ existing K Hk eq_refl eq_refl
              Hfd Hc Hskip)
    as (H1 & H2 & _ & H4 & H5 & H6 & H7 & H8 & _ & H10 & _).
  set (s2 := run e dir (map SockData chunks) s1) in *.
  assert (Ht2 : tempPath dir (file s2) = t).
  { unfold t, tempPath, localPath. by rewrite H4, Hname. }
  assert (Hl2 : localPath dir (file s2) = localPath dir f).
  { unfold localPath. by rewrite H4, Hname. }
  assert (Ht1 : tempPath dir (file s1) = t).
  { unfold t, tempPath, localPath. by rewrite Hname. }
  rewrite Ht1 in H1.
  assert (Hlen : byteLength (existing ++ concat chunks) = total).
  { unfold byteLength in *. rewrite length_app. lia. }
  destruct (clean_finish_publishes e dir s2 (existing ++ concat chunks))
    as (Hcb' & _ & Hfiles').
  { by rewrite H8. }
  { intros _. by rewrite H7. }
  { done. }
  { by rewrite Ht2. }
  { rewrite H5, Hsz, Hsize, Hlen. cbn. apply Z.ltb_irrefl. }
  assert (Hstep : step e dir (SockClose false) s2 = downloadDone e dir ErrNone s2).
  { cbn [step]. by rewrite H2. }
  rewrite Hstep, Hfiles', Hcb', Ht2, Hl2, H10, Hcb.
  split; [apply lookup_insert_eq|]. split.
  { rewrite lookup_insert_ne by (intros H; symmetry in H; exact (tempPath_neq dir f H)).
    apply lookup_delete_eq. }
  split; [exact Hlen|]. split; [done|].
  intros err g [[= -> ->]|Hin]%elem_of_cons; [done|by apply elem_of_nil in Hin].
Qed.

(** *** Further outcomes of the finalize routine *)

(** The state in which [downloadDone] tries the descriptor: the socket is
    destroyed and the session handed back, the rest is as before. *)
Lemma before_close err s :
  exists s1,
    s1 = emit EDoneWithFtp
           (destroySocket (emit EFinalize (with_called true (emit (ESignal err) s)))) /\
    files s1 = files s /\ file s1 = file s /\ fd s1 = fd s /\
    fdClosed s1 = fdClosed s /\ callbacks s1 = callbacks s /\
    renames s1 = renames s.
Proof.
  eexists. split; [reflexivity|].
  unfold destroySocket, callbacks, renames. cbn.
  destruct (socket s); cbn; rewrite ?select_snoc; cbn; by rewrite ?app_nil_r.
Qed.

(** A descriptor that cannot be closed turns a clean end into an error:
    the callback gets the exception, nothing is renamed, the disk stays
    as it is -- whatever the length of the temp file. *)
Theorem close_failure_is_reported e dir err s n msg :
  called s = false ->
  fd s = Some n ->
  close_throws e = Some msg ->
  let s' := downloadDone e dir err s in
  callbacks s' =
    callbacks s ++ [ECallback (ErrException msg) (set_downloading false (file s))] /\
  renames s' = renames s /\
  files s' = files s /\
  downloading (file s') = false.
Proof.
  intros Hc Hfd Hclose. cbv zeta.
  destruct (before_close err s)
    as (s1 & Hs1 & Hfiles & Hfile & Hfd1 & Hcl1 & Hcb1 & Hrn1).
  unfold downloadDone. cbn [called emit]. rewrite Hc.
  unfold finalize. rewrite <- Hs1.
  unfold closeDescriptor, closeSync. rewrite Hfd1, Hfd, Hclose.
  unfold checkSize, publish. cbn [truthy].
  unfold callbacks, renames in *. st_simpl. rewrite !select_snoc. st_simpl.
  by rewrite app_nil_r, Hfile, Hfiles, Hcb1, Hrn1.
Qed.

(** A rename that fails after a complete transfer: the callback gets the
    exception and the complete temp file stays where it is. *)
Theorem rename_failure_keeps_temp e dir err s content msg :
  called s = false ->
  truthy err = false ->
  (is_Some (fd s) -> close_throws e = None /\ fdClosed s = false) ->
  files s !! tempPath dir (file s) = Some content ->
  size_less (byteLength content) (size (file s)) = false ->
  rename_throws e = Some msg ->
  let s' := downloadDone e dir err s in
  callbacks s' =
    callbacks s ++ [ECallback (ErrException msg) (set_downloading false (file s))] /\
  renames s' = renames s /\
  files s' = files s.
Proof.
  intros Hc Herr Hfd Htemp Hsize Hrename. cbv zeta.
  destruct (before_close err s)
    as (s1 & Hs1 & Hfiles & Hfile & Hfd1 & Hcl1 & Hcb1 & Hrn1).
  assert (H2 : exists s2, closeDescriptor e err s1 = (err, s2) /\
               files s2 = files s /\ file s2 = file s /\
               callbacks s2 = callbacks s /\ renames s2 = renames s).
  { unfold closeDescriptor, closeSync. rewrite Hfd1, Hcl1.
    destruct (fd s) as [n|].
    - destruct Hfd as [-> ->]; [by eexists|]. eexists. split; [reflexivity|].
      unfold callbacks, renames in *. st_simpl. rewrite !select_snoc. st_simpl.
      by rewrite !app_nil_r.
    - by exists s1. }
  destruct H2 as (s2 & Hclose & Hfiles2 & Hfile2 & Hcb2 & Hrn2).
  unfold downloadDone. cbn [called emit]. rewrite Hc.
  unfold finalize. rewrite <- Hs1, Hclose.
  unfold checkSize. rewrite Herr, Hfiles2, Hfile2, Htemp, Hsize.
  unfold publish, renameSync. rewrite Herr, Hrename.
  unfold callbacks, renames in *. st_simpl. rewrite !select_snoc. st_simpl.
  by rewrite app_nil_r, Hfile2, Hfiles2, Hcb2, Hrn2.
Qed.

(** Publishing touches two paths only: the final path gets the bytes of
    the temp file (replacing what was there), the temp path is gone, and
    every other file is as it was. *)
Theorem publish_touches_two_paths e dir s content :
  called s = false ->
  (is_Some (fd s) -> close_throws e = None /\ fdClosed s = false) ->
  rename_throws e = None ->
  files s !! tempPath dir (file s) = Some content ->
  size_less (byteLength content) (size (file s)) = false ->
  let s' := downloadDone e dir ErrNone s in
  files s' !! localPath dir (file s) = Some content /\
  files s' !! tempPath dir (file s) = None /\
  (forall p, p <> localPath dir (file s) -> p <> tempPath dir (file s) ->
             files s' !! p = files s !! p) /\
  renames s' =
    renames s ++ [ERename (tempPath dir (file s)) (localPath dir (file s))].
Proof.
  intros Hc Hfd Hrename Htemp Hsize.
  destruct (clean_finish_publishes e dir s content Hc Hfd Hrename Htemp Hsize)
    as (_ & Hrn & Hfiles).
  cbv zeta. rewrite Hfiles, Hrn. split; [apply lookup_insert_eq|]. split.
  - rewrite lookup_insert_ne
      by (intros H; symmetry in H; exact (tempPath_neq dir (file s) H)).
    apply lookup_delete_eq.
  - split; [|done]. intros p Hl Ht.
    rewrite lookup_insert_ne by done. by rewrite lookup_delete_ne.
Qed.

(** An entry whose size is not known is never found incomplete: whatever
    the temp file holds when the stream ends cleanly is published. *)
Theorem unknown_size_is_published e dir s content :
  called s = false ->
  (is_Some (fd s) -> close_throws e = None /\ fdClosed s = false) ->
  rename_throws e = None ->
  files s !! tempPath dir (file s) = Some content ->
  size (file s) = None ->
  let s' := downloadDone e dir ErrNone s in
  callbacks s' = callbacks s ++ [ECallback ErrNone (set_downloading false (file s))] /\
  files s' !! localPath dir (file s) = Some content.
Proof.
  intros Hc Hfd Hrename Htemp Hsize.
  destruct (clean_finish_publishes e dir s content Hc Hfd Hrename Htemp)
    as (Hcb & _ & Hfiles); [by rewrite Hsize|].
  cbv zeta. rewrite Hfiles, Hcb. split; [done|apply lookup_insert_eq].
Qed.

(** When the temp file cannot be opened, the attempt ends inside [start]:
    no stream is requested, the disk is untouched, the session is handed
    back, and the callback gets the exception with the entry flagged as
    not downloading. *)
Theorem open_failure_ends_attempt e dir f disk msg :
  open_result e = inr msg ->
  let s := start e dir f disk in
  requests s = [] /\
  files s = disk /\
  sessionReturns s = 1%nat /\
  callbacks s =
    [ECallback (ErrException msg)
       (set_downloading false (set_downloading true (set_destinationRoot dir f)))] /\
  pendingSocket s = false /\ fd s = None /\ called s = true.
Proof.
  intros Hopen. cbv zeta. unfold start. rewrite Hopen.
  unfold downloadDone, finalize, destroySocket, closeDescriptor, checkSize, publish.
  st_simpl. by vm_compute.
Qed.

(** *** After the attempt has ended *)

Definition is_destroy (e : Effect) : bool :=
  match e with EDestroy => true | _ => false end.

(** An ended attempt whose descriptor is closed, or which never opened
    one and never asked for a stream. *)
Definition quiet (s : St) : Prop :=
  called s = true /\
  (fdClosed s = true \/ (fd s = None /\ pendingSocket s = false /\ socket s = None)).

(** What an event cannot change once the attempt is quiet. *)
Definition settled (s s' : St) : Prop :=
  files s' = files s /\ file s' = file s /\ callbacks s' = callbacks s /\
  renames s' = renames s /\ sessionReturns s' = sessionReturns s /\
  count is_destroy (trace s') = count is_destroy (trace s).

Lemma step_quiet e dir ev s :
  quiet s -> quiet (step e dir ev s) /\ settled s (step e dir ev s).
Proof.
  intros [Hc Hq]. unfold quiet, settled, callbacks, renames, sessionReturns.
  assert (Hsignal : forall err,
            let s' := downloadDone e dir err s in
            (called s' = true /\
             (fdClosed s' = true \/
              fd s' = None /\ pendingSocket s' = false /\ socket s' = None)) /\
            files s' = files s /\ file s' = file s /\
            select is_callback (trace s') = select is_callback (trace s) /\
            select is_rename (trace s') = select is_rename (trace s) /\
            count is_done_with_ftp (trace s') = count is_done_with_ftp (trace s) /\
            count is_destroy (trace s') = count is_destroy (trace s)).
  { intros err. cbv zeta. unfold downloadDone. st_simpl. rewrite Hc. st_simpl.
    rewrite !select_snoc, !count_snoc. st_simpl.
    rewrite !app_nil_r, !Nat.add_0_r. by repeat split. }
  destruct ev as [err| |err sock|p|hadError]; cbn [step].
  - apply Hsignal.
  - apply Hsignal.
  - destruct Hq as [Hq|(Hfd & Hp & Hk)].
    + destruct (pendingSocket s); [|repeat split; auto].
      destruct (truthy err).
      * unfold downloadDone. st_simpl. rewrite Hc. st_simpl.
        rewrite !select_snoc, !count_snoc. st_simpl.
        rewrite !app_nil_r, !Nat.add_0_r. repeat split; auto.
      * destruct sock; st_simpl;
          rewrite !select_snoc, !count_snoc; st_simpl;
          rewrite !app_nil_r, !Nat.add_0_r; repeat split; auto.
    + rewrite Hp. repeat split; auto.
  - destruct (socket s) as [k|] eqn:Hk.
    + destruct Hq as [Hq|(_ & _ & Hq)]; [|congruence].
      destruct (listening k && negb (destroyed k)); [|repeat split; auto].
      unfold onData. st_simpl. rewrite Hq. st_simpl.
      rewrite !select_snoc, !count_snoc. st_simpl.
      rewrite !app_nil_r, !Nat.add_0_r. repeat split; auto.
    + repeat split; auto. destruct Hq as [?|(?&?&?)]; [by left|by right].
  - destruct (socket s) as [k|] eqn:Hk.
    + destruct (listening k); [apply Hsignal|].
      repeat split; auto. destruct Hq as [?|(?&?&?)]; [by left|congruence].
    + repeat split; auto. destruct Hq as [?|(?&?&?)]; [by left|by right].
Qed.

Lemma run_quiet e dir evs s :
  quiet s -> quiet (run e dir evs s) /\ settled s (run e dir evs s).
Proof.
  revert s. induction evs as [|ev evs IH]; intros s Hq.
  - split; [exact Hq|]. by repeat split.
  - rewrite run_cons. destruct (step_quiet e dir ev s Hq) as [Hq1 Hs1].
    destruct (IH _ Hq1) as [Hq2 Hs2]. split; [done|].
    unfold settled in *.
    destruct Hs1 as (A1 & A2 & A3 & A4 & A5 & A6).
    destruct Hs2 as (B1 & B2 & B3 & B4 & B5 & B6).
    repeat split; congruence.
Qed.

(** Before the first signal the descriptor is open; after it the attempt
    is quiet, provided the descriptor can be closed. *)
Definition open_or_quiet (s : St) : Prop :=
  if called s then quiet s else is_Some (fd s) /\ fdClosed s = false.

Lemma finalize_closes e dir err s n :
  fd s = Some n -> close_throws e = None -> fdClosed s = false ->
  fdClosed (finalize e dir err s) = true.
Proof.
  intros Hfd Hclose Hopen.
  unfold finalize, destroySocket, closeDescriptor, checkSize, publish,
    closeSync, renameSync.
  repeat (case_match; simplify_eq/=); congruence.
Qed.

Lemma downloadDone_open_or_quiet e dir err s :
  close_throws e = None -> attempt_inv dir s -> open_or_quiet s ->
  open_or_quiet (downloadDone e dir err s).
Proof.
  intros Hclose Hinv Hoq. unfold open_or_quiet in *.
  destruct (called s) eqn:Hc.
  - assert (Hq : quiet (step e dir (FtpError err) s))
      by (by apply step_quiet).
    cbn [step] in Hq. destruct Hq as [Hq1 Hq2]. rewrite Hq1. by split.
  - destruct Hoq as [[n Hfd] Hopen].
    unfold attempt_inv in Hinv. rewrite Hc in Hinv.
    destruct Hinv as (_ & _ & _ & _ & Htemp).
    unfold downloadDone. cbn [called emit]. rewrite Hc.
    destruct (finalize_counts e dir err (with_called true (emit (ESignal err) s)))
      as (Hcalled & _); [by right|].
    rewrite Hcalled. cbn [called with_called]. split; [by rewrite Hcalled|].
    left. by apply (finalize_closes e dir err _ n).
Qed.

Lemma step_open_or_quiet e dir ev s :
  close_throws e = None -> attempt_inv dir s -> open_or_quiet s ->
  open_or_quiet (step e dir ev s).
Proof.
  intros Hclose Hinv Hoq.
  destruct (called s) eqn:Hc.
  - unfold open_or_quiet in *. rewrite Hc in Hoq.
    destruct (step_quiet e dir ev s Hoq) as [[Hq1 Hq2] _].
    unfold open_or_quiet. rewrite Hq1. by split.
  - destruct ev as [err| |err sock|p|hadError]; cbn [step].
    + by apply downloadDone_open_or_quiet.
    + by apply downloadDone_open_or_quiet.
    + destruct (pendingSocket s) eqn:Hp; [|done].
      destruct (truthy err).
      * apply downloadDone_open_or_quiet; [done| |].
        -- unfold attempt_inv in *. st_simpl. by rewrite Hc in *.
        -- unfold open_or_quiet in *. st_simpl. by rewrite Hc in *.
      * unfold open_or_quiet in *. rewrite Hc in Hoq.
        destruct sock; st_simpl; by rewrite Hc.
    + destruct (socket s) as [k|] eqn:Hk; [|done].
      destruct (listening k && negb (destroyed k)); [|done].
      unfold open_or_quiet in *. rewrite Hc in Hoq. destruct Hoq as [Hfd Hopen].
      unfold onData. st_simpl. rewrite Hopen. st_simpl. by rewrite Hc.
    + destruct (socket s) as [k|] eqn:Hk; [|done].
      destruct (listening k); [|done]. by apply downloadDone_open_or_quiet.
Qed.

Lemma start_open_or_quiet e dir f disk :
  open_or_quiet (start e dir f disk).
Proof.
  unfold start. destruct (open_result e) as [n|msg] eqn:Hopen.
  - unfold open_or_quiet. st_simpl. split; [by eexists|done].
  - unfold open_or_quiet, quiet, downloadDone, finalize, destroySocket,
      closeDescriptor, checkSize, publish. st_simpl.
    split; [done|]. right. by repeat split.
Qed.

Lemma run_open_or_quiet e dir evs s :
  close_throws e = None -> attempt_inv dir s -> open_or_quiet s ->
  open_or_quiet (run e dir evs s).
Proof.
  intros Hclose. revert s. induction evs as [|ev evs IH]; intros s Hinv Hoq; [done|].
  rewrite run_cons. apply IH; [by apply step_inv|by apply step_open_or_quiet].
Qed.

(** Once an attempt has seen a termination signal, nothing that arrives
    later -- more signals, a late socket, data, a close -- changes a file
    or the entry, calls the callback, renames, hands the session back or
    destroys a socket.  The descriptor has to be closable for this. *)
Theorem ended_attempt_stays_ended e dir f disk before later :
  close_throws e = None ->
  let s := run e dir before (start e dir f disk) in
  (1 <= signals s)%nat ->
  let s' := run e dir later s in
  files s' = files s /\ file s' = file s /\ callbacks s' = callbacks s /\
  renames s' = renames s /\ sessionReturns s' = sessionReturns s /\
  count is_destroy (trace s') = count is_destroy (trace s).
Proof.
  intros Hclose s Hsig s'.
  assert (Hinv : attempt_inv dir s) by apply run_inv, start_inv.
  assert (Hoq : open_or_quiet s).
  { apply run_open_or_quiet; [done|apply start_inv|apply start_open_or_quiet]. }
  unfold open_or_quiet in Hoq. rewrite (signalled_called dir s Hinv Hsig) in Hoq.
  by destruct (run_quiet e dir later s Hoq) as [_ Hs].
Qed.

(** While the stream is open the chunks go to the end of the temp file in
    the order of their arrival; after each, the progress shown is what the
    socket has read plus the bytes skipped; nothing is reported or renamed
    meanwhile. *)
Theorem stream_is_appended e dir chunks s k c skip :
  socket s = Some k -> listening k = true -> destroyed k = false ->
  fdClosed s = false ->
  files s !! tempPath dir (file s) = Some c ->
  skipBytes s = Some skip ->
  let s' := run e dir (map SockData chunks) s in
  files s' !! tempPath dir (file s) = Some (c ++ concat chunks) /\
  (chunks <> [] ->
   transferred (file s') = bytesRead k + byteLength (concat chunks) + skip) /\
  callbacks s' = callbacks s /\ renames s' = renames s /\ called s' = called s.
Proof.
  intros Hk Hl Hd Hfd Hc Hskip.
  destruct (chunks_are_appended e dir chunks s k c skip Hk Hl Hd Hfd Hc Hskip)
    as (H1 & _ & H3 & _ & _ & _ & _ & H8 & _ & H10 & H11).
  by repeat split.
Qed.

(** *** The attempt on a shared disk *)

(** What holds of an attempt whatever happens to its temp file: the body
    of [downloadDone] ran once or not at all, and when it ran it either
    reached the callback or was left by the exception of [fs.statSync];
    the entry is flagged as downloading until the callback is called. *)
Definition course_inv (s : St) : Prop :=
  (if called s
   then (1 <= signals s)%nat /\ finalizations s = 1%nat /\
        sessionReturns s = 1%nat /\
        (length (callbacks s) + statFailures s = 1)%nat
   else signals s = 0%nat /\ finalizations s = 0%nat /\
        sessionReturns s = 0%nat /\
        length (callbacks s) = 0%nat /\ statFailures s = 0%nat) /\
  (downloading (file s) = true <-> callbacks s = []).

Ltac tally :=
  unfold signals, finalizations, callbacks, sessionReturns, statFailures in *;
  cbn [called file trace emit with_called with_file with_files with_socket
       with_fdClosed with_pendingSocket with_downloadSpeed with_fd with_skipBytes
       downloading set_downloading set_transferred set_downloadRate] in *;
  rewrite ?count_snoc, ?select_snoc, ?length_app in *;
  cbn [is_signal is_finalize is_callback is_done_with_ftp is_stat_failure
       length app] in *;
  change (String.eqb "ENOENT" "ENOENT") with true in *;
  change (String.eqb "EBADF" "ENOENT") with false in *;
  change (String.eqb "TypeError" "ENOENT") with false in *;
  rewrite ?app_nil_r, ?Nat.add_0_r in *.

Lemma finalize_tally e dir err s :
  let s' := finalize e dir err s in
  called s' = called s /\
  signals s' = signals s /\
  finalizations s' = S (finalizations s) /\
  sessionReturns s' = S (sessionReturns s) /\
  ((callbacks s' = callbacks s /\ statFailures s' = S (statFailures s) /\
    file s' = file s) \/
   (exists cb, callbacks s' = callbacks s ++ [cb] /\
               statFailures s' = statFailures s /\
               downloading (file s') = false)).
Proof.
  cbv zeta.
  unfold finalize, destroySocket, closeDescriptor, checkSize, publish,
    closeSync, renameSync.
  repeat (case_match; simplify_eq/=); tally.
  all: repeat split; try lia.
  all: try (left; repeat split; solve [done | lia]).
  all: try (right; eexists; repeat split; solve [done | lia]).
Qed.

Lemma downloadDone_course_inv e dir err s :
  course_inv s -> course_inv (downloadDone e dir err s).
Proof.
  intros [Hcount Hflag]. unfold downloadDone. cbn [called emit].
  destruct (called s) eqn:Hc.
  - split; tally; [rewrite Hc; lia|done].
  - destruct (finalize_tally e dir err (with_called true (emit (ESignal err) s)))
      as (Hc' & Hs' & Hf' & Hr' & Hcb).
    unfold course_inv. rewrite Hc'. cbn [called with_called].
    rewrite Hs', Hf', Hr'. clear Hc' Hs' Hf' Hr'.
    destruct Hcount as (Hs0 & Hf0 & Hr0 & Hk0 & Hx0).
    apply length_zero_iff_nil in Hk0.
    destruct Hcb as [(Hk & Hx & Hfile)|(cb & Hk & Hx & Hdown)].
    + rewrite Hk, Hx, Hfile. tally. rewrite Hk0 in *. simpl.
      split; [lia|]. tauto.
    + rewrite Hk, Hx, Hdown. tally. rewrite Hk0 in *. simpl.
      split; [lia|]. split; [done|]. intros Hnil. discriminate Hnil.
Qed.

Lemma start_course_inv e dir f disk : course_inv (start e dir f disk).
Proof.
  unfold start. destruct (open_result e) as [n|msg].
  - split; [|done]. cbn. repeat split; lia.
  - apply downloadDone_course_inv. split; [|done]. cbn. repeat split; lia.
Qed.

Lemma step_course_inv e dir ev s :
  course_inv s -> course_inv (step e dir ev s).
Proof.
  intros H. destruct ev as [err| |err sock|p|hadError]; simpl.
  - by apply downloadDone_course_inv.
  - by apply downloadDone_course_inv.
  - destruct (pendingSocket s); [|done].
    destruct (truthy err).
    + apply downloadDone_course_inv. exact H.
    + destruct sock; simpl; unfold course_inv in *; tally; exact H.
  - destruct (socket s) as [k|]; [|done].
    destruct (listening k && negb (destroyed k)); [|done].
    unfold onData. simpl. destruct (fdClosed s) eqn:Hfd;
      unfold course_inv in *; tally; exact H.
  - destruct (socket s) as [k|]; [|done].
    destruct (listening k); [|done].
    by apply downloadDone_course_inv.
Qed.

Lemma happen_course_inv e dir h s :
  course_inv s -> course_inv (happen e dir h s).
Proof.
  intros H. destruct h as [ev|]; unfold happen.
  - pose proof (step_course_inv e dir ev s H) as H'.
    destruct (files s !! tempPath dir (file s)); [done|]. exact H'.
  - exact H.
Qed.

Lemma course_course_inv e dir hs s :
  course_inv s -> course_inv (course e dir hs s).
Proof.
  revert s. induction hs as [|h hs IH]; intros s H; [done|].
  simpl. apply IH. by apply happen_course_inv.
Qed.

(** The once-flag is never taken back. *)
Lemma step_called e dir ev s :
  called s = true -> called (step e dir ev s) = true.
Proof.
  intros Hc.
  assert (Hdone : forall err, called (downloadDone e dir err s) = true).
  { intros err. unfold downloadDone. cbn [called emit]. by rewrite Hc. }
  destruct ev as [err| |err sock|p|hadError]; simpl; try apply Hdone.
  - destruct (pendingSocket s); [|done].
    destruct (truthy err).
    + unfold downloadDone. cbn [called emit with_socket with_pendingSocket].
      by rewrite Hc.
    + by destruct sock.
  - destruct (socket s) as [k|]; [|done].
    destruct (listening k && negb (destroyed k)); [|done].
    unfold onData. simpl. by destruct (fdClosed s).
  - destruct (socket s) as [k|]; [|done]. destruct (listening k); [|done].
    apply Hdone.
Qed.

(** As long as nobody takes the temp file away, the attempt on the shared
    disk is the attempt alone. *)
Lemma happen_delivered_inv e dir ev s :
  attempt_inv dir s -> attempt_inv dir (happen e dir (Delivered ev) s).
Proof.
  intros H. pose proof (step_inv e dir ev s H) as H'. unfold happen.
  destruct (files s !! tempPath dir (file s)) eqn:Htemp; [done|].
  assert (Hc : called s = true).
  { unfold attempt_inv in H. destruct (called s); [done|].
    destruct H as (_ & _ & _ & _ & [c Hsome]). congruence. }
  pose proof (step_called e dir ev s Hc) as Hc'.
  unfold attempt_inv in *. cbn [called with_files]. rewrite Hc' in *. exact H'.
Qed.

Lemma undisturbed_course_inv e dir hs s :
  TempFileGone ∉ hs -> attempt_inv dir s -> attempt_inv dir (course e dir hs s).
Proof.
  revert s. induction hs as [|h hs IH]; intros s Hno H; [done|].
  apply not_elem_of_cons in Hno as [Hh Hno]. simpl. apply IH; [done|].
  destruct h as [ev|]; [|done]. by apply happen_delivered_inv.
Qed.

(** On a disk that is shared with others, for one attempt -- [start]
    followed by any events of the session and the socket, with the temp
    file removed at any moment in between -- the body of [downloadDone]
    runs at most once, and exactly once as soon as a termination signal
    has arrived; each run hands the session back and ends either in the
    callback or in the exception of [fs.statSync], never in both; the
    entry stays flagged as downloading exactly as long as the callback has
    not been called; and when nobody removes the temp file, every run of
    the body reaches the callback. *)
Theorem callback_at_most_once e dir f disk hs :
  let s := course e dir hs (start e dir f disk) in
  (finalizations s <= 1)%nat /\
  sessionReturns s = finalizations s /\
  ((1 <= signals s)%nat <-> finalizations s = 1%nat) /\
  (length (callbacks s) + statFailures s = finalizations s)%nat /\
  (downloading (file s) = true <-> callbacks s = []) /\
  (TempFileGone ∉ hs -> length (callbacks s) = finalizations s).
Proof.
  intros s.
  assert (Hinv : course_inv s) by apply course_course_inv, start_course_inv.
  destruct Hinv as [Hcount Hflag].
  split; [|split; [|split; [|split; [|split]]]]; try exact Hflag.
  1-4: destruct (called s); lia.
  intros Hno.
  assert (Hatt : attempt_inv dir s) by (by apply undisturbed_course_inv, start_inv).
  unfold attempt_inv in Hatt. destruct (called s); lia.
Qed.

(** The error that reaches the callback when the first termination signal
    carries one: the signal's own, unless closing the descriptor fails. *)
Definition reported (e : Env) (err : Err) (s : St) : Err :=
  match fd s with
  | Some _ =>
      match close_throws e with
      | Some msg => ErrException msg
      | None => if fdClosed s then ErrException "EBADF" else err
      end
  | None => err
  end.

(** A first termination signal that carries an error -- a session error,
    a timeout, a failure to open the stream or the file, a socket that
    closed with an error: the body runs, the session is handed back, and
    the callback is called with an error (the signal's own, or the
    exception of a failing close) and with the entry flagged as not
    downloading; the size of the temp file is not looked at, nothing is
    renamed and the disk is untouched. *)
Theorem failed_attempt_is_reported e dir err s :
  called s = false -> truthy err = true ->
  let s' := downloadDone e dir err s in
  callbacks s' =
    callbacks s ++ [ECallback (reported e err s) (set_downloading false (file s))] /\
  truthy (reported e err s) = true /\
  file s' = set_downloading false (file s) /\
  renames s' = renames s /\
  files s' = files s /\
  called s' = true /\
  signals s' = S (signals s) /\
  finalizations s' = S (finalizations s) /\
  sessionReturns s' = S (sessionReturns s) /\
  statFailures s' = statFailures s.
Proof.
  intros Hc Herr. cbv zeta.
  unfold downloadDone. cbn [called emit]. rewrite Hc.
  unfold finalize, destroySocket, closeDescriptor, closeSync, checkSize,
    publish, reported, renames.
  cbn [socket emit with_called].
  destruct (socket s) as [k|];
    cbn [socket fd fdClosed emit with_called with_socket];
    (destruct (fd s) as [n|]; [destruct (close_throws e) as [msg|];
       [|destruct (fdClosed s)]|]);
    cbn [socket fd fdClosed emit with_called with_socket with_fdClosed truthy];
    rewrite ?Herr; tally; cbn [select is_rename app];
    rewrite ?select_snoc; cbn [is_rename]; rewrite ?app_nil_r;
    repeat split; try done; lia.
Qed.

(** A first termination signal without error that finds the temp file
    gone, with a descriptor that closes: the body runs up to
    [fs.statSync], whose exception nothing catches.  The session has been
    handed back, but the callback is not called and the entry keeps its
    [downloading] flag; nothing is renamed, the disk stays as it is, and
    since [once()] has taken the call no later signal makes up for it. *)
Theorem missing_temp_file_is_not_reported e dir err s :
  called s = false ->
  truthy err = false ->
  (is_Some (fd s) -> close_throws e = None /\ fdClosed s = false) ->
  files s !! tempPath dir (file s) = None ->
  let s' := downloadDone e dir err s in
  callbacks s' = callbacks s /\
  file s' = file s /\
  statFailures s' = S (statFailures s) /\
  sessionReturns s' = S (sessionReturns s) /\
  finalizations s' = S (finalizations s) /\
  renames s' = renames s /\
  files s' = files s /\
  called s' = true /\
  (forall err2,
     callbacks (downloadDone e dir err2 s') = callbacks s /\
     file (downloadDone e dir err2 s') = file s /\
     sessionReturns (downloadDone e dir err2 s') = S (sessionReturns s)).
Proof.
  intros Hc Herr Hfd Htemp. cbv zeta.
  assert (Hlater : forall x err2,
            called x = true ->
            callbacks (downloadDone e dir err2 x) = callbacks x /\
            file (downloadDone e dir err2 x) = file x /\
            sessionReturns (downloadDone e dir err2 x) = sessionReturns x).
  { intros x err2 Hx. unfold downloadDone. cbn [called emit]. rewrite Hx.
    tally. done. }
  assert (Hfirst :
    let s' := downloadDone e dir err s in
    callbacks s' = callbacks s /\ file s' = file s /\
    statFailures s' = S (statFailures s) /\
    sessionReturns s' = S (sessionReturns s) /\
    finalizations s' = S (finalizations s) /\
    renames s' = renames s /\ files s' = files s /\ called s' = true).
  { cbv zeta. unfold downloadDone. cbn [called emit]. rewrite Hc.
    unfold finalize, destroySocket, closeDescriptor, closeSync, checkSize,
      publish, renames.
    cbn [socket emit with_called].
    destruct (socket s) as [k|];
      cbn [socket fd fdClosed emit with_called with_socket];
      (destruct (fd s) as [n|];
         [destruct Hfd as [-> ->]; [by eexists|]|]);
      cbn [socket fd fdClosed files file emit with_called with_socket
           with_fdClosed truthy];
      rewrite ?Herr, ?Htemp; tally; cbn [select is_rename app];
      rewrite ?select_snoc; cbn [is_rename]; rewrite ?app_nil_r;
      repeat split; try done; lia. }
  cbv zeta in Hfirst.
  destruct Hfirst as (H1 & H2 & H3 & H4 & H5 & H6 & H7 & H8).
  repeat split; try done.
  all: destruct (Hlater (downloadDone e dir err s) err2 H8) as (L1 & L2 & L3);
    congruence.
Qed.
End WithCollaborators.

(** Concrete collaborators for running the model: [slashed] for
    [appendSlash], names taken as they are, and a rate tracker that sums
    what it was fed. *)
Definition sample_file (expected : option Z) : FtpFile :=
  mkFtpFile "/sync/tv/ep1.avi" "/sync/tv/ep1.avi" "ep1.avi" "tv/" true expected
    0 false 0 0 None.

Definition calm : Env := mkEnv (inl 3%positive) None None.

Definition chunk (n : nat) : list byte := replicate n Byte.x2a.

(** C1 (the code departs from the claim).  The body of [downloadDone]
    protects [fs.closeSync] and [fs.renameSync] with [try], but not
    [fs.statSync].  When the temp file has been removed by the time the
    stream closes, [fs.statSync] throws out of the body after [once()] has
    taken the call: the completion callback is never invoked and the entry
    stays flagged as downloading.  Here all four bytes have arrived, the
    temp file is removed, the socket closes and the session times out:
    two termination signals, one run of the body, no callback. *)
Theorem removed_temp_file_loses_callback :
  let s := course slashed id Z.add id calm "/local/tv"
             [Delivered (GetSocketCb ErrNone true);
              Delivered (SockData (chunk 4));
              TempFileGone;
              Delivered (SockClose false);
              Delivered FtpTimeout]
             (start slashed id 0 calm "/local/tv" (sample_file (Some 4)) ∅) in
  signals s = 2%nat /\ finalizations s = 1%nat /\ sessionReturns s = 1%nat /\
  callbacks s = [] /\
  select is_uncaught (trace s) = [EUncaught "ENOENT"] /\
  called s = true /\
  downloading (file s) = true /\
  renames s = [] /\
  files s !! tempPath slashed id "/local/tv" (file s) = None /\
  files s !! localPath slashed id "/local/tv" (file s) = None.
Proof. by vm_compute. Qed.

(** The attempt of [sample_file] after four of ten bytes have arrived. *)
Definition four_of_ten : St :=
  run slashed id Z.add id calm "/local/tv"
    [GetSocketCb ErrNone true; SockData (chunk 4)]
    (start slashed id 0 calm "/local/tv" (sample_file (Some 10)) ∅).

Lemma incomplete_transfer_keeps_temp_witness :
  let s' := downloadDone slashed id calm "/local/tv" ErrNone four_of_ten in
  callbacks s' =
    callbacks four_of_ten ++
      [ECallback (ErrString "Not completely downloaded")
         (set_downloading false (file four_of_ten))] /\
  renames s' = renames four_of_ten /\
  files s' = files four_of_ten /\
  files s' !! tempPath slashed id "/local/tv" (file s') = Some (chunk 4).
Proof.
  apply (incomplete_transfer_keeps_temp slashed id calm "/local/tv" ErrNone
           four_of_ten (chunk 4) 10).
  - by vm_compute.
  - by vm_compute.
  - intros _. split; by vm_compute.
  - by vm_compute.
  - by vm_compute.
  - by vm_compute.
Defined.

(** A disk on which the whole of a four-byte file is already in the temp
    file. *)
Definition complete_temp : gmap string (list byte) :=
  {[ "/local/tv/ep1.avi.tmp" := chunk 4 ]}.

Lemma resume_from_temp_size_witness :
  let f := sample_file (Some 4) in
  let t := tempPath slashed id "/local/tv" f in
  let existing := default [] (complete_temp !! t) in
  let K := byteLength existing in
  let s := start slashed id 0 calm "/local/tv" f complete_temp in
  let s' := run slashed id Z.add id calm "/local/tv"
              [GetSocketCb ErrNone true; SockClose false] s in
  K = 4 /\
  (skipBytes s = Some K /\ transferred (file s) = K /\
   requests s = [ERequest (fullPath f) K]) /\
  (callbacks s' = [ECallback ErrNone (set_downloading false (file s))] /\
   files s' !! localPath slashed id "/local/tv" f = Some existing /\
   files s' !! t = None).
Proof.
  intros f t existing K s s'.
  destruct (resume_from_temp_size slashed id 0 Z.add id calm "/local/tv"
              f complete_temp 3%positive eq_refl)
    as ((_ & H1 & H2 & H3 & _) & _ & Hfull).
  assert (Hsize : size f = Some K) by (vm_compute; reflexivity).
  destruct (Hfull Hsize eq_refl eq_refl) as (H4 & _ & H5 & H6 & _).
  split; [by vm_compute|].
  split; [split; [exact H1 | split; [exact H2 | exact H3]] |].
  split; [exact H4 | split; [exact H5 | exact H6]].
Defined.

(** Further runs of the transfer model. *)

Definition stuck_close : Env := mkEnv (inl 3%positive) (Some "EIO") None.
Definition stuck_rename : Env := mkEnv (inl 3%positive) None (Some "EXDEV").
Definition no_open : Env := mkEnv (inr "EACCES") None None.

(** All ten bytes of [sample_file] have arrived; the stream is still open. *)
Definition ten_of_ten : St :=
  run slashed id Z.add id calm "/local/tv"
    [GetSocketCb ErrNone true; SockData (chunk 10)]
    (start slashed id 0 calm "/local/tv" (sample_file (Some 10)) ∅).

(** The same beside an older final file and an unrelated file. *)
Definition ten_beside_others : St :=
  run slashed id Z.add id calm "/local/tv"
    [GetSocketCb ErrNone true; SockData (chunk 10)]
    (start slashed id 0 calm "/local/tv" (sample_file (Some 10))
       {[ "/local/tv/ep1.avi" := chunk 2; "/local/tv/other.avi" := chunk 1 ]}).

(** Four bytes of an entry whose size was never looked up. *)
Definition four_of_unknown : St :=
  run slashed id Z.add id calm "/local/tv"
    [GetSocketCb ErrNone true; SockData (chunk 4)]
    (start slashed id 0 calm "/local/tv" (sample_file None) ∅).

(** Four bytes on disk, the stream just opened at offset 4. *)
Definition resumed_at_four : St :=
  run slashed id Z.add id calm "/local/tv" [GetSocketCb ErrNone true]
    (start slashed id 0 calm "/local/tv" (sample_file (Some 10)) complete_temp).

Lemma close_failure_is_reported_witness :
  let s' := downloadDone slashed id stuck_close "/local/tv" ErrNone ten_of_ten in
  callbacks s' =
    callbacks ten_of_ten ++
      [ECallback (ErrException "EIO") (set_downloading false (file ten_of_ten))] /\
  renames s' = renames ten_of_ten /\
  files s' = files ten_of_ten /\
  downloading (file s') = false.
Proof.
  apply (close_failure_is_reported slashed id stuck_close "/local/tv" ErrNone
           ten_of_ten 3%positive "EIO"); by vm_compute.
Defined.

Lemma rename_failure_keeps_temp_witness :
  let s' := downloadDone slashed id stuck_rename "/local/tv" ErrNone ten_of_ten in
  callbacks s' =
    callbacks ten_of_ten ++
      [ECallback (ErrException "EXDEV") (set_downloading false (file ten_of_ten))] /\
  renames s' = renames ten_of_ten /\
  files s' = files ten_of_ten.
Proof.
  apply (rename_failure_keeps_temp slashed id stuck_rename "/local/tv" ErrNone
           ten_of_ten (chunk 10) "EXDEV").
  - by vm_compute.
  - by vm_compute.
  - intros _. split; by vm_compute.
  - by vm_compute.
  - by vm_compute.
  - by vm_compute.
Defined.

Lemma publish_touches_two_paths_witness :
  let s := ten_beside_others in
  let s' := downloadDone slashed id calm "/local/tv" ErrNone s in
  files s' !! localPath slashed id "/local/tv" (file s) = Some (chunk 10) /\
  files s' !! tempPath slashed id "/local/tv" (file s) = None /\
  (forall p, p <> localPath slashed id "/local/tv" (file s) ->
             p <> tempPath slashed id "/local/tv" (file s) ->
             files s' !! p = files s !! p) /\
  renames s' =
    renames s ++ [ERename (tempPath slashed id "/local/tv" (file s))
                    (localPath slashed id "/local/tv" (file s))].
Proof.
  apply (publish_touches_two_paths slashed id calm "/local/tv" ten_beside_others
           (chunk 10)).
  - by vm_compute.
  - intros _. split; by vm_compute.
  - by vm_compute.
  - by vm_compute.
  - by vm_compute.
Defined.

Lemma unknown_size_is_published_witness :
  let s := four_of_unknown in
  let s' := downloadDone slashed id calm "/local/tv" ErrNone s in
  callbacks s' = callbacks s ++ [ECallback ErrNone (set_downloading false (file s))] /\
  files s' !! localPath slashed id "/local/tv" (file s) = Some (chunk 4).
Proof.
  apply (unknown_size_is_published slashed id calm "/local/tv" four_of_unknown
           (chunk 4)).
  - by vm_compute.
  - intros _. split; by vm_compute.
  - by vm_compute.
  - by vm_compute.
  - by vm_compute.
Defined.

Lemma open_failure_ends_attempt_witness :
  let f := sample_file (Some 10) in
  let s := start slashed id 0 no_open "/local/tv" f complete_temp in
  requests s = [] /\
  files s = complete_temp /\
  sessionReturns s = 1%nat /\
  callbacks s =
    [ECallback (ErrException "EACCES")
       (set_downloading false
          (set_downloading true (set_destinationRoot "/local/tv" f)))] /\
  pendingSocket s = false /\ fd s = None /\ called s = true.
Proof.
  apply (open_failure_ends_attempt slashed id 0 no_open "/local/tv"
           (sample_file (Some 10)) complete_temp "EACCES").
  reflexivity.
Defined.

(** The timeout fires before the stream is open; the socket arrives late
    and delivers into the closed descriptor. *)
Lemma ended_attempt_stays_ended_witness :
  let s := run slashed id Z.add id calm "/local/tv" [FtpTimeout]
             (start slashed id 0 calm "/local/tv" (sample_file (Some 10))
                complete_temp) in
  let s' := run slashed id Z.add id calm "/local/tv"
              [GetSocketCb ErrNone true; SockData (chunk 6); SockClose false] s in
  files s' = files s /\ file s' = file s /\ callbacks s' = callbacks s /\
  renames s' = renames s /\ sessionReturns s' = sessionReturns s /\
  count is_destroy (trace s') = count is_destroy (trace s).
Proof.
  apply (ended_attempt_stays_ended slashed id 0 Z.add id calm "/local/tv"
           (sample_file (Some 10)) complete_temp [FtpTimeout]
           [GetSocketCb ErrNone true; SockData (chunk 6); SockClose false]).
  - reflexivity.
  - vm_compute. lia.
Defined.

Lemma stream_is_appended_witness :
  let s := resumed_at_four in
  let chunks := [chunk 2; chunk 4] in
  let s' := run slashed id Z.add id calm "/local/tv" (map SockData chunks) s in
  files s' !! tempPath slashed id "/local/tv" (file s) =
    Some (chunk 4 ++ concat chunks) /\
  (chunks <> [] ->
   transferred (file s') =
   bytesRead (mkSocket 0 false true) + byteLength (concat chunks) + 4) /\
  callbacks s' = callbacks s /\ renames s' = renames s /\ called s' = called s.
Proof.
  apply (stream_is_appended slashed id Z.add id calm "/local/tv"
           [chunk 2; chunk 4] resumed_at_four (mkSocket 0 false true) (chunk 4) 4);
    by vm_compute.
Defined.

Lemma resumed_download_is_published_witness :
  let f := sample_file (Some 10) in
  let t := tempPath slashed id "/local/tv" f in
  let existing := default [] (complete_temp !! t) in
  let chunks := [chunk 2; chunk 4] in
  let s' := run slashed id Z.add id calm "/local/tv"
              (GetSocketCb ErrNone true :: map SockData chunks ++ [SockClose false])
              (start slashed id 0 calm "/local/tv" f complete_temp) in
  files s' !! localPath slashed id "/local/tv" f = Some (existing ++ concat chunks) /\
  files s' !! t = None /\
  byteLength (existing ++ concat chunks) = 10 /\
  length (callbacks s') = 1%nat /\
  (forall err g, ECallback err g ∈ callbacks s' ->
                 err = ErrNone /\ downloading g = false).
Proof.
  apply (resumed_download_is_published slashed id 0 Z.add id calm "/local/tv"
           (sample_file (Some 10)) complete_temp 3%positive [chunk 2; chunk 4] 10);
    by vm_compute.
Defined.


Lemma callback_at_most_once_witness :
  let s := course slashed id Z.add id calm "/local/tv"
             [Delivered (GetSocketCb ErrNone true);
              Delivered (SockData (chunk 4));
              Delivered (SockClose false);
              Delivered FtpTimeout]
             (start slashed id 0 calm "/local/tv" (sample_file (Some 4)) ∅) in
  (finalizations s <= 1)%nat /\
  sessionReturns s = finalizations s /\
  ((1 <= signals s)%nat <-> finalizations s = 1%nat) /\
  (length (callbacks s) + statFailures s = finalizations s)%nat /\
  (downloading (file s) = true <-> callbacks s = []) /\
  length (callbacks s) = finalizations s.
Proof.
  destruct (callback_at_most_once slashed id 0 Z.add id calm "/local/tv"
              (sample_file (Some 4)) ∅
              [Delivered (GetSocketCb ErrNone true);
               Delivered (SockData (chunk 4));
               Delivered (SockClose false);
               Delivered FtpTimeout])
    as (H1 & H2 & H3 & H4 & H5 & H6).
  split; [exact H1|]. split; [exact H2|]. split; [exact H3|].
  split; [exact H4|]. split; [exact H5|]. apply H6.
  intros Hin. apply list_elem_of_In in Hin. simpl in Hin.
  destruct Hin as [H|[H|[H|[H|[]]]]]; discriminate H.
Defined.

Lemma failed_attempt_is_reported_witness :
  let s' := downloadDone slashed id calm "/local/tv" (ErrString "timeout")
              four_of_ten in
  callbacks s' =
    callbacks four_of_ten ++
    [ECallback (reported calm (ErrString "timeout") four_of_ten)
       (set_downloading false (file four_of_ten))] /\
  truthy (reported calm (ErrString "timeout") four_of_ten) = true /\
  file s' = set_downloading false (file four_of_ten) /\
  renames s' = renames four_of_ten /\
  files s' = files four_of_ten /\
  called s' = true /\
  signals s' = S (signals four_of_ten) /\
  finalizations s' = S (finalizations four_of_ten) /\
  sessionReturns s' = S (sessionReturns four_of_ten) /\
  statFailures s' = statFailures four_of_ten.
Proof.
  apply (failed_attempt_is_reported slashed id calm "/local/tv"
           (ErrString "timeout") four_of_ten); by vm_compute.
Defined.

(** All four bytes of [sample_file] have arrived and the temp file has been
    removed. *)
Definition unlinked : St :=
  course slashed id Z.add id calm "/local/tv"
    [Delivered (GetSocketCb ErrNone true); Delivered (SockData (chunk 4));
     TempFileGone]
    (start slashed id 0 calm "/local/tv" (sample_file (Some 4)) ∅).

Lemma missing_temp_file_is_not_reported_witness :
  let s' := downloadDone slashed id calm "/local/tv" ErrNone unlinked in
  callbacks s' = callbacks unlinked /\
  file s' = file unlinked /\
  statFailures s' = S (statFailures unlinked) /\
  sessionReturns s' = S (sessionReturns unlinked) /\
  finalizations s' = S (finalizations unlinked) /\
  renames s' = renames unlinked /\
  files s' = files unlinked /\
  called s' = true /\
  (forall err2,
     callbacks (downloadDone slashed id calm "/local/tv" err2 s') =
       callbacks unlinked /\
     file (downloadDone slashed id calm "/local/tv" err2 s') = file unlinked /\
     sessionReturns (downloadDone slashed id calm "/local/tv" err2 s') =
       S (sessionReturns unlinked)).
Proof.
  apply (missing_temp_file_is_not_reported slashed id calm "/local/tv" ErrNone
           unlinked).
  - by vm_compute.
  - by vm_compute.
  - intros _. split; by vm_compute.
  - by vm_compute.
Defined.
End FtpDownloader.

(** ** Facts about JavaScript strings *)

Lemma index_zero_prefix (p s : string) :
  String.index 0 p s = Some 0%nat <-> String.prefix p s = true.
Proof.
  destruct s as [|a s].
  - destruct p; simpl; split; congruence.
  - change (String.index 0 p (String a s)) with
      (if String.prefix p (String a s) then Some 0%nat
       else match String.index 0 p s with
            | Some n => Some (S n)
            | None => None
            end).
    destruct (String.prefix p (String a s)) eqn:E; [done|].
    split; [|done]. destruct (String.index 0 p s); congruence.
Qed.

Lemma string_app_String (c : ascii) (a b : string) :
  String c a +:+ b = String c (a +:+ b).
Proof. reflexivity. Qed.

Lemma prefix_split (p s : string) :
  String.prefix p s = true <-> exists r, s = p +:+ r.
Proof.
  revert s. induction p as [|c p IH]; intros s.
  - split; [intros _; by exists s|by destruct s].
  - destruct s as [|a s]; [split; [done|intros [r Hr]; done]|]. simpl.
    destruct (Ascii.ascii_dec c a) as [->|Hne].
    + rewrite IH. split; intros [r Hr]; exists r;
        rewrite string_app_String in *; congruence.
    + split; [done|]. intros [r Hr]. rewrite string_app_String in Hr. congruence.
Qed.

Lemma substring_all (s : string) : String.substring 0 (String.length s) s = s.
Proof. induction s as [|c s IH]; simpl; [done|by rewrite IH]. Qed.

Lemma substring_from_app (p r : string) :
  substring_from (p +:+ r) (String.length p) = r.
Proof.
  unfold substring_from. induction p as [|c p IH].
  - change ("" +:+ r) with r. simpl. rewrite Nat.sub_0_r. apply substring_all.
  - rewrite string_app_String. simpl. exact IH.
Qed.

Lemma indexOf_zero (s p : string) :
  indexOf s p = 0 <-> exists r, s = p +:+ r.
Proof.
  rewrite <- prefix_split, <- index_zero_prefix. unfold indexOf.
  destruct (String.index 0 p s) as [n|]; [|done].
  split; [intros H; f_equal; lia|intros [= ->]; done].
Qed.

(** ** The orchestrator (Downloader) *)

Module Downloader.

(** *** Listings, configuration, results *)

(** Modelled from the spec: the type tags [FtpFile.FTP_TYPE_FILE],
    [FTP_TYPE_DIRECTORY] and [FTP_TYPE_SYM_LINK] are declared in the absent
    FtpFile class; a listing node has one of them or something else. *)
Inductive NodeType :=
| FTP_TYPE_FILE
| FTP_TYPE_DIRECTORY
| FTP_TYPE_SYM_LINK
| FTP_TYPE_OTHER.

(** A node of the hierarchical listing that [ftp.lsr] delivers; [children]
    is [None] when [typeof file.children] is not ['object']. *)
Inductive Node :=
| mkNode (type : NodeType) (nname : string) (nsize : option Z) (ntime : Z)
         (children : option (list Node)).

Definition type (n : Node) : NodeType :=
  match n with mkNode t _ _ _ _ => t end.
Definition nname (n : Node) : string :=
  match n with mkNode _ x _ _ _ => x end.
Definition nsize (n : Node) : option Z :=
  match n with mkNode _ _ x _ _ => x end.
Definition ntime (n : Node) : Z :=
  match n with mkNode _ _ _ x _ => x end.
Definition children (n : Node) : option (list Node) :=
  match n with mkNode _ _ _ _ x => x end.

Record PathMapping := mkPathMapping {
  remotePath : string;
  localPath : string
}.

(** The parts of Config that the class reads. *)
Record Config := mkConfig {
  syncRoot : string;                   (* config.seedboxFtp.syncRoot *)
  pollingIntervalInSeconds : Z;        (* config.seedboxFtp.pollingIntervalInSeconds *)
  countMax : Z;                        (* config.downloads.countMax *)
  pathMappings : list PathMapping;
  localSyncRoot : string;
  deleteRemoteFiles : bool
}.

Record Stats := mkStats {
  download_rate : Q;
  max_download_rate : Z;
  num_connections : Z;
  max_num_connections : Z
}.

(** *** Objects, closures and the outside world *)

Definition loc := nat.      (* the identity of an FtpFile object *)
Definition sid := nat.      (* the identity of a JSFtp instance *)

Inductive EventName := OnError | OnTimeout | OnProgress.

(** The functions registered with [ftp.on], with what they close over. *)
Inductive Handler :=
| ftpScanError
| ftpDownloadError (file : loc) (ftp : sid)
| deleteFtpError (file : loc)
| ftpProgressUpdate.

(** An [ftp.get(file.fullPath, localPath, callback)] that was issued; the
    callback closes over [file] and [ftp]. *)
Record GetRequest := mkGet {
  get_ftp : sid;
  get_file : loc;
  get_remote : string;
  get_local : string
}.

(** Requests to the outside other than [ftp.get]. *)
Inductive Effect :=
| ELsr (ftp : sid) (path : string)
| ELs (ftp : sid) (file : loc) (path : string)
| EMkdirp (dir : string)
| ERawDele (ftp : sid) (path : string)
| ESetTimeout (id : Z) (ms : Z)
| EClearTimeout (id : Z)
| EBorrow (ftp : sid)            (* ftpForDownloading returned ftp *)
| EReturn (ftp : sid).           (* doneWithFtpObj(ftp) *)

Definition is_lsr (e : Effect) : bool :=
  match e with ELsr _ _ => true | _ => false end.
Definition is_borrow (e : Effect) : bool :=
  match e with EBorrow _ => true | _ => false end.
Definition is_return (e : Effect) : bool :=
  match e with EReturn _ => true | _ => false end.
Definition is_set_timeout (e : Effect) : bool :=
  match e with ESetTimeout _ _ => true | _ => false end.

(** The fields of the class, then the stores they point into. *)
Record State := mkState {
  downloading : bool;
  syncRequestedWhileDownloading : bool;
  lastRunHadStuffToDownload : bool;
  downloadQueue : list loc;
  completedList : list loc;
  ftpConnectionPool : list sid;
  pollingTimeoutId : Z;
  heap : gmap loc FtpFile;                       (* the FtpFile objects *)
  nextLoc : loc;
  sessions : list (list (EventName * Handler));  (* listeners of each JSFtp *)
  gets : list GetRequest;
  timers : list Z;                               (* armed timers *)
  nextTimer : Z;
  effects : list Effect
}.

Definition initial : State :=
  mkState false false false [] [] [] 0 ∅ 0%nat [] [] [] 1 [].

Definition with_downloading (b : bool) (d : State) : State :=
  mkState b (syncRequestedWhileDownloading d) (lastRunHadStuffToDownload d)
    (downloadQueue d) (completedList d) (ftpConnectionPool d)
    (pollingTimeoutId d) (heap d) (nextLoc d) (sessions d) (gets d)
    (timers d) (nextTimer d) (effects d).
Definition with_syncRequestedWhileDownloading (b : bool) (d : State) : State :=
  mkState (downloading d) b (lastRunHadStuffToDownload d)
    (downloadQueue d) (completedList d) (ftpConnectionPool d)
    (pollingTimeoutId d) (heap d) (nextLoc d) (sessions d) (gets d)
    (timers d) (nextTimer d) (effects d).
Definition with_downloadQueue (q : list loc) (d : State) : State :=
  mkState (downloading d) (syncRequestedWhileDownloading d)
    (lastRunHadStuffToDownload d) q (completedList d) (ftpConnectionPool d)
    (pollingTimeoutId d) (heap d) (nextLoc d) (sessions d) (gets d)
    (timers d) (nextTimer d) (effects d).
Definition with_completedList (q : list loc) (d : State) : State :=
  mkState (downloading d) (syncRequestedWhileDownloading d)
    (lastRunHadStuffToDownload d) (downloadQueue d) q (ftpConnectionPool d)
    (pollingTimeoutId d) (heap d) (nextLoc d) (sessions d) (gets d)
    (timers d) (nextTimer d) (effects d).
Definition with_ftpConnectionPool (p : list sid) (d : State) : State :=
  mkState (downloading d) (syncRequestedWhileDownloading d)
    (lastRunHadStuffToDownload d) (downloadQueue d) (completedList d) p
    (pollingTimeoutId d) (heap d) (nextLoc d) (sessions d) (gets d)
    (timers d) (nextTimer d) (effects d).
Definition with_pollingTimeoutId (t : Z) (d : State) : State :=
  mkState (downloading d) (syncRequestedWhileDownloading d)
    (lastRunHadStuffToDownload d) (downloadQueue d) (completedList d)
    (ftpConnectionPool d) t (heap d) (nextLoc d) (sessions d) (gets d)
    (timers d) (nextTimer d) (effects d).
Definition with_heap (h : gmap loc FtpFile) (d : State) : State :=
  mkState (downloading d) (syncRequestedWhileDownloading d)
    (lastRunHadStuffToDownload d) (downloadQueue d) (completedList d)
    (ftpConnectionPool d) (pollingTimeoutId d) h (nextLoc d) (sessions d)
    (gets d) (timers d) (nextTimer d) (effects d).
Definition with_nextLoc (n : loc) (d : State) : State :=
  mkState (downloading d) (syncRequestedWhileDownloading d)
    (lastRunHadStuffToDownload d) (downloadQueue d) (completedList d)
    (ftpConnectionPool d) (pollingTimeoutId d) (heap d) n (sessions d)
    (gets d) (timers d) (nextTimer d) (effects d).
Definition with_sessions (l : list (list (EventName * Handler))) (d : State) : State :=
  mkState (downloading d) (syncRequestedWhileDownloading d)
    (lastRunHadStuffToDownload d) (downloadQueue d) (completedList d)
    (ftpConnectionPool d) (pollingTimeoutId d) (heap d) (nextLoc d) l
    (gets d) (timers d) (nextTimer d) (effects d).
Definition with_gets (l : list GetRequest) (d : State) : State :=
  mkState (downloading d) (syncRequestedWhileDownloading d)
    (lastRunHadStuffToDownload d) (downloadQueue d) (completedList d)
    (ftpConnectionPool d) (pollingTimeoutId d) (heap d) (nextLoc d)
    (sessions d) l (timers d) (nextTimer d) (effects d).
Definition with_timers (l : list Z) (n : Z) (d : State) : State :=
  mkState (downloading d) (syncRequestedWhileDownloading d)
    (lastRunHadStuffToDownload d) (downloadQueue d) (completedList d)
    (ftpConnectionPool d) (pollingTimeoutId d) (heap d) (nextLoc d)
    (sessions d) (gets d) l n (effects d).
Definition effect (e : Effect) (d : State) : State :=
  mkState (downloading d) (syncRequestedWhileDownloading d)
    (lastRunHadStuffToDownload d) (downloadQueue d) (completedList d)
    (ftpConnectionPool d) (pollingTimeoutId d) (heap d) (nextLoc d)
    (sessions d) (gets d) (timers d) (nextTimer d) (effects d ++ [e]).

(** Reading and writing the fields of an entry through its reference. *)
Definition deref (d : State) (l : loc) : FtpFile := heap d !!! l.
Definition update (l : loc) (g : FtpFile -> FtpFile) (d : State) : State :=
  with_heap (<[l := g (deref d l)]> (heap d)) d.

(** The value of a call whose result is either [undefined] or the array
    that was passed as [outList]. *)
Inductive Returned := RUndefined | ROutList.

Section Operations.

(** [FtpFile.appendSlash] and [FtpFile.prototype.json] are not among the
    source files covered here; [cfg] is the configuration module. *)
Variable appendSlash : string -> string.
Context {Json : Type}.
Variable json : FtpFile -> Json.
Variable cfg : Config.

(** Modelled from the spec: the constructor [new FtpFile(basePath,
    relativePath, file)] of the absent FtpFile class.  An entry starts
    out not downloading, with nothing transferred. *)
Definition newFtpFile (basePath relativePath : string) (file : Node) : FtpFile :=
  mkFtpFile (appendSlash basePath +:+ relativePath +:+ nname file)
    (appendSlash basePath +:+ relativePath +:+ nname file)
    (nname file) relativePath
    (match type file with FTP_TYPE_SYM_LINK => true | _ => false end)
    (nsize file) (ntime file) false 0 0 None.

(** Modelled from the spec: [FtpFile.prototype.setTargetData], which takes
    the size from the listing of a link's target. *)
Definition setTargetData (target : Node) (f : FtpFile) : FtpFile :=
  mkFtpFile (fullPath f) (actualPath f) (name f) (relativeDirectory f)
    (isSymLink f) (nsize target) (mtime f) (Entry.downloading f)
    (transferred f) (downloadRate f) (destinationRoot f).

(** Modelled from the spec: the comparator [FtpFile.sortNewestFirst],
    newest remote modification time first. *)
Definition sortNewestFirst (a b : FtpFile) : Z := mtime b - mtime a.

(** [new JSFtp({...})]: a fresh session without listeners. *)
Definition newJSFtp (d : State) : sid * State :=
  (length (sessions d), with_sessions (sessions d ++ [[]]) d).

(** [ftp.on(name, handler)]. *)
Definition on (ftp : sid) (ev : EventName) (h : Handler) (d : State) : State :=
  with_sessions (alter (fun hs => hs ++ [(ev, h)]) ftp (sessions d)) d.

Definition setTimeout (ms : Z) (d : State) : Z * State :=
  (nextTimer d,
   effect (ESetTimeout (nextTimer d) ms)
     (with_timers (timers d ++ [nextTimer d]) (nextTimer d + 1) d)).

Definition clearTimeout (id : Z) (d : State) : State :=
  effect (EClearTimeout id)
    (with_timers (List.filter (fun t => negb (t =? id)) (timers d)) (nextTimer d) d).

(** Looks at the files in the remote server and starts the download
    process; what remains is the callback of [ftp.lsr]. *)
Definition startSync (d : State) : State :=
  let d := with_syncRequestedWhileDownloading false d in
  let d := with_downloading true d in
  let d :=
    if pollingTimeoutId d =? 0 then d
    else with_pollingTimeoutId 0 (clearTimeout (pollingTimeoutId d) d) in
  let '(ftp, d) := newJSFtp d in
  let d := on ftp OnError ftpScanError d in
  let d := on ftp OnTimeout ftpScanError d in
  effect (ELsr ftp (syncRoot cfg)) d.

Definition syncRequest (d : State) : State :=
  if downloading d then with_syncRequestedWhileDownloading true d
  else startSync d.

(** The value returned, and the state the call leaves behind. *)
Definition status (d : State) : (Stats * list Json) * State :=
  let downloads :=
    fold_left (fun downloads file => downloads ++ [json (deref d file)])
      (downloadQueue d) [] in
  ((mkStats (563 # 10) 5000001 1 2, downloads), d).

Definition downloadCompleteCallback (d : State) : State :=
  let d := with_downloading false d in
  if lastRunHadStuffToDownload d || syncRequestedWhileDownloading d
  then startSync d
  else
    let '(id, d) := setTimeout (pollingIntervalInSeconds cfg * 1000) d in
    with_pollingTimeoutId id d.

(** Creates a new JSFtp instance or pulls one from the connection pool
    ([pop] takes the last element). *)
Definition ftpForDownloading (d : State) : sid * State :=
  let '(ftp, d) :=
    match last (ftpConnectionPool d) with
    | Some ftp => (ftp, with_ftpConnectionPool (removelast (ftpConnectionPool d)) d)
    | None => newJSFtp d
    end in
  let d := on ftp OnProgress ftpProgressUpdate d in
  (ftp, effect (EBorrow ftp) d).

(** Done with this FTP object, put it back in the pool. *)
Definition doneWithFtpObj (ftp : sid) (d : State) : State :=
  effect (EReturn ftp) (with_ftpConnectionPool (ftpConnectionPool d ++ [ftp]) d).

(** The loop of [getNextFileToDownload]: the count of downloading entries
    and the first entry that is not downloading. *)
Definition scanQueue (d : State) : Z * option loc :=
  fold_left
    (fun '(downloadingCount, nextFile) file =>
       if negb (Entry.downloading (deref d file)) then
         (downloadingCount,
          match nextFile with None => Some file | Some _ => nextFile end)
       else (downloadingCount + 1, nextFile))
    (downloadQueue d) (0, None).

Definition getNextFileToDownload (d : State) : option loc :=
  let '(downloadingCount, nextFile) := scanQueue d in
  if downloadingCount <? countMax cfg then nextFile else None.

(** [for (t = 0; t < queue.length; t++) if (queue[t] == ftpFile)
    queue.splice(t, 1)]: after a removal the element that moved into
    position [t] is stepped over. *)
Fixpoint removeFileFromQueue (ftpFile : loc) (queue : list loc) : list loc :=
  match queue with
  | [] => []
  | x :: rest =>
      if Nat.eqb x ftpFile then
        match rest with
        | [] => []
        | y :: rest' => y :: removeFileFromQueue ftpFile rest'
        end
      else x :: removeFileFromQueue ftpFile rest
  end.

(** The loop over [config.pathMappings], with its [return]. *)
Fixpoint mappedDirectory (remoteDirectory : string) (maps : list PathMapping)
    : option string :=
  match maps with
  | [] => None
  | pathMap :: rest =>
      let pathMapDirectory := appendSlash (remotePath pathMap) in
      if indexOf remoteDirectory pathMapDirectory =? 0 then
        let relativeDirectory :=
          substring_from remoteDirectory (String.length pathMapDirectory) in
        Some (appendSlash (localPath pathMap) +:+ relativeDirectory)
      else mappedDirectory remoteDirectory rest
  end.

Definition getDestinationDirectory (file : FtpFile) : string :=
  match mappedDirectory (relativeDirectory file) (pathMappings cfg) with
  | Some dir => dir
  | None => appendSlash (localSyncRoot cfg) +:+ relativeDirectory file
  end.

(** The part of [downloadNextInQueue] between the selection of [file] and
    the call of itself: mark the entry, borrow a session, attach the error
    listeners and issue the transfer. *)
Definition dispatch (file : loc) (d : State) : State :=
  let d := update file (set_downloading true) d in
  let localDirectory := getDestinationDirectory (deref d file) in
  let d := effect (EMkdirp localDirectory) d in
  let localPath := appendSlash localDirectory +:+ name (deref d file) in
  let '(ftp, d) := ftpForDownloading d in
  let d := on ftp OnError (ftpDownloadError file ftp) d in
  let d := on ftp OnTimeout (ftpDownloadError file ftp) d in
  with_gets (gets d ++ [mkGet ftp file (fullPath (deref d file)) localPath]) d.

(** Download another item in the queue if it exists.  The function calls
    itself after each dispatch; [fuel] bounds the number of calls. *)
Fixpoint downloadNextInQueue_fuel (fuel : nat) (d : State) : option State :=
  match fuel with
  | O => None
  | S fuel =>
      match getNextFileToDownload d with
      | None =>
          if (length (downloadQueue d) =? 0)%nat
          then Some (downloadCompleteCallback d)
          else Some d
      | Some file => downloadNextInQueue_fuel fuel (dispatch file d)
      end
  end.

(** Every call but the last marks one more entry of the queue. *)
Definition downloadNextInQueue (d : State) : option State :=
  downloadNextInQueue_fuel (S (length (downloadQueue d))) d.

(** The closure [ftpDownloadError] of [downloadNextInQueue]. *)
Definition onFtpDownloadError (file : loc) (ftp : sid) (d : State) : option State :=
  let d := update file (set_downloading false) d in
  let d := doneWithFtpObj ftp d in
  downloadNextInQueue d.

(** The callback passed to [ftp.get]. *)
Definition onGetDone (r : GetRequest) (err : Err) (d : State) : option State :=
  if truthy err then onFtpDownloadError (get_file r) (get_ftp r) d
  else
    let file := get_file r in
    let d :=
      if deleteRemoteFiles cfg then
        let '(deleteFtp, d) := newJSFtp d in
        let d := on deleteFtp OnError (deleteFtpError file) d in
        let d := on deleteFtp OnTimeout (deleteFtpError file) d in
        effect (ERawDele deleteFtp ("dele " +:+ actualPath (deref d file))) d
      else d in
    let d := with_completedList (completedList d ++ [file]) d in
    let d := with_downloadQueue (removeFileFromQueue file (downloadQueue d)) d in
    let d := doneWithFtpObj (get_ftp r) d in
    downloadNextInQueue d.

(** Recursive function to traverse a file tree.  [depth] counts the levels
    still to go down (the caller passes 20); the result is what the call
    returns and the contents of [outList] afterwards. *)
Fixpoint processFilesJSON (depth : nat) (data : list Node) (basePath : string)
    (relativePath : string) (outList : list FtpFile) : Returned * list FtpFile :=
  let relativePath := appendSlash relativePath in
  match depth with
  | O => (RUndefined, outList)
  | S depth' =>
      (ROutList,
       fold_left
         (fun outList file =>
            match type file with
            | FTP_TYPE_SYM_LINK | FTP_TYPE_FILE =>
                outList ++ [newFtpFile basePath relativePath file]
            | FTP_TYPE_DIRECTORY =>
                match children file with
                | Some cs =>
                    let newPath := relativePath +:+ nname file in
                    snd (processFilesJSON depth' cs basePath newPath outList)
                | None => outList
                end
            | FTP_TYPE_OTHER => outList
            end)
         data outList)
  end.

(** [queue.sort(FtpFile.sortNewestFirst)]: the stable order of the
    comparator, by insertion from the right. *)
Fixpoint insertSorted (d : State) (x : loc) (sorted : list loc) : list loc :=
  match sorted with
  | [] => [x]
  | y :: rest =>
      if sortNewestFirst (deref d x) (deref d y) <=? 0 then x :: y :: rest
      else y :: insertSorted d x rest
  end.

Definition sortQueue (d : State) (queue : list loc) : list loc :=
  foldr (insertSorted d) [] queue.

(** The recursive directory search only gives us symlinks; their sizes are
    asked for one by one, without waiting for the answers. *)
Definition updateFileSizes (ftp : sid) (list : list loc) (d : State) : State :=
  fold_left
    (fun d file =>
       if isSymLink (deref d file)
       then effect (ELs ftp file (fullPath (deref d file))) d
       else d)
    list d.

(** The callback of one [ftp.ls] of [updateFileSizes]. *)
Definition onLsDone (file : loc) (err : Err) (data : list Node) (d : State) : State :=
  if truthy err then d
  else
    match data with
    | [target] => update file (setTargetData target) d
    | _ => d
    end.

(** Storing freshly constructed entries: each gets an identity of its own. *)
Definition allocate (files : list FtpFile) (d : State) : list loc * State :=
  fold_left
    (fun '(locs, d) f =>
       (locs ++ [nextLoc d],
        with_nextLoc (S (nextLoc d)) (with_heap (<[nextLoc d := f]> (heap d)) d)))
    files ([], d).

(** The callback of [ftp.lsr] in [startSync]. *)
Definition onLsrDone (ftp : sid) (err : Err) (data : list Node) (d : State)
    : option State :=
  if truthy err then Some (downloadCompleteCallback d)
  else
    let '(_, outList) := processFilesJSON 20 data (syncRoot cfg) "" [] in
    let '(queue, d) := allocate outList d in
    let d := with_downloadQueue queue d in
    let d := updateFileSizes ftp (downloadQueue d) d in
    let d := with_downloadQueue (sortQueue d (downloadQueue d)) d in
    downloadNextInQueue d.

(** Callback from jsftp to let us know file download progress. *)
Definition onProgress (filename : string) (n : Z) (d : State) : State :=
  match List.find (fun file => String.eqb (fullPath (deref d file)) filename)
          (downloadQueue d) with
  | Some file => update file (set_transferred n) d
  | None => d
  end.

(** Calling one listener of an 'error' or 'timeout' event. *)
Definition invoke (h : Handler) (d : State) : option State :=
  match h with
  | ftpScanError => Some (downloadCompleteCallback d)
  | ftpDownloadError file ftp => onFtpDownloadError file ftp d
  | deleteFtpError _ => Some d
  | ftpProgressUpdate => Some d
  end.

Definition same_event (a b : EventName) : bool :=
  match a, b with
  | OnError, OnError | OnTimeout, OnTimeout | OnProgress, OnProgress => true
  | _, _ => false
  end.

(** [ftp.emit(name, ...)]: the listeners registered for [name] when the
    event is emitted are called in the order of their registration. *)
Fixpoint invokeAll (ev : EventName) (hs : list (EventName * Handler)) (d : State)
    : option State :=
  match hs with
  | [] => Some d
  | (name, h) :: rest =>
      if same_event name ev then
        match invoke h d with
        | Some d' => invokeAll ev rest d'
        | None => None
        end
      else invokeAll ev rest d
  end.

Definition emit (ftp : sid) (ev : EventName) (d : State) : option State :=
  invokeAll ev (default [] (sessions d !! ftp)) d.

Definition emitProgress (ftp : sid) (filename : string) (n : Z) (d : State) : State :=
  fold_left
    (fun d '(name, h) =>
       match name, h with
       | OnProgress, ftpProgressUpdate => onProgress filename n d
       | _, _ => d
       end)
    (default [] (sessions d !! ftp)) d.

(** What reaches the object from outside. *)
Inductive Event :=
| SyncRequest                                        (* a caller of syncRequest() *)
| TimerFired (id : Z)                                (* the polling timer *)
| LsrDone (ftp : sid) (err : Err) (data : list Node)
| LsDone (file : loc) (err : Err) (data : list Node)
| GetDone (k : nat) (err : Err)                      (* callback of the k-th get *)
| EmitError (ftp : sid)
| EmitTimeout (ftp : sid)
| EmitProgress (ftp : sid) (filename : string) (n : Z).

Definition step (ev : Event) (d : State) : option State :=
  match ev with
  | SyncRequest => Some (syncRequest d)
  | TimerFired id =>
      if existsb (Z.eqb id) (timers d)
      then Some (syncRequest
                   (with_timers (List.filter (fun t => negb (t =? id)) (timers d))
                      (nextTimer d) d))
      else Some d
  | LsrDone ftp err data => onLsrDone ftp err data d
  | LsDone file err data => Some (onLsDone file err data d)
  | GetDone k err =>
      match gets d !! k with
      | Some r => onGetDone r err d
      | None => Some d
      end
  | EmitError ftp => emit ftp OnError d
  | EmitTimeout ftp => emit ftp OnTimeout d
  | EmitProgress ftp filename n => Some (emitProgress ftp filename n d)
  end.

Fixpoint run (evs : list Event) (d : State) : option State :=
  match evs with
  | [] => Some d
  | ev :: rest =>
      match step ev d with
      | Some d' => run rest d'
      | None => None
      end
  end.

(** *** The flattening, as the spec words it *)

(** The entries for the files and links found within [d] levels of the
    listing [data], whose relative directory (slash-terminated) is
    [relativePath]: siblings in listing order, the contents of a directory
    in the place of the directory. *)
Fixpoint entriesWithin (d : nat) (basePath relativePath : string)
    (data : list Node) : list FtpFile :=
  match d with
  | O => []
  | S d' =>
      flat_map
        (fun file =>
           match type file with
           | FTP_TYPE_FILE | FTP_TYPE_SYM_LINK =>
               [newFtpFile basePath relativePath file]
           | FTP_TYPE_DIRECTORY =>
               match children file with
               | Some cs =>
                   entriesWithin d' basePath
                     (appendSlash (relativePath +:+ nname file)) cs
               | None => []
               end
           | FTP_TYPE_OTHER => []
           end)
        data
  end.

(** [nested data rel k file r]: [file] lies [k] directories below the
    listing [data] (whose relative directory is [rel]), in relative
    directory [r]. *)
Inductive nested : list Node -> string -> nat -> Node -> string -> Prop :=
| nested_here data rel file :
    In file data -> nested data rel 0 file rel
| nested_below data rel dir cs k file r :
    In dir data ->
    type dir = FTP_TYPE_DIRECTORY ->
    children dir = Some cs ->
    nested cs (appendSlash (rel +:+ nname dir)) k file r ->
    nested data rel (S k) file r.

Definition queueable (file : Node) : Prop :=
  type file = FTP_TYPE_FILE \/ type file = FTP_TYPE_SYM_LINK.

(** *** Scheduling under the concurrency cap *)

Definition busy (h : gmap loc FtpFile) (l : loc) : bool :=
  Entry.downloading (h !!! l).

(** The number of queue entries with [downloading == true]. *)
Fixpoint countDownloading (h : gmap loc FtpFile) (queue : list loc) : Z :=
  match queue with
  | [] => 0
  | l :: rest => (if busy h l then 1 else 0) + countDownloading h rest
  end.

(** The first queue entry, in queue order, that is not downloading. *)
Fixpoint firstNotDownloading (h : gmap loc FtpFile) (queue : list loc)
    : option loc :=
  match queue with
  | [] => None
  | l :: rest => if busy h l then firstNotDownloading h rest else Some l
  end.

Definition downloadingCount (d : State) : Z :=
  countDownloading (heap d) (downloadQueue d).

(** The entries that a drain pass can still dispatch. *)
Fixpoint notDownloading (h : gmap loc FtpFile) (queue : list loc) : nat :=
  match queue with
  | [] => 0%nat
  | l :: rest => ((if busy h l then 0 else 1) + notDownloading h rest)%nat
  end.

(** The bound of the spec, with the uniqueness of queue entries it rests
    on. *)
Definition within_cap (d : State) : Prop :=
  NoDup (downloadQueue d) /\ downloadingCount d <= countMax cfg.

(** [d'] has the entries and the queue of [d]. *)
Definition same_entries (d d' : State) : Prop :=
  heap d' = heap d /\ downloadQueue d' = downloadQueue d.

(** The heap after the entries [files] were stored from [n] on. *)
Fixpoint stored (files : list FtpFile) (n : loc) (h : gmap loc FtpFile)
    : gmap loc FtpFile :=
  match files with
  | [] => h
  | f :: rest => stored rest (S n) (<[n := f]> h)
  end.

(** [d'] has the [lastRunHadStuffToDownload] of [d]. *)
Definition same_lastRun (d d' : State) : Prop :=
  lastRunHadStuffToDownload d' = lastRunHadStuffToDownload d.

(** *** Path mapping *)

(** A rule matches a remote directory when its slash-terminated remote
    path is a prefix of it. *)
Definition matches (remoteDirectory : string) (rule : PathMapping) : Prop :=
  exists rest, remoteDirectory = appendSlash (remotePath rule) +:+ rest.

(** *** Flattening *)

Lemma fold_left_appending {A B : Type} (f : list B -> A -> list B)
    (g : A -> list B) (l : list A) (acc : list B) :
  (forall acc x, f acc x = acc ++ g x) ->
  fold_left f l acc = acc ++ flat_map g l.
Proof.
  intros Hf. revert acc. induction l as [|x l IH]; intros acc; simpl.
  - by rewrite app_nil_r.
  - by rewrite IH, Hf, <- app_assoc.
Qed.

Lemma processFilesJSON_entries d data basePath relativePath outList :
  snd (processFilesJSON d data basePath relativePath outList) =
  outList ++ entriesWithin d basePath (appendSlash relativePath) data.
Proof.
  revert data relativePath outList.
  induction d as [|d IH]; intros data relativePath outList; simpl.
  - by rewrite app_nil_r.
  - apply fold_left_appending. intros acc file.
    destruct (type file); try done; [|by rewrite app_nil_r].
    destruct (children file) as [cs|]; [apply IH|by rewrite app_nil_r].
Qed.

Lemma entriesWithin_nested d basePath rel data f :
  In f (entriesWithin d basePath rel data) <->
  exists k file r,
    (k < d)%nat /\ nested data rel k file r /\ queueable file /\
    f = newFtpFile basePath r file.
Proof.
  revert rel data f. induction d as [|d IH]; intros rel data f; simpl.
  - split; [done|]. intros (k & _ & _ & Hk & _). lia.
  - rewrite in_flat_map. split.
    + intros (file & Hin & Hf). unfold queueable.
      destruct (type file) eqn:Ht.
      * destruct Hf as [<-|[]]. exists 0%nat, file, rel.
        repeat split; [lia|by constructor|by left].
      * destruct (children file) as [cs|] eqn:Hc; [|done].
        apply IH in Hf as (k & file' & r & Hk & Hn & Hq & ->).
        exists (S k), file', r. repeat split; [lia| |done].
        by apply (nested_below data rel file cs).
      * destruct Hf as [<-|[]]. exists 0%nat, file, rel.
        repeat split; [lia|by constructor|by right].
      * done.
    + intros (k & file & r & Hk & Hn & Hq & ->).
      inversion Hn as [? ? ? Hin|? ? dir cs k' ? ? Hin Ht Hc Hn']; subst.
      * exists file. split; [done|].
        destruct Hq as [-> | ->]; by left.
      * exists dir. split; [done|]. rewrite Ht, Hc.
        apply IH. exists k', file, r. repeat split; [lia|done|done].
Qed.

(** C6. Flattening a listing with [d] levels to go appends to [outList],
    in listing order, exactly the entries of the files and links that lie
    fewer than [d] directories down: siblings keep their order, entering a
    directory uses up one level, and with no level left the call returns
    (nothing) without touching what was collected. *)
Theorem flatten_within_depth d data basePath relativePath outList :
  let rel := appendSlash relativePath in
  snd (processFilesJSON d data basePath relativePath outList) =
    outList ++ entriesWithin d basePath rel data /\
  processFilesJSON 0 data basePath relativePath outList = (RUndefined, outList) /\
  fst (processFilesJSON (S d) data basePath relativePath outList) = ROutList /\
  (forall f,
     In f (entriesWithin d basePath rel data) <->
     exists k file r,
       (k < d)%nat /\ nested data rel k file r /\ queueable file /\
       f = newFtpFile basePath r file) /\
  (forall first second,
     entriesWithin d basePath rel (first ++ second) =
     entriesWithin d basePath rel first ++ entriesWithin d basePath rel second) /\
  (forall dir cs,
     type dir = FTP_TYPE_DIRECTORY -> children dir = Some cs ->
     entriesWithin (S d) basePath rel [dir] =
     entriesWithin d basePath (appendSlash (rel +:+ nname dir)) cs).
Proof.
  intros rel. split; [apply processFilesJSON_entries|].
  split; [done|]. split; [done|].
  split; [intros f; apply entriesWithin_nested|]. split.
  - intros first second. destruct d; [done|]. simpl. apply flat_map_app.
  - intros dir cs Ht Hc. simpl. rewrite Ht, Hc. by rewrite app_nil_r.
Qed.

(** *** The status snapshot *)

Lemma fold_left_push {A B : Type} (g : A -> B) (l : list A) (acc : list B) :
  fold_left (fun acc x => acc ++ [g x]) l acc = acc ++ map g l.
Proof.
  revert acc. induction l as [|x l IH]; intros acc; simpl.
  - by rewrite app_nil_r.
  - by rewrite IH, <- app_assoc.
Qed.

(** C10. [status()] leaves the object as it was; its stats are the same
    four constants in every state, and its downloads are the [json()] of
    the queue entries, one per entry, in queue order. *)
Theorem status_constant_stats (d : State) :
  snd (status d) = d /\
  fst (fst (status d)) = mkStats (563 # 10) 5000001 1 2 /\
  (forall d', fst (fst (status d')) = fst (fst (status d))) /\
  snd (fst (status d)) = map (fun file => json (deref d file)) (downloadQueue d) /\
  length (snd (fst (status d))) = length (downloadQueue d).
Proof.
  unfold status. simpl. rewrite fold_left_push. simpl.
  repeat split. by rewrite length_map.
Qed.

(** *** Selection and the drain pass *)

Lemma scanQueue_from d queue c next :
  fold_left
    (fun '(downloadingCount, nextFile) file =>
       if negb (Entry.downloading (deref d file)) then
         (downloadingCount,
          match nextFile with None => Some file | Some _ => nextFile end)
       else (downloadingCount + 1, nextFile))
    queue (c, next) =
  (c + countDownloading (heap d) queue,
   match next with
   | Some _ => next
   | None => firstNotDownloading (heap d) queue
   end).
Proof.
  revert c next. induction queue as [|l queue IH]; intros c next; simpl.
  - rewrite Z.add_0_r. by destruct next.
  - change (busy (heap d) l) with (Entry.downloading (deref d l)).
    destruct (Entry.downloading (deref d l)); simpl.
    + rewrite IH. f_equal; lia.
    + rewrite IH. f_equal; try lia. by destruct next.
Qed.

Lemma getNextFileToDownload_spec d :
  getNextFileToDownload d =
  if downloadingCount d <? countMax cfg
  then firstNotDownloading (heap d) (downloadQueue d)
  else None.
Proof.
  unfold getNextFileToDownload, scanQueue. by rewrite scanQueue_from.
Qed.

Lemma firstNotDownloading_Some h queue l :
  firstNotDownloading h queue = Some l -> l ∈ queue /\ busy h l = false.
Proof.
  induction queue as [|x queue IH]; simpl; [done|].
  destruct (busy h x) eqn:E.
  - intros H. destruct (IH H). split; [by right|done].
  - intros [= ->]. split; [by left|done].
Qed.

Lemma firstNotDownloading_None h queue :
  firstNotDownloading h queue = None -> notDownloading h queue = 0%nat.
Proof.
  induction queue as [|x queue IH]; simpl; [done|].
  by destruct (busy h x).
Qed.

Lemma notDownloading_length h queue : (notDownloading h queue <= length queue)%nat.
Proof.
  induction queue as [|x queue IH]; simpl; [lia|]. destruct (busy h x); lia.
Qed.

Lemma busy_insert h l l' f :
  busy (<[l := f]> h) l' = if decide (l = l') then Entry.downloading f else busy h l'.
Proof.
  unfold busy. destruct (decide (l = l')) as [->|Hne].
  - by rewrite lookup_total_insert_eq.
  - by rewrite lookup_total_insert_ne.
Qed.

(** Marking an entry that is in the queue once. *)
Lemma countDownloading_mark h queue l f :
  NoDup queue -> l ∈ queue -> busy h l = false -> Entry.downloading f = true ->
  countDownloading (<[l := f]> h) queue = countDownloading h queue + 1.
Proof.
  intros Hnd Hin Hidle Hf. induction Hnd as [|x queue Hx Hnd IH]; simpl.
  - by apply elem_of_nil in Hin.
  - rewrite busy_insert. destruct (decide (l = x)) as [<-|Hne].
    + rewrite Hf, Hidle.
      assert (Hrest : countDownloading (<[l:=f]> h) queue = countDownloading h queue).
      { clear -Hx. induction queue as [|y queue IH]; simpl; [done|].
        rewrite busy_insert. apply not_elem_of_cons in Hx as [Hy Hx].
        rewrite decide_False by done. by rewrite IH. }
      rewrite Hrest. lia.
    + apply elem_of_cons in Hin as [->|Hin]; [done|]. rewrite IH by done. lia.
Qed.

Lemma notDownloading_mark h queue l f :
  l ∈ queue -> busy h l = false -> Entry.downloading f = true ->
  (notDownloading (<[l := f]> h) queue < notDownloading h queue)%nat.
Proof.
  intros Hin Hidle Hf.
  assert (Hle : forall q, (notDownloading (<[l := f]> h) q <= notDownloading h q)%nat).
  { induction q as [|y q IH]; simpl; [lia|]. rewrite busy_insert.
    destruct (decide (l = y)) as [<-|]; [rewrite Hf|]; destruct (busy h _); lia. }
  induction queue as [|x queue IH]; simpl.
  - by apply elem_of_nil in Hin.
  - rewrite busy_insert. destruct (decide (l = x)) as [<-|Hne].
    + rewrite Hf, Hidle. specialize (Hle queue). lia.
    + apply elem_of_cons in Hin as [->|Hin]; [done|].
      specialize (IH Hin). destruct (busy h x); lia.
Qed.

(** Clearing the flag of an entry never raises the count. *)
Lemma countDownloading_clear h queue l f :
  Entry.downloading f = false ->
  countDownloading (<[l := f]> h) queue <= countDownloading h queue.
Proof.
  intros Hf. induction queue as [|x queue IH]; simpl; [lia|].
  rewrite busy_insert. destruct (decide (l = x)); [rewrite Hf|];
    destruct (busy h x); lia.
Qed.

(** Writing a field other than the flag leaves the count alone. *)
Lemma countDownloading_keep h queue l f :
  Entry.downloading f = busy h l ->
  countDownloading (<[l := f]> h) queue = countDownloading h queue.
Proof.
  intros Hf. induction queue as [|x queue IH]; simpl; [done|].
  rewrite busy_insert. destruct (decide (l = x)) as [<-|]; [rewrite Hf|];
    by rewrite IH.
Qed.

Lemma countDownloading_nonneg h queue : 0 <= countDownloading h queue.
Proof. induction queue as [|x queue IH]; simpl; [lia|]. destruct (busy h x); lia. Qed.

(** Operations that touch neither the entries nor the queue keep the bound. *)
Lemma same_entries_within_cap d d' :
  same_entries d d' -> within_cap d -> within_cap d'.
Proof.
  intros [Hh Hq]. unfold within_cap, downloadingCount. by rewrite Hh, Hq.
Qed.

Lemma startSync_entries d : same_entries d (startSync d).
Proof.
  unfold startSync, same_entries, newJSFtp, clearTimeout.
  cbn. by destruct (pollingTimeoutId d =? 0).
Qed.

Lemma syncRequest_entries d : same_entries d (syncRequest d).
Proof.
  unfold syncRequest. destruct (downloading d); [done|apply startSync_entries].
Qed.

Lemma downloadCompleteCallback_entries d :
  same_entries d (downloadCompleteCallback d).
Proof.
  unfold downloadCompleteCallback.
  destruct (lastRunHadStuffToDownload (with_downloading false d)
            || syncRequestedWhileDownloading (with_downloading false d)).
  - apply (startSync_entries (with_downloading false d)).
  - done.
Qed.

Lemma ftpForDownloading_entries d : same_entries d (snd (ftpForDownloading d)).
Proof.
  unfold ftpForDownloading, newJSFtp. by destruct (last (ftpConnectionPool d)).
Qed.

Lemma dispatch_heap file d :
  heap (dispatch file d) = <[file := set_downloading true (deref d file)]> (heap d).
Proof.
  unfold dispatch, ftpForDownloading, newJSFtp, update.
  by destruct (last _).
Qed.

Lemma dispatch_queue file d : downloadQueue (dispatch file d) = downloadQueue d.
Proof.
  unfold dispatch, ftpForDownloading, newJSFtp, update.
  by destruct (last _).
Qed.

Lemma dispatch_gets file d :
  exists r, gets (dispatch file d) = gets d ++ [r] /\ get_file r = file.
Proof.
  unfold dispatch, ftpForDownloading, newJSFtp, update.
  destruct (last _); by eexists.
Qed.

(** Dispatching the entry that was selected keeps the bound. *)
Lemma dispatch_within_cap d file :
  within_cap d -> getNextFileToDownload d = Some file ->
  within_cap (dispatch file d) /\
  (notDownloading (heap (dispatch file d)) (downloadQueue (dispatch file d)) <
   notDownloading (heap d) (downloadQueue d))%nat.
Proof.
  intros [Hnd Hcap]. rewrite getNextFileToDownload_spec.
  destruct (downloadingCount d <? countMax cfg) eqn:Hlt; [|done].
  apply Z.ltb_lt in Hlt. intros [Hin Hidle]%firstNotDownloading_Some.
  unfold within_cap, downloadingCount. rewrite dispatch_heap, dispatch_queue.
  split; [split; [done|]|].
  - rewrite countDownloading_mark by done. unfold downloadingCount in Hlt. lia.
  - by apply notDownloading_mark.
Qed.

(** With one unit of fuel more than there are entries to dispatch, the
    drain pass comes to its end. *)
Lemma downloadNextInQueue_fuel_total fuel d :
  (notDownloading (heap d) (downloadQueue d) < fuel)%nat ->
  is_Some (downloadNextInQueue_fuel fuel d).
Proof.
  revert d. induction fuel as [|fuel IH]; intros d Hfuel; [lia|]. simpl.
  destruct (getNextFileToDownload d) as [file|] eqn:Hnext.
  - apply IH. rewrite getNextFileToDownload_spec in Hnext.
    destruct (downloadingCount d <? countMax cfg); [|done].
    apply firstNotDownloading_Some in Hnext as [Hin Hidle].
    rewrite dispatch_heap, dispatch_queue.
    pose proof (notDownloading_mark (heap d) (downloadQueue d) file
                  (set_downloading true (deref d file)) Hin Hidle eq_refl).
    lia.
  - by destruct (length (downloadQueue d) =? 0)%nat.
Qed.

Lemma downloadNextInQueue_total d : is_Some (downloadNextInQueue d).
Proof.
  apply downloadNextInQueue_fuel_total.
  pose proof (notDownloading_length (heap d) (downloadQueue d)). lia.
Qed.

(** More fuel than needed changes nothing. *)
Lemma downloadNextInQueue_fuel_mono fuel fuel' d d' :
  downloadNextInQueue_fuel fuel d = Some d' -> (fuel <= fuel')%nat ->
  downloadNextInQueue_fuel fuel' d = Some d'.
Proof.
  revert fuel' d. induction fuel as [|fuel IH]; intros fuel' d H Hle; [done|].
  destruct fuel' as [|fuel']; [lia|]. simpl in *.
  destruct (getNextFileToDownload d); [|done]. apply IH; [done|lia].
Qed.

Lemma downloadNextInQueue_fuel_within_cap fuel d d' :
  downloadNextInQueue_fuel fuel d = Some d' -> within_cap d -> within_cap d'.
Proof.
  revert d. induction fuel as [|fuel IH]; intros d H Hcap; [done|]. simpl in H.
  destruct (getNextFileToDownload d) as [file|] eqn:Hnext.
  - apply (IH _ H). by apply dispatch_within_cap.
  - destruct (length (downloadQueue d) =? 0)%nat; simplify_eq; [|done].
    apply (same_entries_within_cap d); [apply downloadCompleteCallback_entries|done].
Qed.

(** What a drain pass does to the queue, the transfers and the flags: the
    queue stays, transfers are only added, and a flag changes only for an
    entry that was not downloading and now has a new transfer. *)
Lemma downloadNextInQueue_fuel_progress fuel d d' :
  downloadNextInQueue_fuel fuel d = Some d' ->
  downloadQueue d' = downloadQueue d /\
  exists extra,
    gets d' = gets d ++ extra /\
    forall l,
      busy (heap d') l = busy (heap d) l \/
      (busy (heap d) l = false /\ busy (heap d') l = true /\
       exists r, r ∈ extra /\ get_file r = l).
Proof.
  revert d. induction fuel as [|fuel IH]; intros d H; [done|]. simpl in H.
  destruct (getNextFileToDownload d) as [file|] eqn:Hnext.
  - apply IH in H as (Hq & extra & Hgets & Hflags).
    rewrite dispatch_queue in Hq. split; [done|].
    destruct (dispatch_gets file d) as (r & Hr & Hfile).
    exists (r :: extra). rewrite Hgets, Hr, <- app_assoc. split; [done|].
    rewrite getNextFileToDownload_spec in Hnext.
    destruct (downloadingCount d <? countMax cfg); [|done].
    apply firstNotDownloading_Some in Hnext as [_ Hidle].
    intros l. specialize (Hflags l).
    rewrite dispatch_heap, busy_insert in Hflags.
    destruct (decide (file = l)) as [<-|Hne].
    + right. split; [done|]. split; [|exists r; split; [by left|done]].
      destruct Hflags as [->|(? & -> & _)]; done.
    + destruct Hflags as [->|(Hb & Hb' & r' & Hr' & Hfile')]; [by left|].
      right. repeat split; try done. exists r'. split; [by right|done].
  - destruct (length (downloadQueue d) =? 0)%nat; simplify_eq.
    + destruct (downloadCompleteCallback_entries d) as [Hh Hq].
      split; [done|]. exists []. rewrite app_nil_r. split.
      * unfold downloadCompleteCallback, startSync, setTimeout, newJSFtp, clearTimeout.
        cbn. destruct (_ || _); [|done]. by destruct (_ =? 0).
      * intros l. left. by rewrite Hh.
    + split; [done|]. exists []. rewrite app_nil_r. split; [done|by left].
Qed.

(** Removal only drops entries. *)
Lemma removeFileFromQueue_sublist ftpFile queue :
  removeFileFromQueue ftpFile queue `sublist_of` queue.
Proof.
  assert (H : forall n queue, (length queue <= n)%nat ->
                removeFileFromQueue ftpFile queue `sublist_of` queue).
  { clear queue. induction n as [|n IH]; intros queue Hlen.
    - destruct queue; [constructor|simpl in Hlen; lia].
    - destruct queue as [|x [|y rest]]; simpl.
      + constructor.
      + destruct (Nat.eqb x ftpFile); [by apply sublist_cons|done].
      + destruct (Nat.eqb x ftpFile).
        * apply sublist_cons, sublist_skip, IH. simpl in Hlen. lia.
        * apply sublist_skip, (IH (y :: rest)). simpl in *. lia. }
  by apply (H (length queue)).
Qed.

(** With unique entries, removal takes out the one entry. *)
Lemma removeFileFromQueue_absent ftpFile queue :
  ftpFile ∉ queue -> removeFileFromQueue ftpFile queue = queue.
Proof.
  induction queue as [|x queue IH]; [done|]. intros [Hx Hq]%not_elem_of_cons.
  simpl. destruct (Nat.eqb_spec x ftpFile) as [->|_]; [done|]. by rewrite IH.
Qed.

Lemma removeFileFromQueue_NoDup ftpFile queue :
  NoDup queue -> ftpFile ∉ removeFileFromQueue ftpFile queue.
Proof.
  induction 1 as [|x queue Hx Hnd IH]; simpl; [apply not_elem_of_nil|].
  destruct (Nat.eqb_spec x ftpFile) as [->|Hne].
  - destruct queue as [|y rest]; [apply not_elem_of_nil|].
    apply not_elem_of_cons in Hx as [Hy Hrest].
    rewrite removeFileFromQueue_absent by done.
    by apply not_elem_of_cons.
  - apply not_elem_of_cons. split; [done|exact IH].
Qed.

Lemma countDownloading_sublist h q q' :
  q' `sublist_of` q -> countDownloading h q' <= countDownloading h q.
Proof.
  induction 1 as [|x q' q _ IH|x q' q _ IH]; simpl; [lia|lia|].
  destruct (busy h x); lia.
Qed.

Lemma countDownloading_idle h q :
  (forall l, l ∈ q -> busy h l = false) -> countDownloading h q = 0.
Proof.
  induction q as [|x q IH]; intros H; simpl; [done|].
  rewrite (H x) by by left. rewrite IH; [done|]. intros l Hl. apply H. by right.
Qed.

(** Sorting permutes the queue. *)
Lemma insertSorted_Permutation d x sorted : insertSorted d x sorted ≡ₚ x :: sorted.
Proof.
  induction sorted as [|y sorted IH]; simpl; [done|].
  destruct (_ <=? 0); [done|]. rewrite IH. apply Permutation_swap.
Qed.

Lemma sortQueue_Permutation d queue : sortQueue d queue ≡ₚ queue.
Proof.
  induction queue as [|x queue IH]; simpl; [done|].
  by rewrite insertSorted_Permutation, IH.
Qed.

Lemma insertSorted_heap d d' x sorted :
  heap d' = heap d -> insertSorted d' x sorted = insertSorted d x sorted.
Proof.
  intros Hh. induction sorted as [|y sorted IH]; simpl; [done|].
  unfold deref. by rewrite Hh, IH.
Qed.

Lemma updateFileSizes_entries ftp list d :
  same_entries d (updateFileSizes ftp list d).
Proof.
  unfold updateFileSizes. revert d.
  induction list as [|file list IH]; intros d; simpl; [done|].
  destruct (isSymLink (deref d file)).
  - destruct (IH (effect (ELs ftp file (fullPath (deref d file))) d)) as [Hh Hq].
    split; [by rewrite Hh|by rewrite Hq].
  - apply IH.
Qed.

Lemma allocate_from files locs d :
  fold_left
    (fun '(locs, d) f =>
       (locs ++ [nextLoc d],
        with_nextLoc (S (nextLoc d)) (with_heap (<[nextLoc d := f]> (heap d)) d)))
    files (locs, d) =
  (locs ++ seq (nextLoc d) (length files),
   with_nextLoc (nextLoc d + length files)%nat
     (with_heap (stored files (nextLoc d) (heap d)) d)).
Proof.
  revert locs d. induction files as [|f files IH]; intros locs d; simpl.
  - rewrite app_nil_r, Nat.add_0_r. by destruct d.
  - rewrite IH. simpl. rewrite <- app_assoc. simpl.
    by rewrite Nat.add_succ_r.
Qed.

Lemma stored_below files n h l :
  (l < n)%nat -> stored files n h !!! l = h !!! l.
Proof.
  revert n h. induction files as [|f files IH]; intros n h Hl; simpl; [done|].
  rewrite IH by lia. apply lookup_total_insert_ne. lia.
Qed.

Lemma stored_idle files n h l :
  Forall (fun f => Entry.downloading f = false) files ->
  l ∈ seq n (length files) -> busy (stored files n h) l = false.
Proof.
  intros Hfiles. revert n h.
  induction Hfiles as [|f files Hf _ IH]; intros n h Hl; simpl in *.
  - by apply elem_of_nil in Hl.
  - apply elem_of_cons in Hl as [->|Hl]; [|by apply IH].
    unfold busy. rewrite stored_below by lia.
    by rewrite lookup_total_insert_eq.
Qed.

Lemma entriesWithin_idle d basePath rel data :
  Forall (fun f => Entry.downloading f = false) (entriesWithin d basePath rel data).
Proof.
  apply List.Forall_forall. intros f Hf.
  apply entriesWithin_nested in Hf as (k & file & r & _ & _ & _ & ->). done.
Qed.

Lemma downloadNextInQueue_within_cap d :
  within_cap d ->
  exists d', downloadNextInQueue d = Some d' /\ within_cap d'.
Proof.
  intros Hcap. destruct (downloadNextInQueue_total d) as [d' Hd'].
  exists d'. split; [done|].
  by apply (downloadNextInQueue_fuel_within_cap _ _ _ Hd').
Qed.

Lemma update_within_cap file g d :
  (forall f, Entry.downloading (g f) = Entry.downloading f \/
             Entry.downloading (g f) = false) ->
  within_cap d -> within_cap (update file g d).
Proof.
  intros Hg [Hnd Hcap]. split; [done|].
  unfold downloadingCount, update in *. cbn.
  destruct (Hg (deref d file)) as [Hkeep|Hclear].
  - by rewrite countDownloading_keep.
  - pose proof (countDownloading_clear (heap d) (downloadQueue d) file
                  (g (deref d file)) Hclear). lia.
Qed.

Lemma onFtpDownloadError_within_cap file ftp d :
  within_cap d ->
  exists d', onFtpDownloadError file ftp d = Some d' /\ within_cap d'.
Proof.
  intros Hcap. unfold onFtpDownloadError.
  apply downloadNextInQueue_within_cap.
  apply (same_entries_within_cap (update file (set_downloading false) d)); [done|].
  apply update_within_cap; [|done]. intros f. by right.
Qed.

Lemma onGetDone_within_cap r err d :
  within_cap d ->
  exists d', onGetDone r err d = Some d' /\ within_cap d'.
Proof.
  intros Hcap. unfold onGetDone.
  destruct (truthy err); [by apply onFtpDownloadError_within_cap|].
  apply downloadNextInQueue_within_cap.
  destruct Hcap as [Hnd Hcap]. unfold within_cap, downloadingCount in *.
  assert (Hsub := removeFileFromQueue_sublist (get_file r) (downloadQueue d)).
  destruct (deleteRemoteFiles cfg); cbn.
  all: split; [by eapply sublist_NoDup|].
  all: pose proof (countDownloading_sublist (heap d) _ _ Hsub); lia.
Qed.

Lemma onLsrDone_within_cap ftp err data d :
  0 <= countMax cfg -> within_cap d ->
  exists d', onLsrDone ftp err data d = Some d' /\ within_cap d'.
Proof.
  intros Hmax Hcap. unfold onLsrDone. destruct (truthy err).
  - eexists. split; [done|].
    apply (same_entries_within_cap d); [apply downloadCompleteCallback_entries|done].
  - pose proof (processFilesJSON_entries 20 data (syncRoot cfg) "" []) as Hout.
    destruct (processFilesJSON 20 data (syncRoot cfg) "" []) as [ret outList].
    cbn [snd app] in Hout. unfold allocate. rewrite allocate_from.
    cbv beta iota zeta.
    set (A := with_downloadQueue _ (with_nextLoc _ (with_heap _ d))).
    set (U := updateFileSizes ftp (downloadQueue A) A).
    destruct (updateFileSizes_entries ftp (downloadQueue A) A) as [HhU HqU].
    fold U in HhU, HqU.
    assert (HhA : heap A = stored outList (nextLoc d) (heap d)) by done.
    assert (HqA : downloadQueue A = seq (nextLoc d) (length outList)) by done.
    apply downloadNextInQueue_within_cap. split.
    + cbn [downloadQueue with_downloadQueue].
      rewrite sortQueue_Permutation, HqU, HqA. apply NoDup_seq.
    + unfold downloadingCount. cbn [downloadQueue with_downloadQueue heap].
      rewrite countDownloading_idle; [done|].
      intros l Hl. rewrite sortQueue_Permutation, HqU, HqA in Hl.
      change (heap (with_downloadQueue (sortQueue U (downloadQueue U)) U))
        with (heap U).
      rewrite HhU, HhA. apply stored_idle; [|done].
      rewrite Hout. apply entriesWithin_idle.
Qed.

Lemma invoke_within_cap h d :
  within_cap d -> exists d', invoke h d = Some d' /\ within_cap d'.
Proof.
  intros Hcap. destruct h as [|file ftp|file|]; simpl.
  - eexists. split; [done|].
    apply (same_entries_within_cap d); [apply downloadCompleteCallback_entries|done].
  - by apply onFtpDownloadError_within_cap.
  - by exists d.
  - by exists d.
Qed.

Lemma invokeAll_within_cap ev hs d :
  within_cap d -> exists d', invokeAll ev hs d = Some d' /\ within_cap d'.
Proof.
  revert d. induction hs as [|[name h] hs IH]; intros d Hcap; simpl.
  - by exists d.
  - destruct (same_event name ev); [|by apply IH].
    destruct (invoke_within_cap h d Hcap) as (d1 & -> & Hcap1). by apply IH.
Qed.

Lemma onProgress_within_cap filename n d :
  within_cap d -> within_cap (onProgress filename n d).
Proof.
  intros Hcap. unfold onProgress. destruct (List.find _ _); [|done].
  apply update_within_cap; [|done]. intros f. by left.
Qed.

Lemma emitProgress_within_cap ftp filename n d :
  within_cap d -> within_cap (emitProgress ftp filename n d).
Proof.
  unfold emitProgress. generalize (default [] (sessions d !! ftp)).
  intros hs. revert d. induction hs as [|[name h] hs IH]; intros d Hcap; [done|].
  simpl. apply IH. destruct name, h; try done. by apply onProgress_within_cap.
Qed.

(** Every event is handled to its end and keeps the bound. *)
Lemma step_within_cap ev d :
  0 <= countMax cfg -> within_cap d ->
  exists d', step ev d = Some d' /\ within_cap d'.
Proof.
  intros Hmax Hcap.
  destruct ev as [|id|ftp err data|file err data|k err|ftp|ftp|ftp filename n];
    simpl.
  - eexists. split; [done|].
    apply (same_entries_within_cap d); [apply syncRequest_entries|done].
  - destruct (existsb (Z.eqb id) (timers d)); [|by exists d].
    eexists. split; [done|].
    eapply same_entries_within_cap; [apply syncRequest_entries|done].
  - by apply onLsrDone_within_cap.
  - eexists. split; [done|]. unfold onLsDone.
    destruct (truthy err); [done|]. destruct data as [|target [|? ?]]; try done.
    apply update_within_cap; [|done]. intros f. by left.
  - destruct (gets d !! k) as [r|]; [|by exists d].
    by apply onGetDone_within_cap.
  - by apply invokeAll_within_cap.
  - by apply invokeAll_within_cap.
  - eexists. split; [done|]. by apply emitProgress_within_cap.
Qed.

Lemma run_within_cap evs d :
  0 <= countMax cfg -> within_cap d ->
  exists d', run evs d = Some d' /\ within_cap d'.
Proof.
  intros Hmax. revert d. induction evs as [|ev evs IH]; intros d Hcap; simpl.
  - by exists d.
  - destruct (step_within_cap ev d Hmax Hcap) as (d1 & -> & Hcap1). by apply IH.
Qed.

(** C4. Selecting the next file returns the first queue entry that is not
    downloading when fewer entries than the configured maximum are
    downloading, and none otherwise.  Hence, for a cap that is not
    negative, the number of downloading entries of a queue of distinct
    entries stays within the cap: each dispatch of the drain loop keeps it
    there, and so does the handling of every sequence of events, each of
    which runs to its end; in particular it holds in every state the
    object reaches from its initial one. *)
Theorem selection_respects_cap :
  (forall d,
     getNextFileToDownload d =
     if downloadingCount d <? countMax cfg
     then firstNotDownloading (heap d) (downloadQueue d)
     else None) /\
  (forall d file,
     within_cap d -> getNextFileToDownload d = Some file ->
     within_cap (dispatch file d)) /\
  (0 <= countMax cfg ->
   (forall evs d,
      NoDup (downloadQueue d) -> downloadingCount d <= countMax cfg ->
      exists d',
        run evs d = Some d' /\ NoDup (downloadQueue d') /\
        downloadingCount d' <= countMax cfg) /\
   (forall evs,
      exists d',
        run evs initial = Some d' /\ downloadingCount d' <= countMax cfg)).
Proof.
  split; [exact getNextFileToDownload_spec|]. split.
  - intros d file Hcap Hnext. by apply dispatch_within_cap.
  - intros Hmax. split.
    + intros evs d Hnd Hcount.
      destruct (run_within_cap evs d Hmax (conj Hnd Hcount)) as (d' & Hrun & Hcap).
      exists d'. by destruct Hcap.
    + intros evs.
      destruct (run_within_cap evs initial Hmax) as (d' & Hrun & Hcap).
      { split; [constructor|exact Hmax]. }
      exists d'. by destruct Hcap.
Qed.

(** *** Failed transfers *)

Lemma firstNotDownloading_is_Some h queue l :
  l ∈ queue -> busy h l = false -> is_Some (firstNotDownloading h queue).
Proof.
  induction queue as [|x queue IH]; intros Hin Hidle; simpl.
  - by apply elem_of_nil in Hin.
  - destruct (busy h x) eqn:E; [|by eexists].
    apply elem_of_cons in Hin as [->|Hin]; [congruence|by apply IH].
Qed.

(** *** The sync state machine *)

(** A request during a cycle only raises the flag. *)
Lemma syncRequest_while_syncing d :
  downloading d = true ->
  syncRequest d = with_syncRequestedWhileDownloading true d.
Proof. intros H. unfold syncRequest. by rewrite H. Qed.

Lemma syncRequest_while_idle d :
  downloading d = false -> syncRequest d = startSync d.
Proof. intros H. unfold syncRequest. by rewrite H. Qed.

(** The end of a cycle: a new scan when one of the two flags is set,
    the polling timer otherwise. *)
Lemma downloadCompleteCallback_rescan d :
  lastRunHadStuffToDownload d || syncRequestedWhileDownloading d = true ->
  downloadCompleteCallback d = startSync (with_downloading false d).
Proof. intros H. unfold downloadCompleteCallback. cbn. by rewrite H. Qed.

Lemma downloadCompleteCallback_poll d :
  lastRunHadStuffToDownload d || syncRequestedWhileDownloading d = false ->
  downloadCompleteCallback d =
  with_pollingTimeoutId (nextTimer d)
    (snd (setTimeout (pollingIntervalInSeconds cfg * 1000)
            (with_downloading false d))).
Proof. intros H. unfold downloadCompleteCallback. cbn. by rewrite H. Qed.

(** No operation assigns [lastRunHadStuffToDownload]. *)
Lemma startSync_lastRun d : same_lastRun d (startSync d).
Proof.
  unfold startSync, same_lastRun, newJSFtp, clearTimeout.
  cbn. by destruct (pollingTimeoutId d =? 0).
Qed.

Lemma downloadCompleteCallback_lastRun d :
  same_lastRun d (downloadCompleteCallback d).
Proof.
  unfold downloadCompleteCallback.
  destruct (lastRunHadStuffToDownload (with_downloading false d)
            || syncRequestedWhileDownloading (with_downloading false d)).
  - apply (startSync_lastRun (with_downloading false d)).
  - done.
Qed.

Lemma dispatch_lastRun file d : same_lastRun d (dispatch file d).
Proof.
  unfold dispatch, ftpForDownloading, newJSFtp, update, same_lastRun.
  by destruct (last _).
Qed.

Lemma downloadNextInQueue_fuel_lastRun fuel d d' :
  downloadNextInQueue_fuel fuel d = Some d' -> same_lastRun d d'.
Proof.
  unfold same_lastRun. revert d.
  induction fuel as [|fuel IH]; intros d H; [done|]. simpl in H.
  destruct (getNextFileToDownload d) as [file|].
  - rewrite (IH _ H). apply dispatch_lastRun.
  - destruct (length (downloadQueue d) =? 0)%nat; simplify_eq; [|done].
    apply downloadCompleteCallback_lastRun.
Qed.

Lemma invokeAll_lastRun ev hs d d' :
  invokeAll ev hs d = Some d' -> same_lastRun d d'.
Proof.
  unfold same_lastRun. revert d.
  induction hs as [|[name h] hs IH]; intros d H; simpl in H; [by simplify_eq|].
  destruct (same_event name ev); [|by apply IH].
  destruct (invoke h d) as [d1|] eqn:Hinv; [|done].
  rewrite (IH _ H). destruct h as [|file ftp|file|]; simpl in Hinv; simplify_eq.
  - apply downloadCompleteCallback_lastRun.
  - by apply downloadNextInQueue_fuel_lastRun in Hinv.
  - done.
  - done.
Qed.

Lemma updateFileSizes_lastRun ftp list d :
  same_lastRun d (updateFileSizes ftp list d).
Proof.
  unfold updateFileSizes, same_lastRun. revert d.
  induction list as [|file list IH]; intros d; simpl; [done|].
  destruct (isSymLink (deref d file)); by rewrite IH.
Qed.

Lemma emitProgress_lastRun ftp filename n d :
  same_lastRun d (emitProgress ftp filename n d).
Proof.
  unfold emitProgress, same_lastRun. generalize (default [] (sessions d !! ftp)).
  intros hs. revert d. induction hs as [|[name h] hs IH]; intros d; [done|].
  simpl. rewrite IH. destruct name, h; try done.
  unfold onProgress. by destruct (List.find _ _).
Qed.

Lemma step_lastRun ev d d' : step ev d = Some d' -> same_lastRun d d'.
Proof.
  unfold same_lastRun.
  destruct ev as [|id|ftp err data|file err data|k err|ftp|ftp|ftp filename n];
    simpl; intros H.
  - simplify_eq. unfold syncRequest. destruct (downloading d); [done|].
    apply startSync_lastRun.
  - destruct (existsb (Z.eqb id) (timers d)); simplify_eq; [|done].
    set (x := with_timers _ _ d).
    change (lastRunHadStuffToDownload d) with (lastRunHadStuffToDownload x).
    unfold syncRequest. destruct (downloading x); [done|].
    apply startSync_lastRun.
  - unfold onLsrDone in H. destruct (truthy err).
    + simplify_eq. apply downloadCompleteCallback_lastRun.
    + destruct (processFilesJSON 20 data (syncRoot cfg) "" []) as [ret outList].
      unfold allocate in H. rewrite allocate_from in H.
      cbv beta iota zeta in H.
      apply downloadNextInQueue_fuel_lastRun in H. rewrite H.
      cbn [lastRunHadStuffToDownload with_downloadQueue].
      match goal with
      | |- context [updateFileSizes ?f ?l ?x] =>
          change (lastRunHadStuffToDownload (updateFileSizes f l x) =
                  lastRunHadStuffToDownload d);
          by rewrite (updateFileSizes_lastRun f l x)
      end.
  - simplify_eq. unfold onLsDone. destruct (truthy err); [done|].
    by destruct data as [|target [|? ?]].
  - destruct (gets d !! k) as [r|]; simplify_eq; [|done].
    unfold onGetDone, onFtpDownloadError in H.
    destruct (truthy err);
      apply downloadNextInQueue_fuel_lastRun in H; rewrite H; [done|].
    by destruct (deleteRemoteFiles cfg).
  - unfold emit in H. by eapply invokeAll_lastRun.
  - unfold emit in H. by eapply invokeAll_lastRun.
  - simplify_eq. apply emitProgress_lastRun.
Qed.

(** However the object is driven, the flag keeps the value it had. *)
Lemma run_lastRun evs d d' :
  run evs d = Some d' ->
  lastRunHadStuffToDownload d' = lastRunHadStuffToDownload d.
Proof.
  revert d. induction evs as [|ev evs IH]; intros d H; simpl in H.
  - by simplify_eq.
  - destruct (step ev d) as [d1|] eqn:Hstep; [|done].
    rewrite (IH _ H). by apply (step_lastRun ev).
Qed.

(** *** More on the drain pass *)

Lemma getNextFileToDownload_entries d d' :
  same_entries d d' -> getNextFileToDownload d' = getNextFileToDownload d.
Proof.
  intros [Hh Hq]. rewrite !getNextFileToDownload_spec.
  unfold downloadingCount. by rewrite Hh, Hq.
Qed.

Lemma downloadNextInQueue_fuel_saturates fuel d d' :
  downloadNextInQueue_fuel fuel d = Some d' ->
  getNextFileToDownload d' = None.
Proof.
  revert d. induction fuel as [|fuel IH]; intros d H; [done|]. simpl in H.
  destruct (getNextFileToDownload d) as [file|] eqn:Hnext; [by apply (IH _ H)|].
  destruct (length (downloadQueue d) =? 0)%nat; simplify_eq; [|done].
  rewrite <- Hnext.
  apply getNextFileToDownload_entries, downloadCompleteCallback_entries.
Qed.

Lemma downloadNextInQueue_fuel_counts fuel d d' :
  within_cap d ->
  downloadNextInQueue_fuel fuel d = Some d' ->
  exists extra,
    gets d' = gets d ++ extra /\
    downloadingCount d' = downloadingCount d + Z.of_nat (length extra).
Proof.
  revert d. induction fuel as [|fuel IH]; intros d Hcap H; [done|]. simpl in H.
  destruct (getNextFileToDownload d) as [file|] eqn:Hnext.
  - destruct (dispatch_within_cap d file Hcap Hnext) as [Hcap1 _].
    destruct (IH _ Hcap1 H) as (extra & Hgets & Hcount).
    destruct (dispatch_gets file d) as (r & Hr & _).
    exists (r :: extra). rewrite Hgets, Hr, <- app_assoc. split; [done|].
    rewrite Hcount. unfold downloadingCount.
    rewrite dispatch_heap, dispatch_queue.
    destruct Hcap as [Hnd _]. rewrite getNextFileToDownload_spec in Hnext.
    destruct (downloadingCount d <? countMax cfg); [|done].
    apply firstNotDownloading_Some in Hnext as [Hin Hidle].
    rewrite countDownloading_mark by done. cbn [length]. lia.
  - exists []. rewrite app_nil_r.
    destruct (length (downloadQueue d) =? 0)%nat; simplify_eq; [|split; [done|cbn; lia]].
    destruct (downloadCompleteCallback_entries d) as [Hh Hq].
    unfold downloadingCount. rewrite Hh, Hq. split; [|cbn; lia].
    unfold downloadCompleteCallback, startSync, setTimeout, newJSFtp, clearTimeout.
    cbn. destruct (_ || _); [|done]. by destruct (_ =? 0).
Qed.

(** A drain pass keeps the queue saturated: it ends, it starts exactly as
    many transfers as the count of downloading entries goes up, and it
    stops only when the cap is reached or no entry is left to start. *)
Theorem drain_pass_fills_cap d :
  within_cap d ->
  exists d' extra,
    downloadNextInQueue d = Some d' /\
    downloadQueue d' = downloadQueue d /\
    gets d' = gets d ++ extra /\
    downloadingCount d' = downloadingCount d + Z.of_nat (length extra) /\
    getNextFileToDownload d' = None /\
    (downloadingCount d' = countMax cfg \/
     firstNotDownloading (heap d') (downloadQueue d') = None).
Proof.
  intros Hcap. destruct (downloadNextInQueue_total d) as [d' Hd'].
  destruct (downloadNextInQueue_fuel_counts _ _ _ Hcap Hd') as (extra & Hgets & Hcount).
  pose proof (downloadNextInQueue_fuel_saturates _ _ _ Hd') as Hsat.
  pose proof (downloadNextInQueue_fuel_within_cap _ _ _ Hd' Hcap) as [_ Hle].
  destruct (downloadNextInQueue_fuel_progress _ _ _ Hd') as (Hq & _).
  exists d', extra. repeat split; try done.
  rewrite getNextFileToDownload_spec in Hsat.
  destruct (downloadingCount d' <? countMax cfg) eqn:Hlt; [by right|].
  left. apply Z.ltb_ge in Hlt. lia.
Qed.

(** With a cap of zero or less nothing is ever selected: a queue that is
    not empty is left as it is by a drain pass, and the cycle never
    completes. *)
Theorem cap_of_zero_stalls d :
  countMax cfg <= 0 ->
  getNextFileToDownload d = None /\
  (downloadQueue d <> [] -> downloadNextInQueue d = Some d).
Proof.
  intros Hmax.
  assert (Hnone : getNextFileToDownload d = None).
  { rewrite getNextFileToDownload_spec.
    pose proof (countDownloading_nonneg (heap d) (downloadQueue d)).
    unfold downloadingCount.
    destruct (_ <? _) eqn:Hlt; [apply Z.ltb_lt in Hlt; lia|done]. }
  split; [done|]. intros Hne. unfold downloadNextInQueue. simpl.
  rewrite Hnone. by destruct (downloadQueue d).
Qed.

(** *** Removing from the queue *)

Lemma filter_absent (ftpFile : loc) (queue : list loc) :
  ftpFile ∉ queue -> filter (fun x => x <> ftpFile) queue = queue.
Proof.
  induction queue as [|x queue IH]; [done|]. intros [Hx Hq]%not_elem_of_cons.
  rewrite filter_cons_True by done. by rewrite IH.
Qed.

Lemma removeFileFromQueue_filter ftpFile queue :
  NoDup queue ->
  removeFileFromQueue ftpFile queue = filter (fun x => x <> ftpFile) queue.
Proof.
  induction 1 as [|x queue Hx Hnd IH]; [done|]. simpl.
  destruct (Nat.eqb_spec x ftpFile) as [->|Hne].
  - rewrite filter_cons_False by (intros H; by apply H).
    rewrite filter_absent by done.
    destruct queue as [|y rest]; [done|].
    apply not_elem_of_cons in Hx as [_ Hrest].
    by rewrite removeFileFromQueue_absent.
  - rewrite filter_cons_True by done. by rewrite IH.
Qed.

(** Removal drops entries only and keeps the order of the rest; it leaves
    a queue without the entry alone; from a queue of distinct entries it
    takes out exactly that entry.  An entry that is queued twice in a row
    survives: the loop steps over the element that follows a removal. *)
Theorem removeFileFromQueue_behaviour ftpFile queue :
  removeFileFromQueue ftpFile queue `sublist_of` queue /\
  (ftpFile ∉ queue -> removeFileFromQueue ftpFile queue = queue) /\
  (NoDup queue ->
   removeFileFromQueue ftpFile queue = filter (fun x => x <> ftpFile) queue /\
   ftpFile ∉ removeFileFromQueue ftpFile queue) /\
  (forall rest,
     removeFileFromQueue ftpFile (ftpFile :: ftpFile :: rest) =
     ftpFile :: removeFileFromQueue ftpFile rest).
Proof.
  split; [apply removeFileFromQueue_sublist|].
  split; [apply removeFileFromQueue_absent|]. split.
  - intros Hnd. split; [by apply removeFileFromQueue_filter|].
    by apply removeFileFromQueue_NoDup.
  - intros rest. simpl. by rewrite Nat.eqb_refl.
Qed.

(** *** The connection pool *)

(** The pool is a stack: a session handed back is the next one borrowed,
    and the pool is then as it was; two sessions come back in the reverse
    order of their return.  With an empty pool a new session is made,
    whose only listener is the progress listener. *)
Theorem pool_is_a_stack d a b :
  (let '(ftp, d1) := ftpForDownloading (doneWithFtpObj a d) in
   ftp = a /\ ftpConnectionPool d1 = ftpConnectionPool d) /\
  (let '(ftp1, d1) := ftpForDownloading (doneWithFtpObj b (doneWithFtpObj a d)) in
   let '(ftp2, d2) := ftpForDownloading d1 in
   ftp1 = b /\ ftp2 = a /\ ftpConnectionPool d2 = ftpConnectionPool d) /\
  (ftpConnectionPool d = [] ->
   let '(ftp, d1) := ftpForDownloading d in
   ftp = length (sessions d) /\
   sessions d1 = sessions d ++ [[(OnProgress, ftpProgressUpdate)]] /\
   ftpConnectionPool d1 = []).
Proof.
  split; [|split].
  - unfold ftpForDownloading, doneWithFtpObj. cbn.
    rewrite last_snoc. cbn. by rewrite removelast_last.
  - unfold ftpForDownloading, doneWithFtpObj. cbn.
    rewrite last_snoc. cbn. rewrite removelast_last, last_snoc. cbn.
    by rewrite removelast_last.
  - intros Hpool. unfold ftpForDownloading, newJSFtp, on. rewrite Hpool. cbn.
    split; [done|]. split; [|done].
    rewrite alter_app_r_alt by lia. by rewrite Nat.sub_diag.
Qed.

(** *** More on the flattening *)

Lemma flat_map_sublist {A B : Type} (f g : A -> list B) (l : list A) :
  (forall x, f x `sublist_of` g x) -> flat_map f l `sublist_of` flat_map g l.
Proof.
  intros Hfg. induction l as [|x l IH]; simpl; [constructor|].
  by apply sublist_app.
Qed.

Lemma entriesWithin_deeper d basePath rel data :
  entriesWithin d basePath rel data `sublist_of` entriesWithin (S d) basePath rel data.
Proof.
  revert rel data. induction d as [|d IH]; intros rel data.
  - apply sublist_nil_l.
  - change (entriesWithin (S (S d)) basePath rel data)
      with (flat_map
              (fun file =>
                 match type file with
                 | FTP_TYPE_FILE | FTP_TYPE_SYM_LINK =>
                     [newFtpFile basePath rel file]
                 | FTP_TYPE_DIRECTORY =>
                     match children file with
                     | Some cs =>
                         entriesWithin (S d) basePath
                           (appendSlash (rel +:+ nname file)) cs
                     | None => []
                     end
                 | FTP_TYPE_OTHER => []
                 end) data).
    cbn [entriesWithin]. apply flat_map_sublist. intros file.
    destruct (type file); try done. destruct (children file); [apply IH|done].
Qed.

(** Raising the depth limit never loses or reorders an entry: what the
    flattening yields with limit [d] is an ordered part of what it yields
    with any larger limit. *)
Theorem deeper_scan_keeps_entries d d' data basePath relativePath outList :
  (d <= d')%nat ->
  snd (processFilesJSON d data basePath relativePath outList) `sublist_of`
  snd (processFilesJSON d' data basePath relativePath outList).
Proof.
  intros Hle. rewrite !processFilesJSON_entries. apply sublist_app; [done|].
  induction Hle as [|d' _ IH]; [done|].
  etrans; [exact IH|apply entriesWithin_deeper].
Qed.

(** *** Size lookups *)

Lemma updateFileSizes_frame ftp list d :
  effects (updateFileSizes ftp list d) =
    effects d ++
    map (fun file => ELs ftp file (fullPath (deref d file)))
      (List.filter (fun file => isSymLink (deref d file)) list) /\
  heap (updateFileSizes ftp list d) = heap d /\
  downloadQueue (updateFileSizes ftp list d) = downloadQueue d /\
  sessions (updateFileSizes ftp list d) = sessions d /\
  gets (updateFileSizes ftp list d) = gets d /\
  ftpConnectionPool (updateFileSizes ftp list d) = ftpConnectionPool d.
Proof.
  unfold updateFileSizes. revert d.
  induction list as [|file list IH]; intros d; simpl.
  - by rewrite app_nil_r.
  - destruct (isSymLink (deref d file)) eqn:Hsym.
    + destruct (IH (effect (ELs ftp file (fullPath (deref d file))) d))
        as (He & Hh & Hq & Hs & Hg & Hp).
      rewrite He, Hh, Hq, Hs, Hg, Hp. cbn. rewrite <- app_assoc. by repeat split.
    + apply IH.
Qed.

(** [updateFileSizes] asks for one listing per symbolic link of the list,
    in list order, and changes nothing else: sizes arrive later, if at
    all. *)
Theorem updateFileSizes_only_asks ftp list d :
  let d' := updateFileSizes ftp list d in
  effects d' =
    effects d ++
    map (fun file => ELs ftp file (fullPath (deref d file)))
      (List.filter (fun file => isSymLink (deref d file)) list) /\
  heap d' = heap d /\ downloadQueue d' = downloadQueue d /\
  sessions d' = sessions d /\ gets d' = gets d /\
  ftpConnectionPool d' = ftpConnectionPool d.
Proof. apply updateFileSizes_frame. Qed.

(** *** A transfer that succeeds *)

Lemma dispatch_completedList file d :
  completedList (dispatch file d) = completedList d.
Proof.
  unfold dispatch, ftpForDownloading, newJSFtp, update. by destruct (last _).
Qed.

Lemma downloadNextInQueue_fuel_completedList fuel d d' :
  downloadNextInQueue_fuel fuel d = Some d' -> completedList d' = completedList d.
Proof.
  revert d. induction fuel as [|fuel IH]; intros d H; [done|]. simpl in H.
  destruct (getNextFileToDownload d) as [file|].
  - rewrite (IH _ H). apply dispatch_completedList.
  - destruct (length (downloadQueue d) =? 0)%nat; simplify_eq; [|done].
    unfold downloadCompleteCallback, startSync, setTimeout, newJSFtp, clearTimeout.
    cbn. destruct (_ || _); [|done]. by destruct (_ =? 0).
Qed.

(** The callback of a transfer without error, on a queue of distinct
    entries: the entry leaves the queue, the others stay in their order,
    the entry is appended to the completed list -- and its [downloading]
    flag is not cleared. *)
Theorem successful_transfer_is_booked r err d :
  truthy err = false ->
  NoDup (downloadQueue d) ->
  exists d',
    onGetDone r err d = Some d' /\
    downloadQueue d' = filter (fun x => x <> get_file r) (downloadQueue d) /\
    (get_file r ∉ downloadQueue d') /\
    completedList d' = completedList d ++ [get_file r] /\
    (busy (heap d) (get_file r) = true -> busy (heap d') (get_file r) = true).
Proof.
  intros Herr Hnd. unfold onGetDone. rewrite Herr.
  match goal with
  | |- exists d', downloadNextInQueue ?x = Some d' /\ _ => set (d1 := x)
  end.
  assert (H1 : heap d1 = heap d /\
               downloadQueue d1 = removeFileFromQueue (get_file r) (downloadQueue d) /\
               completedList d1 = completedList d ++ [get_file r]).
  { unfold d1, doneWithFtpObj, newJSFtp. by destruct (deleteRemoteFiles cfg). }
  destruct H1 as (Hh1 & Hq1 & Hc1).
  destruct (downloadNextInQueue_total d1) as [d' Hd'].
  exists d'. split; [done|].
  pose proof (downloadNextInQueue_fuel_completedList _ _ _ Hd') as Hc.
  apply downloadNextInQueue_fuel_progress in Hd' as (Hq & extra & _ & Hflags).
  pose proof (removeFileFromQueue_filter (get_file r) _ Hnd) as Hfilter.
  pose proof (removeFileFromQueue_NoDup (get_file r) _ Hnd) as Hnotin.
  rewrite Hq, Hq1, Hc, Hc1. repeat split; try done.
  intros Hbusy. destruct (Hflags (get_file r)) as [Hsame|(_ & Htrue & _)].
  - by rewrite Hsame, Hh1.
  - done.
Qed.

(** *** Listeners *)

(** Every session of [d] is a session of [d'], with the listeners it had
    and possibly more behind them. *)
Definition grown (d d' : State) : Prop :=
  forall ftp hs,
    sessions d !! ftp = Some hs ->
    exists more, sessions d' !! ftp = Some (hs ++ more).

Lemma grown_same d d' : sessions d' = sessions d -> grown d d'.
Proof. intros H ftp hs Hhs. exists []. by rewrite H, app_nil_r. Qed.

Lemma grown_trans d1 d2 d3 : grown d1 d2 -> grown d2 d3 -> grown d1 d3.
Proof.
  intros H12 H23 ftp hs Hhs.
  destruct (H12 ftp hs Hhs) as (m1 & H1). destruct (H23 ftp _ H1) as (m2 & H2).
  exists (m1 ++ m2). by rewrite app_assoc.
Qed.

Lemma on_grown ftp ev h d : grown d (on ftp ev h d).
Proof.
  intros ftp' hs Hhs. unfold on. cbn.
  rewrite list_lookup_alter. case_decide.
  - subst. exists [(ev, h)]. by rewrite Hhs.
  - exists []. by rewrite app_nil_r.
Qed.

Lemma newJSFtp_grown d : grown d (snd (newJSFtp d)).
Proof.
  intros ftp hs Hhs. exists []. unfold newJSFtp. cbn.
  rewrite app_nil_r. by apply lookup_app_l_Some.
Qed.

Lemma startSync_grown d : grown d (startSync d).
Proof.
  unfold startSync.
  set (d1 := if pollingTimeoutId _ =? 0 then _ else _).
  assert (H1 : grown d d1).
  { apply grown_same. unfold d1, clearTimeout. by destruct (_ =? 0). }
  eapply grown_trans; [exact H1|].
  eapply grown_trans; [apply (newJSFtp_grown d1)|].
  unfold newJSFtp. cbn [snd fst].
  eapply grown_trans; [apply on_grown|].
  eapply grown_trans; [apply on_grown|]. by apply grown_same.
Qed.

Lemma downloadCompleteCallback_grown d : grown d (downloadCompleteCallback d).
Proof.
  unfold downloadCompleteCallback.
  destruct (lastRunHadStuffToDownload (with_downloading false d)
            || syncRequestedWhileDownloading (with_downloading false d)).
  - eapply grown_trans; [|apply startSync_grown]. by apply grown_same.
  - by apply grown_same.
Qed.

Lemma syncRequest_grown d : grown d (syncRequest d).
Proof.
  unfold syncRequest. destruct (downloading d); [by apply grown_same|].
  apply startSync_grown.
Qed.

Lemma ftpForDownloading_grown d : grown d (snd (ftpForDownloading d)).
Proof.
  unfold ftpForDownloading.
  destruct (last (ftpConnectionPool d)) as [ftp|]; cbn [snd fst].
  - eapply grown_trans; [|by apply grown_same].
    eapply grown_trans; [|apply on_grown]. by apply grown_same.
  - eapply grown_trans; [apply (newJSFtp_grown d)|]. unfold newJSFtp. cbn [snd fst].
    eapply grown_trans; [apply on_grown|]. by apply grown_same.
Qed.

Lemma dispatch_grown file d : grown d (dispatch file d).
Proof.
  unfold dispatch.
  set (d1 := effect _ (update file (set_downloading true) d)).
  assert (H1 : grown d d1) by (by apply grown_same).
  pose proof (ftpForDownloading_grown d1) as H2.
  destruct (ftpForDownloading d1) as [ftp d2]. cbn [snd] in H2.
  eapply grown_trans; [exact H1|]. eapply grown_trans; [exact H2|].
  eapply grown_trans; [apply on_grown|].
  eapply grown_trans; [apply on_grown|]. by apply grown_same.
Qed.

Lemma downloadNextInQueue_fuel_grown fuel d d' :
  downloadNextInQueue_fuel fuel d = Some d' -> grown d d'.
Proof.
  revert d. induction fuel as [|fuel IH]; intros d H; [done|]. simpl in H.
  destruct (getNextFileToDownload d) as [file|].
  - eapply grown_trans; [apply dispatch_grown|by apply IH].
  - destruct (length (downloadQueue d) =? 0)%nat; simplify_eq.
    + apply downloadCompleteCallback_grown.
    + by apply grown_same.
Qed.

Lemma onFtpDownloadError_grown file ftp d d' :
  onFtpDownloadError file ftp d = Some d' -> grown d d'.
Proof.
  unfold onFtpDownloadError, downloadNextInQueue. intros H.
  apply downloadNextInQueue_fuel_grown in H.
  eapply grown_trans; [|exact H]. by apply grown_same.
Qed.

Lemma invokeAll_grown ev hs d d' : invokeAll ev hs d = Some d' -> grown d d'.
Proof.
  revert d. induction hs as [|[name h] hs IH]; intros d H; simpl in H.
  - simplify_eq. by apply grown_same.
  - destruct (same_event name ev); [|by apply IH].
    destruct (invoke h d) as [d1|] eqn:Hinv; [|done].
    eapply grown_trans; [|by apply IH].
    destruct h as [|file ftp|file|]; simpl in Hinv; simplify_eq.
    + apply downloadCompleteCallback_grown.
    + by apply onFtpDownloadError_grown in Hinv.
    + by apply grown_same.
    + by apply grown_same.
Qed.

Lemma updateFileSizes_sessions ftp list d :
  sessions (updateFileSizes ftp list d) = sessions d.
Proof. by destruct (updateFileSizes_frame ftp list d) as (_ & _ & _ & H & _). Qed.

Lemma emitProgress_sessions ftp filename n d :
  sessions (emitProgress ftp filename n d) = sessions d.
Proof.
  unfold emitProgress. generalize (default [] (sessions d !! ftp)).
  intros hs. revert d. induction hs as [|[name h] hs IH]; intros d; [done|].
  simpl. rewrite IH. destruct name, h; try done.
  unfold onProgress. by destruct (List.find _ _).
Qed.

Lemma onGetDone_grown r err d d' : onGetDone r err d = Some d' -> grown d d'.
Proof.
  unfold onGetDone. destruct (truthy err); [apply onFtpDownloadError_grown|].
  unfold downloadNextInQueue. intros H.
  apply downloadNextInQueue_fuel_grown in H.
  eapply grown_trans; [|exact H]. clear H.
  destruct (deleteRemoteFiles cfg); [|by apply grown_same].
  eapply grown_trans; [apply (newJSFtp_grown d)|]. unfold newJSFtp. cbn [snd fst].
  eapply grown_trans; [apply on_grown|].
  eapply grown_trans; [apply on_grown|]. by apply grown_same.
Qed.

Lemma onLsrDone_grown ftp err data d d' :
  onLsrDone ftp err data d = Some d' -> grown d d'.
Proof.
  unfold onLsrDone. destruct (truthy err).
  - intros H. simplify_eq. apply downloadCompleteCallback_grown.
  - destruct (processFilesJSON 20 data (syncRoot cfg) "" []) as [ret outList].
    unfold allocate. rewrite allocate_from. cbv beta iota zeta.
    unfold downloadNextInQueue. intros H.
    apply downloadNextInQueue_fuel_grown in H.
    eapply grown_trans; [|exact H]. apply grown_same.
    cbn [sessions with_downloadQueue].
    by rewrite updateFileSizes_sessions.
Qed.

Lemma step_grown ev d d' : step ev d = Some d' -> grown d d'.
Proof.
  destruct ev as [|id|ftp err data|file err data|k err|ftp|ftp|ftp filename n];
    simpl; intros H.
  - simplify_eq. apply syncRequest_grown.
  - destruct (existsb (Z.eqb id) (timers d)); simplify_eq; [|by apply grown_same].
    eapply grown_trans; [|apply syncRequest_grown]. by apply grown_same.
  - by eapply onLsrDone_grown.
  - simplify_eq. apply grown_same. unfold onLsDone.
    destruct (truthy err); [done|]. by destruct data as [|target [|? ?]].
  - destruct (gets d !! k) as [r|]; simplify_eq; [|by apply grown_same].
    by eapply onGetDone_grown.
  - unfold emit in H. by eapply invokeAll_grown.
  - unfold emit in H. by eapply invokeAll_grown.
  - simplify_eq. apply grown_same, emitProgress_sessions.
Qed.

(** Nothing ever removes a listener or a session: after any sequence of
    events every session still carries the listeners it had, in the same
    order, followed by those added since.  A session that goes back to the
    pool therefore keeps the error handlers of the transfers it served. *)
Theorem listeners_are_never_removed evs d d' :
  run evs d = Some d' ->
  (length (sessions d) <= length (sessions d'))%nat /\
  forall ftp hs,
    sessions d !! ftp = Some hs ->
    exists more, sessions d' !! ftp = Some (hs ++ more).
Proof.
  intros H. assert (Hg : grown d d').
  { revert d H. induction evs as [|ev evs IH]; intros d H; simpl in H.
    - simplify_eq. by apply grown_same.
    - destruct (step ev d) as [d1|] eqn:Hstep; [|done].
      eapply grown_trans; [by eapply step_grown|by apply IH]. }
  split; [|exact Hg].
  destruct (sessions d) as [|hs0 l] eqn:Hs using rev_ind; [simpl; lia|].
  clear IHl. destruct (Hg (length l) hs0) as (more & Hm).
  { rewrite Hs. by rewrite lookup_app_r, Nat.sub_diag. }
  apply lookup_lt_Some in Hm. rewrite length_app. simpl. lia.
Qed.

(** *** The end of a cycle *)

(** [lastRunHadStuffToDownload] is read at the end of a cycle and written
    nowhere, so in every state the object reaches from its initial one the
    end of a cycle rescans exactly when a request came in during the cycle,
    and arms the polling timer otherwise. *)
Theorem cycle_end_follows_request_only evs d :
  run evs initial = Some d ->
  downloadCompleteCallback d =
    if syncRequestedWhileDownloading d
    then startSync (with_downloading false d)
    else with_pollingTimeoutId (nextTimer d)
           (snd (setTimeout (pollingIntervalInSeconds cfg * 1000)
                   (with_downloading false d))).
Proof.
  intros H. apply run_lastRun in H. unfold same_lastRun in H.
  unfold downloadCompleteCallback.
  cbn [lastRunHadStuffToDownload syncRequestedWhileDownloading with_downloading].
  rewrite H. cbn [lastRunHadStuffToDownload initial orb].
  by destruct (syncRequestedWhileDownloading d).
Qed.

Lemma startSync_fields d :
  downloading (startSync d) = true /\
  syncRequestedWhileDownloading (startSync d) = false /\
  pollingTimeoutId (startSync d) = 0 /\
  sessions (startSync d) =
    sessions d ++ [[(OnError, ftpScanError); (OnTimeout, ftpScanError)]] /\
  last (effects (startSync d)) = Some (ELsr (length (sessions d)) (syncRoot cfg)) /\
  timers (startSync d) =
    (if pollingTimeoutId d =? 0 then timers d
     else List.filter (fun t => negb (t =? pollingTimeoutId d)) (timers d)) /\
  nextTimer (startSync d) = nextTimer d /\
  downloadQueue (startSync d) = downloadQueue d /\
  heap (startSync d) = heap d /\
  gets (startSync d) = gets d /\
  ftpConnectionPool (startSync d) = ftpConnectionPool d.
Proof.
  unfold startSync, newJSFtp, on, clearTimeout.
  cbn [pollingTimeoutId with_downloading with_syncRequestedWhileDownloading].
  destruct (pollingTimeoutId d =? 0) eqn:E; cbn.
  - apply Z.eqb_eq in E. rewrite last_snoc, E.
    rewrite !alter_app_r_alt by lia. rewrite Nat.sub_diag. cbn.
    by repeat split.
  - rewrite last_snoc.
    rewrite !alter_app_r_alt by lia. rewrite Nat.sub_diag. cbn.
    by repeat split.
Qed.

Lemma startSync_effects d :
  effects (startSync d) =
    effects d ++
    (if pollingTimeoutId d =? 0 then []
     else [EClearTimeout (pollingTimeoutId d)]) ++
    [ELsr (length (sessions d)) (syncRoot cfg)].
Proof.
  unfold startSync, newJSFtp, on, clearTimeout.
  cbn [pollingTimeoutId with_downloading with_syncRequestedWhileDownloading].
  destruct (pollingTimeoutId d =? 0); cbn; by rewrite <- ?app_assoc.
Qed.

(** A request that arrives while a cycle runs starts nothing and installs
    nothing: it sets the flag and leaves every other field as it was, and
    any number of such requests count as one.  The end of the cycle then
    answers it with exactly one new scan on a fresh session -- the only
    things it does to the outside are to cancel the polling timer, if one
    is still remembered, and to ask for the listing -- with the request
    forgotten, no timer armed or created, and the entries, the queue, the
    transfers and the pool untouched. *)
Theorem busy_request_is_deferred d :
  downloading d = true ->
  let d1 := syncRequest d in
  d1 = with_syncRequestedWhileDownloading true d /\
  effects d1 = effects d /\ sessions d1 = sessions d /\ timers d1 = timers d /\
  downloading d1 = true /\ syncRequest d1 = d1 /\
  let d2 := downloadCompleteCallback d1 in
  downloading d2 = true /\ syncRequestedWhileDownloading d2 = false /\
  pollingTimeoutId d2 = 0 /\
  sessions d2 =
    sessions d ++ [[(OnError, ftpScanError); (OnTimeout, ftpScanError)]] /\
  last (effects d2) = Some (ELsr (length (sessions d)) (syncRoot cfg)) /\
  effects d2 =
    effects d ++
    (if pollingTimeoutId d =? 0 then []
     else [EClearTimeout (pollingTimeoutId d)]) ++
    [ELsr (length (sessions d)) (syncRoot cfg)] /\
  List.filter is_lsr (effects d2) =
    List.filter is_lsr (effects d) ++ [ELsr (length (sessions d)) (syncRoot cfg)] /\
  List.filter is_set_timeout (effects d2) = List.filter is_set_timeout (effects d) /\
  timers d2 =
    (if pollingTimeoutId d =? 0 then timers d
     else List.filter (fun t => negb (t =? pollingTimeoutId d)) (timers d)) /\
  nextTimer d2 = nextTimer d /\
  (forall t, t ∈ timers d2 -> t ∈ timers d) /\
  downloadQueue d2 = downloadQueue d /\ heap d2 = heap d /\
  gets d2 = gets d /\ ftpConnectionPool d2 = ftpConnectionPool d /\
  completedList d2 = completedList d /\
  lastRunHadStuffToDownload d2 = lastRunHadStuffToDownload d.
Proof.
  intros Hd. unfold syncRequest. rewrite Hd. cbv zeta.
  set (d1 := with_syncRequestedWhileDownloading true d).
  assert (Hd1 : downloading d1 = true) by exact Hd.
  rewrite Hd1.
  assert (Hcb : downloadCompleteCallback d1 = startSync (with_downloading false d1)).
  { unfold downloadCompleteCallback.
    cbn [lastRunHadStuffToDownload syncRequestedWhileDownloading
         with_downloading with_syncRequestedWhileDownloading d1].
    by rewrite orb_true_r. }
  rewrite Hcb. set (x := with_downloading false d1).
  destruct (startSync_fields x)
    as (H1 & H2 & H3 & H4 & H5 & H6 & H7 & H8 & H9 & H10 & H11).
  pose proof (startSync_effects x) as Heff.
  pose proof (startSync_lastRun x) as Hlast. unfold same_lastRun in Hlast.
  change (pollingTimeoutId x) with (pollingTimeoutId d) in *.
  change (effects x) with (effects d) in *.
  change (sessions x) with (sessions d) in *.
  change (timers x) with (timers d) in *.
  assert (Hcompleted : completedList (startSync x) = completedList d).
  { unfold startSync, newJSFtp, on, clearTimeout. cbn.
    by destruct (pollingTimeoutId d =? 0). }
  repeat split; try done.
  - rewrite Heff, !List.filter_app.
    destruct (pollingTimeoutId d =? 0); cbn; by rewrite ?app_nil_r.
  - rewrite Heff, !List.filter_app.
    destruct (pollingTimeoutId d =? 0); cbn; by rewrite ?app_nil_r.
  - intros t. rewrite H6. destruct (pollingTimeoutId d =? 0); [done|].
    intros Hin. apply list_elem_of_In, filter_In in Hin as [Hin _].
    by apply list_elem_of_In.
Qed.

(** *** The polling timer *)

(** A request made while the object waits for its polling timer cancels
    that timer: the timer is no longer armed, its firing afterwards changes
    nothing, and the scan starts at once. *)
Theorem request_cancels_poll d t :
  downloading d = false -> pollingTimeoutId d = t -> t <> 0 ->
  let d' := syncRequest d in
  (t ∉ timers d') /\ pollingTimeoutId d' = 0 /\ downloading d' = true /\
  step (TimerFired t) d' = Some d' /\
  last (effects d') = Some (ELsr (length (sessions d)) (syncRoot cfg)).
Proof.
  intros Hd Ht Hne. unfold syncRequest. rewrite Hd. cbv zeta.
  destruct (startSync_fields d) as (H1 & _ & H3 & _ & H5 & H6 & _).
  apply Z.eqb_neq in Hne. rewrite Ht, Hne in H6.
  assert (Hnot : t ∉ timers (startSync d)).
  { rewrite H6. intros Hin. apply list_elem_of_In, filter_In in Hin.
    destruct Hin as [_ Hin]. rewrite Z.eqb_refl in Hin. discriminate. }
  repeat split; try done.
  unfold step. destruct (existsb (Z.eqb t) (timers (startSync d))) eqn:E; [|reflexivity].
  apply existsb_exists in E. destruct E as (x & Hin & Hx).
  apply Z.eqb_eq in Hx. subst x. by apply list_elem_of_In in Hin.
Qed.

Lemma poll_fields d :
  lastRunHadStuffToDownload d = false ->
  syncRequestedWhileDownloading d = false ->
  timers (downloadCompleteCallback d) = timers d ++ [nextTimer d] /\
  nextTimer (downloadCompleteCallback d) = nextTimer d + 1 /\
  pollingTimeoutId (downloadCompleteCallback d) = nextTimer d /\
  downloading (downloadCompleteCallback d) = false /\
  lastRunHadStuffToDownload (downloadCompleteCallback d) = false /\
  syncRequestedWhileDownloading (downloadCompleteCallback d) = false /\
  sessions (downloadCompleteCallback d) = sessions d.
Proof.
  intros Hl Hs. unfold downloadCompleteCallback.
  cbn [lastRunHadStuffToDownload syncRequestedWhileDownloading with_downloading].
  rewrite Hl, Hs. by cbn.
Qed.

(** When the end of a cycle is reached twice in a row (the scan session
    reports a failure through two of its three channels) two timers are
    armed and only the second is remembered: the next scan cancels that
    one, and the first stays armed while the scan runs. *)
Theorem second_cycle_end_orphans_timer d :
  lastRunHadStuffToDownload d = false ->
  syncRequestedWhileDownloading d = false ->
  0 < nextTimer d ->
  let d2 := downloadCompleteCallback (downloadCompleteCallback d) in
  timers d2 = timers d ++ [nextTimer d; nextTimer d + 1] /\
  pollingTimeoutId d2 = nextTimer d + 1 /\
  downloading d2 = false /\
  (nextTimer d ∈ timers (syncRequest d2)) /\
  (nextTimer d + 1 ∉ timers (syncRequest d2)).
Proof.
  intros Hl Hs Hpos. cbv zeta.
  destruct (poll_fields d Hl Hs) as (T1 & N1 & P1 & D1 & L1 & S1 & _).
  destruct (poll_fields _ L1 S1) as (T2 & N2 & P2 & D2 & _).
  rewrite T1, N1 in T2. rewrite N1 in P2. rewrite <- app_assoc in T2. simpl in T2.
  split; [done|]. split; [done|]. split; [done|].
  unfold syncRequest. rewrite D2.
  destruct (startSync_fields (downloadCompleteCallback (downloadCompleteCallback d)))
    as (_ & _ & _ & _ & _ & H6 & _).
  rewrite H6, P2, T2.
  assert (E : (nextTimer d + 1 =? 0) = false) by (apply Z.eqb_neq; lia).
  rewrite E. split.
  - apply list_elem_of_In, filter_In. split.
    + apply in_or_app. right. by left.
    + apply negb_true_iff, Z.eqb_neq. lia.
  - intros Hin. apply list_elem_of_In, filter_In in Hin.
    destruct Hin as [_ Hin]. rewrite Z.eqb_refl in Hin. discriminate.
Qed.

(** *** Progress reports *)

Definition named (d : State) (filename : string) (file : loc) : bool :=
  String.eqb (fullPath (deref d file)) filename.

Definition is_progress (p : EventName * Handler) : bool :=
  match p with
  | (OnProgress, ftpProgressUpdate) => true
  | _ => false
  end.

Lemma find_first {A} (P : A -> bool) pre x post :
  (forall y, In y pre -> P y = false) -> P x = true ->
  List.find P (pre ++ x :: post) = Some x.
Proof.
  intros Hpre Hx. induction pre as [|y pre IH]; simpl.
  - by rewrite Hx.
  - rewrite (Hpre y) by by left. apply IH. intros z Hz. apply Hpre. by right.
Qed.

Lemma find_agree {A} (P Q : A -> bool) l :
  (forall x, P x = Q x) -> List.find P l = List.find Q l.
Proof. intros H. induction l as [|x l IH]; simpl; [done|]. by rewrite H, IH. Qed.

Lemma update_twice file g d :
  (forall f, g (g f) = g f) ->
  update file g (update file g d) = update file g d.
Proof.
  intros Hg. unfold update, deref. cbn [heap with_heap].
  rewrite lookup_total_insert_eq, insert_insert_eq, Hg. reflexivity.
Qed.

Lemma onProgress_twice filename n d :
  onProgress filename n (onProgress filename n d) = onProgress filename n d.
Proof.
  unfold onProgress at 2 3.
  destruct (List.find _ (downloadQueue d)) as [file|] eqn:Hfind.
  - unfold onProgress.
    assert (Hsame : List.find
              (fun x => String.eqb
                 (fullPath (deref (update file (set_transferred n) d) x)) filename)
              (downloadQueue (update file (set_transferred n) d)) = Some file).
    { rewrite <- Hfind. apply find_agree. intros x. unfold update, deref.
      cbn [heap with_heap]. destruct (decide (x = file)) as [->|Hne].
      - by rewrite lookup_total_insert_eq.
      - by rewrite lookup_total_insert_ne. }
    rewrite Hsame. by apply update_twice.
  - unfold onProgress. by rewrite Hfind.
Qed.

(** A progress report reaches the first entry of the queue that carries
    the reported path, and no other: that entry's byte count becomes the
    reported one and every other entry, also one with the same path
    further down the queue, is as it was; a report for a path that is not
    in the queue changes nothing. *)
Theorem progress_reaches_first_match_only filename n d :
  let d' := onProgress filename n d in
  downloadQueue d' = downloadQueue d /\ effects d' = effects d /\
  (forall pre file post,
     downloadQueue d = pre ++ file :: post ->
     fullPath (deref d file) = filename ->
     (forall x, x ∈ pre -> fullPath (deref d x) <> filename) ->
     deref d' file = set_transferred n (deref d file) /\
     forall l, l <> file -> deref d' l = deref d l) /\
  ((forall x, x ∈ downloadQueue d -> fullPath (deref d x) <> filename) ->
   d' = d).
Proof.
  cbv zeta. split; [|split; [|split]].
  - unfold onProgress. by destruct (List.find _ _).
  - unfold onProgress. by destruct (List.find _ _).
  - intros pre file post Hq Hfile Hpre. unfold onProgress.
    rewrite Hq, (find_first _ pre file post).
    + unfold update, deref. cbn [heap with_heap]. split.
      * by rewrite lookup_total_insert_eq.
      * intros l Hl. by rewrite lookup_total_insert_ne.
    + intros y Hy. apply String.eqb_neq, Hpre. by apply list_elem_of_In.
    + by apply String.eqb_eq.
  - intros Hnone. unfold onProgress.
    destruct (List.find _ _) as [file|] eqn:Hfind; [|done].
    apply find_some in Hfind. destruct Hfind as [Hin Heq].
    apply String.eqb_eq in Heq. apply list_elem_of_In in Hin.
    by destruct (Hnone file Hin).
Qed.

(** Every borrowing of a session adds a progress listener to it, so a
    reused session carries several; a progress event on it still has the
    effect of one update, and none when the session has no such listener. *)
Theorem piled_progress_listeners_count_once ftp filename n d :
  emitProgress ftp filename n d =
    if existsb is_progress (default [] (sessions d !! ftp))
    then onProgress filename n d
    else d.
Proof.
  unfold emitProgress. generalize (default [] (sessions d !! ftp)).
  intros hs.
  assert (Hon : forall hs x,
    fold_left
      (fun d '(name, h) =>
         match name, h with
         | OnProgress, ftpProgressUpdate => onProgress filename n d
         | _, _ => d
         end) hs (onProgress filename n x) = onProgress filename n x).
  { clear. intros hs. induction hs as [|[name h] hs IH]; intros x; [done|].
    simpl. destruct name, h; try apply IH. by rewrite onProgress_twice. }
  revert d. induction hs as [|[name h] hs IH]; intros d; [done|].
  simpl. destruct name, h; simpl; try apply IH. apply Hon.
Qed.

(** *** The answer of a scan *)

Lemma updateFileSizes_completedList ftp list d :
  completedList (updateFileSizes ftp list d) = completedList d.
Proof.
  unfold updateFileSizes. revert d.
  induction list as [|file list IH]; intros d; simpl; [done|].
  rewrite IH. by destruct (isSymLink _).
Qed.

(** A scan that succeeds builds the queue anew: it holds one fresh object
    per entry of the listing within twenty levels and nothing else, so no
    entry of the queue before the scan -- waiting or being transferred --
    is in it any more; the list of completed entries is kept. *)
Theorem scan_replaces_queue ftp err data d :
  truthy err = false ->
  exists d',
    onLsrDone ftp err data d = Some d' /\
    downloadQueue d' ≡ₚ
      seq (nextLoc d)
        (length (entriesWithin 20 (syncRoot cfg) (appendSlash "") data)) /\
    NoDup (downloadQueue d') /\
    (forall l, (l < nextLoc d)%nat -> l ∉ downloadQueue d') /\
    completedList d' = completedList d.
Proof.
  intros Herr. unfold onLsrDone. rewrite Herr.
  pose proof (processFilesJSON_entries 20 data (syncRoot cfg) "" []) as Hout.
  destruct (processFilesJSON 20 data (syncRoot cfg) "" []) as [ret outList].
  cbn [snd app] in Hout. unfold allocate. rewrite allocate_from.
  cbv beta iota zeta.
  set (A := with_downloadQueue _ (with_nextLoc _ (with_heap _ d))).
  set (U := updateFileSizes ftp (downloadQueue A) A).
  destruct (updateFileSizes_frame ftp (downloadQueue A) A) as (_ & _ & HqU & _).
  fold U in HqU.
  assert (HqA : downloadQueue A = seq (nextLoc d) (length outList)) by done.
  set (X := with_downloadQueue (sortQueue U (downloadQueue U)) U).
  destruct (downloadNextInQueue_total X) as [d' Hd'].
  exists d'. split; [done|].
  destruct (downloadNextInQueue_fuel_progress _ _ _ Hd') as (Hq & _).
  assert (Hperm : downloadQueue d' ≡ₚ seq (nextLoc d) (length outList)).
  { rewrite Hq. unfold X. cbn [downloadQueue with_downloadQueue].
    by rewrite sortQueue_Permutation, HqU, HqA. }
  split; [by rewrite <- Hout|]. split; [|split].
  - rewrite Hperm. apply NoDup_seq.
  - intros l Hl Hin. rewrite Hperm in Hin. apply elem_of_seq in Hin. lia.
  - rewrite (downloadNextInQueue_fuel_completedList _ _ _ Hd').
    unfold X. cbn [completedList with_downloadQueue].
    unfold U. by rewrite updateFileSizes_completedList.
Qed.

(** *** A transfer that fails *)

Lemma countDownloading_app h q1 q2 :
  countDownloading h (q1 ++ q2) = countDownloading h q1 + countDownloading h q2.
Proof. induction q1 as [|x q1 IH]; simpl; [done|]. rewrite IH. lia. Qed.

Lemma countDownloading_other h q l f :
  l ∉ q -> countDownloading (<[l := f]> h) q = countDownloading h q.
Proof.
  induction q as [|x q IH]; intros Hl; simpl; [done|].
  apply not_elem_of_cons in Hl as [Hx Hl]. rewrite busy_insert.
  rewrite decide_False by done. by rewrite IH.
Qed.

Lemma firstNotDownloading_skip h pre l post :
  (forall x, x ∈ pre -> busy h x = true) -> busy h l = false ->
  firstNotDownloading h (pre ++ l :: post) = Some l.
Proof.
  intros Hpre Hl. induction pre as [|x pre IH]; simpl; [by rewrite Hl|].
  rewrite (Hpre x) by apply list_elem_of_here.
  apply IH. intros y Hy. apply Hpre. by apply list_elem_of_further.
Qed.

Lemma dispatch_effects file d :
  exists rest, effects (dispatch file d) = effects d ++ rest.
Proof.
  unfold dispatch, ftpForDownloading, newJSFtp, update.
  destruct (last _); cbn; rewrite <- app_assoc; by eexists.
Qed.

Lemma downloadCompleteCallback_effects d :
  exists rest, effects (downloadCompleteCallback d) = effects d ++ rest.
Proof.
  unfold downloadCompleteCallback, startSync, setTimeout, newJSFtp, clearTimeout.
  cbn. destruct (_ || _); [|by eexists].
  destruct (_ =? 0); cbn; rewrite <- ?app_assoc; by eexists.
Qed.

Lemma downloadNextInQueue_fuel_effects fuel d d' :
  downloadNextInQueue_fuel fuel d = Some d' ->
  exists rest, effects d' = effects d ++ rest.
Proof.
  revert d. induction fuel as [|fuel IH]; intros d H; [done|]. simpl in H.
  destruct (getNextFileToDownload d) as [file|].
  - destruct (IH _ H) as (rest & Hrest).
    destruct (dispatch_effects file d) as (rest0 & Hrest0).
    exists (rest0 ++ rest). by rewrite Hrest, Hrest0, app_assoc.
  - destruct (length (downloadQueue d) =? 0)%nat; simplify_eq.
    + apply downloadCompleteCallback_effects.
    + exists []. by rewrite app_nil_r.
Qed.

(** Dispatching on a pool whose last session is [ftp] issues the transfer
    of the entry on [ftp]. *)
Lemma dispatch_on_returned file ftp d :
  last (ftpConnectionPool d) = Some ftp ->
  gets (dispatch file d) =
    gets d ++
    [mkGet ftp file (fullPath (deref d file))
       (appendSlash (getDestinationDirectory (deref d file)) +:+
        name (deref d file))].
Proof.
  intros Hlast. unfold dispatch, ftpForDownloading. cbn [ftpConnectionPool update
    with_heap effect]. rewrite Hlast. cbn. unfold deref, update. cbn.
  by rewrite lookup_total_insert_eq.
Qed.

(** The error closure of a transfer, in any state.  It always returns.  It
    leaves the queue and the completed list alone, hands the session back
    before anything else, and runs a drain pass to its end, so that
    afterwards nothing more can be selected.  No other entry loses its
    flag.  The entry itself is afterwards either being transferred again
    by a request issued in that pass, or it is idle -- and if it is in the
    queue, that is because the cap is used up by others.  When the entry
    is in a queue of distinct entries, every entry before it is being
    transferred and the others leave room under the cap, the first request
    of the pass is the entry's own, for the same remote path and local
    path, on the very session that has just failed. *)
Theorem failed_transfer_restarts_drain file ftp d :
  exists d' rest more,
    onFtpDownloadError file ftp d = Some d' /\
    downloadQueue d' = downloadQueue d /\
    completedList d' = completedList d /\
    effects d' = effects d ++ EReturn ftp :: rest /\
    gets d' = gets d ++ more /\
    getNextFileToDownload d' = None /\
    (forall l, l <> file -> busy (heap d) l = true -> busy (heap d') l = true) /\
    ((busy (heap d') file = true /\ exists r, r ∈ more /\ get_file r = file) \/
     (busy (heap d') file = false /\
      (file ∈ downloadQueue d -> countMax cfg <= downloadingCount d'))) /\
    (forall pre post,
       downloadQueue d = pre ++ file :: post ->
       NoDup (downloadQueue d) ->
       (forall x, x ∈ pre -> busy (heap d) x = true) ->
       countDownloading (heap d) (pre ++ post) < countMax cfg ->
       busy (heap d') file = true /\
       exists later,
         more =
           mkGet ftp file (fullPath (deref d file))
             (appendSlash (getDestinationDirectory (deref d file)) +:+
              name (deref d file)) :: later).
Proof.
  unfold onFtpDownloadError.
  set (d1 := doneWithFtpObj ftp (update file (set_downloading false) d)).
  assert (Hq1 : downloadQueue d1 = downloadQueue d) by done.
  assert (Hh1 : heap d1 = <[file := set_downloading false (deref d file)]> (heap d))
    by done.
  assert (Hb1 : busy (heap d1) file = false).
  { rewrite Hh1. unfold busy. by rewrite lookup_total_insert_eq. }
  assert (Hother : forall l, l <> file -> busy (heap d1) l = busy (heap d) l).
  { intros l Hl. rewrite Hh1. unfold busy. by rewrite lookup_total_insert_ne. }
  destruct (downloadNextInQueue_total d1) as [d' Hd'].
  unfold downloadNextInQueue in Hd'.
  destruct (downloadNextInQueue_fuel_effects _ _ _ Hd') as (rest & Hrest).
  pose proof (downloadNextInQueue_fuel_saturates _ _ _ Hd') as Hsat.
  pose proof (downloadNextInQueue_fuel_completedList _ _ _ Hd') as Hdone.
  destruct (downloadNextInQueue_fuel_progress _ _ _ Hd')
    as (Hq & more & Hgets & Hflags).
  exists d', rest, more.
  split; [exact Hd'|]. split; [by rewrite Hq|]. split; [by rewrite Hdone|].
  split; [by rewrite Hrest; unfold d1, doneWithFtpObj; cbn; rewrite <- app_assoc|].
  split; [exact Hgets|]. split; [exact Hsat|]. split; [|split].
  - intros l Hl Hbusy. rewrite <- (Hother l Hl) in Hbusy.
    destruct (Hflags l) as [->|(_ & -> & _)]; done.
  - destruct (Hflags file) as [Hsame|(_ & Hnow & r & Hr & Hfile)].
    + right. rewrite Hsame. split; [done|]. intros Hin.
      rewrite getNextFileToDownload_spec in Hsat.
      destruct (downloadingCount d' <? countMax cfg) eqn:Hlt;
        [|by apply Z.ltb_ge in Hlt].
      assert (Hsome : is_Some (firstNotDownloading (heap d') (downloadQueue d'))).
      { apply (firstNotDownloading_is_Some _ _ file).
        - by rewrite Hq, Hq1.
        - by rewrite Hsame. }
      rewrite Hsat in Hsome. by destruct Hsome.
    + left. split; [done|]. by exists r.
  - intros pre post Hqueue Hnd Hpre Hroom.
    assert (Hnotin : file ∉ pre ++ post).
    { rewrite Hqueue in Hnd. apply NoDup_app in Hnd as (Hnd1 & Hdisj & Hnd2).
      apply NoDup_cons in Hnd2 as [Hpost _]. intros [Hin|Hin]%elem_of_app.
      - apply (Hdisj file Hin). apply list_elem_of_here.
      - done. }
    assert (Hnext : getNextFileToDownload d1 = Some file).
    { rewrite getNextFileToDownload_spec. unfold downloadingCount.
      rewrite Hq1, Hqueue, Hh1.
      assert (Hcount : countDownloading
                (<[file:=set_downloading false (deref d file)]> (heap d))
                (pre ++ file :: post) = countDownloading (heap d) (pre ++ post)).
      { rewrite !countDownloading_app. cbn [countDownloading].
        rewrite busy_insert, decide_True by done. cbn [Entry.downloading set_downloading].
        rewrite !countDownloading_other; [lia| |].
        - intros Hin. apply Hnotin, elem_of_app. by right.
        - intros Hin. apply Hnotin, elem_of_app. by left. }
      rewrite Hcount. apply Z.ltb_lt in Hroom. rewrite Hroom.
      apply firstNotDownloading_skip.
      - intros x Hx. rewrite <- Hh1, Hother; [by apply Hpre|].
        intros ->. apply Hnotin, elem_of_app. by left.
      - by rewrite <- Hh1. }
    cbn [downloadNextInQueue_fuel] in Hd'. rewrite Hnext in Hd'.
    destruct (downloadNextInQueue_fuel_progress _ _ _ Hd')
      as (_ & later & Hlater & Hflags').
    assert (Hfirst : gets (dispatch file d1) =
              gets d ++
              [mkGet ftp file (fullPath (deref d file))
                 (appendSlash (getDestinationDirectory (deref d file)) +:+
                  name (deref d file))]).
    { rewrite (dispatch_on_returned file ftp d1).
      - unfold deref. rewrite Hh1, lookup_total_insert_eq. done.
      - unfold d1, doneWithFtpObj. cbn. apply last_snoc. }
    split.
    + destruct (Hflags' file) as [->|(_ & -> & _)]; [|done].
      rewrite dispatch_heap. unfold busy. by rewrite lookup_total_insert_eq.
    + exists later. rewrite Hlater, Hfirst, <- app_assoc in Hgets.
      by apply app_inv_head in Hgets.
Qed.

(** A drain pass issues transfers for entries of the queue only. *)
Lemma downloadNextInQueue_fuel_members fuel d d' extra :
  downloadNextInQueue_fuel fuel d = Some d' ->
  gets d' = gets d ++ extra ->
  forall r, r ∈ extra -> get_file r ∈ downloadQueue d.
Proof.
  revert d extra. induction fuel as [|fuel IH]; intros d extra H Hgets; [done|].
  simpl in H. destruct (getNextFileToDownload d) as [file|] eqn:Hnext.
  - destruct (dispatch_gets file d) as (r0 & Hr0 & Hfile).
    destruct (downloadNextInQueue_fuel_progress _ _ _ H) as (_ & later & Hlater & _).
    rewrite Hlater, Hr0, <- app_assoc in Hgets.
    apply app_inv_head in Hgets. subst extra.
    rewrite getNextFileToDownload_spec in Hnext.
    destruct (downloadingCount d <? countMax cfg); [|done].
    apply firstNotDownloading_Some in Hnext as [Hin _].
    intros r [->|Hr]%elem_of_cons; [by rewrite Hfile|].
    rewrite <- (dispatch_queue file d). by apply (IH _ later H).
  - assert (Hsame : gets d' = gets d).
    { destruct (length (downloadQueue d) =? 0)%nat; simplify_eq; [|done].
      unfold downloadCompleteCallback, startSync, setTimeout, newJSFtp, clearTimeout.
      cbn. destruct (_ || _); [|done]. by destruct (_ =? 0). }
    rewrite Hsame in Hgets. rewrite <- (app_nil_r (gets d)) in Hgets at 1.
    apply app_inv_head in Hgets. subst extra.
    intros r Hr. by apply elem_of_nil in Hr.
Qed.

(** The error closure of a transfer whose entry is not in the queue (a
    scan has replaced the queue since the transfer began): the flag of the
    entry is cleared, but the drain pass that follows issues no transfer
    for it, and the entry is not put back in the queue. *)
Theorem failure_outside_queue_is_final file ftp d :
  file ∉ downloadQueue d ->
  exists d' more,
    onFtpDownloadError file ftp d = Some d' /\
    gets d' = gets d ++ more /\
    (forall r, r ∈ more -> get_file r <> file) /\
    busy (heap d') file = false /\
    (file ∉ downloadQueue d').
Proof.
  intros Hout. unfold onFtpDownloadError.
  set (d1 := doneWithFtpObj ftp (update file (set_downloading false) d)).
  assert (Hq1 : downloadQueue d1 = downloadQueue d) by done.
  assert (Hb1 : busy (heap d1) file = false).
  { unfold d1, busy, doneWithFtpObj, update. cbn.
    by rewrite lookup_total_insert_eq. }
  destruct (downloadNextInQueue_total d1) as [d' Hd'].
  unfold downloadNextInQueue in Hd'.
  destruct (downloadNextInQueue_fuel_progress _ _ _ Hd')
    as (Hq & more & Hgets & Hflags).
  exists d', more. split; [exact Hd'|]. split; [exact Hgets|].
  assert (Hnone : forall r, r ∈ more -> get_file r <> file).
  { intros r Hr Heq.
    pose proof (downloadNextInQueue_fuel_members _ _ _ _ Hd' Hgets r Hr) as Hin.
    rewrite Heq, Hq1 in Hin. done. }
  split; [exact Hnone|]. split.
  - destruct (Hflags file) as [->|(_ & _ & r & Hr & Hfile)]; [done|].
    by destruct (Hnone r Hr).
  - by rewrite Hq, Hq1.
Qed.
(** *** Path mapping *)

Lemma mappedDirectory_first remoteDirectory before rule after rest :
  Forall (fun r => ~ matches remoteDirectory r) before ->
  remoteDirectory = appendSlash (remotePath rule) +:+ rest ->
  mappedDirectory remoteDirectory (before ++ rule :: after) =
  Some (appendSlash (localPath rule) +:+ rest).
Proof.
  intros Hbefore Hrule. induction Hbefore as [|r before Hr _ IH]; simpl.
  - assert (H0 : indexOf remoteDirectory (appendSlash (remotePath rule)) = 0)
      by (apply indexOf_zero; by exists rest).
    rewrite H0. simpl. rewrite Hrule at 1. by rewrite substring_from_app.
  - destruct (indexOf remoteDirectory (appendSlash (remotePath r)) =? 0) eqn:E;
      [|exact IH].
    apply Z.eqb_eq, indexOf_zero in E. by destruct Hr.
Qed.

Lemma mappedDirectory_none remoteDirectory maps :
  Forall (fun r => ~ matches remoteDirectory r) maps ->
  mappedDirectory remoteDirectory maps = None.
Proof.
  induction 1 as [|r maps Hr _ IH]; simpl; [done|].
  destruct (indexOf remoteDirectory (appendSlash (remotePath r)) =? 0) eqn:E;
    [|exact IH].
  apply Z.eqb_eq, indexOf_zero in E. by destruct Hr.
Qed.

End Operations.

(** C5. The destination directory comes from the first mapping rule, in
    configured order, whose slash-terminated remote path is a prefix of the
    entry's relative directory: the rest of the relative directory is
    appended to the rule's slash-terminated local path.  When no rule
    matches, the relative directory is appended to the (slash-terminated)
    default local sync root.  With the rules ("tv/", "/local/tv") and
    ("", "/local/default"), "tv/showA/" goes to "/local/tv/showA/" and
    "movies/" to "/local/default/movies/". *)
Theorem destination_by_first_matching_rule :
  (forall appendSlash cfg file before rule after rest,
     pathMappings cfg = before ++ rule :: after ->
     Forall (fun r => ~ matches appendSlash (relativeDirectory file) r) before ->
     relativeDirectory file = appendSlash (remotePath rule) +:+ rest ->
     getDestinationDirectory appendSlash cfg file =
     appendSlash (localPath rule) +:+ rest) /\
  (forall appendSlash cfg file,
     Forall (fun r => ~ matches appendSlash (relativeDirectory file) r)
       (pathMappings cfg) ->
     getDestinationDirectory appendSlash cfg file =
     appendSlash (localSyncRoot cfg) +:+ relativeDirectory file) /\
  (forall cfg file,
     pathMappings cfg =
       [mkPathMapping "tv/" "/local/tv"; mkPathMapping "" "/local/default"] ->
     (relativeDirectory file = "tv/showA/" ->
      getDestinationDirectory slashed cfg file = "/local/tv/showA/") /\
     (relativeDirectory file = "movies/" ->
      getDestinationDirectory slashed cfg file = "/local/default/movies/")).
Proof.
  split; [|split].
  - intros appendSlash cfg file before rule after rest Hmaps Hbefore Hrule.
    unfold getDestinationDirectory. rewrite Hmaps.
    by rewrite (mappedDirectory_first appendSlash _ before rule after rest).
  - intros appendSlash cfg file Hnone.
    unfold getDestinationDirectory.
    by rewrite (mappedDirectory_none appendSlash _ _ Hnone).
  - intros cfg file Hmaps. unfold getDestinationDirectory. rewrite Hmaps.
    split; intros ->; reflexivity.
Qed.

(** A helper that puts a slash after the empty path too. *)
Definition slash_always (s : string) : string :=
  if endsWithSlash s then s else s +:+ "/".

Definition two_rules : Config :=
  mkConfig "/sync" 60 1
    [mkPathMapping "tv/" "/local/tv"; mkPathMapping "" "/local/default"]
    "/srv/sync" false.

Definition entry_in (dir : string) : FtpFile :=
  mkFtpFile ("/sync/" +:+ dir +:+ "ep1.avi") ("/sync/" +:+ dir +:+ "ep1.avi")
    "ep1.avi" dir true None 0 false 0 0 None.

Lemma destination_by_first_matching_rule_witness :
  getDestinationDirectory slashed two_rules (entry_in "tv/showA/") =
    slashed "/local/tv" +:+ "showA/" /\
  getDestinationDirectory slashed two_rules (entry_in "movies/") =
    slashed "/local/default" +:+ "movies/" /\
  getDestinationDirectory slashed two_rules (entry_in "tv/showA/") =
    "/local/tv/showA/" /\
  getDestinationDirectory slashed two_rules (entry_in "movies/") =
    "/local/default/movies/".
Proof.
  destruct destination_by_first_matching_rule as (Hfirst & _ & Hexample).
  split; [|split].
  - apply (Hfirst slashed two_rules (entry_in "tv/showA/") []
             (mkPathMapping "tv/" "/local/tv")
             [mkPathMapping "" "/local/default"] "showA/");
      [reflexivity|constructor|reflexivity].
  - apply (Hfirst slashed two_rules (entry_in "movies/")
             [mkPathMapping "tv/" "/local/tv"]
             (mkPathMapping "" "/local/default") [] "movies/");
      [reflexivity| |reflexivity].
    constructor; [|constructor]. intros [rest Hrest]. vm_compute in Hrest.
    discriminate Hrest.
  - destruct (Hexample two_rules (entry_in "tv/showA/") eq_refl) as [H1 _].
    destruct (Hexample two_rules (entry_in "movies/") eq_refl) as [_ H2].
    split; [exact (H1 eq_refl)|exact (H2 eq_refl)].
Defined.

(** The catch-all rule of the example rests on the empty remote path
    staying empty: were it turned into "/", no rule would match "movies/"
    and the default root would be used. *)
Lemma catch_all_rule_needs_empty_path :
  getDestinationDirectory slash_always two_rules (entry_in "movies/") =
  "/srv/sync/movies/".
Proof. reflexivity. Qed.

(** *** Runs of the orchestrator *)

(** One transfer at a time, no mapping rules, polling every minute. *)
Definition one_at_a_time : Config :=
  mkConfig "/sync" 60 1 [] "/local" false.

Definition two_at_a_time : Config :=
  mkConfig "/sync" 60 2 [] "/local" false.

Definition remote_file (nm : string) (time : Z) : Node :=
  mkNode FTP_TYPE_FILE nm (Some 1000) time None.

(** A link two directories down, and a file at the top. *)
Definition episode : Node := mkNode FTP_TYPE_SYM_LINK "ep1.avi" None 5 None.
Definition showA : Node := mkNode FTP_TYPE_DIRECTORY "showA" None 0 (Some [episode]).
Definition tv : Node := mkNode FTP_TYPE_DIRECTORY "tv" None 0 (Some [showA]).
Definition nested_listing : list Node := [tv; remote_file "a" 1].

Lemma flatten_within_depth_witness :
  snd (processFilesJSON slashed 2 nested_listing "/sync" "" []) =
    [] ++ entriesWithin slashed 2 "/sync" (slashed "") nested_listing /\
  entriesWithin slashed 3 "/sync" (slashed "") [tv] =
    entriesWithin slashed 2 "/sync" (slashed (slashed "" +:+ nname tv)) [showA] /\
  snd (processFilesJSON slashed 2 nested_listing "/sync" "" []) =
    [newFtpFile slashed "/sync" "" (remote_file "a" 1)] /\
  snd (processFilesJSON slashed 3 nested_listing "/sync" "" []) =
    [newFtpFile slashed "/sync" "tv/showA/" episode;
     newFtpFile slashed "/sync" "" (remote_file "a" 1)].
Proof.
  destruct (flatten_within_depth slashed 2 nested_listing "/sync" "" [])
    as (Hout & _ & _ & _ & _ & Hdir).
  split; [exact Hout|]. split; [exact (Hdir tv [showA] eq_refl eq_refl)|].
  split; reflexivity.
Defined.

(** Three files under a cap of two: the scan dispatches two of them, the
    first transfer succeeds and the third file takes its place. *)
Definition three_files : list Event :=
  [SyncRequest;
   LsrDone 0%nat ErrNone
     [remote_file "a" 3; remote_file "b" 2; remote_file "c" 1];
   GetDone 0%nat ErrNone].

Lemma selection_respects_cap_witness :
  exists d',
    run slashed two_at_a_time three_files initial = Some d' /\
    NoDup (downloadQueue d') /\
    downloadingCount d' <= countMax two_at_a_time.
Proof.
  destruct (selection_respects_cap slashed two_at_a_time) as (_ & _ & Hcap).
  destruct Hcap as [Hcap _]; [by vm_compute|].
  apply Hcap.
  - constructor.
  - by vm_compute.
Defined.

(** C7 (the code departs from the claim).  A cycle that had a file to
    download and during which no sync was requested ends with the polling
    timer armed and no new scan: [lastRunHadStuffToDownload] is read at the
    end of a cycle but never assigned, so it is still [false]. *)
Theorem cycle_with_work_only_polls :
  exists d,
    run slashed one_at_a_time
      [SyncRequest; LsrDone 0%nat ErrNone [remote_file "a" 1]; GetDone 0%nat ErrNone]
      initial = Some d /\
    completedList d = [0%nat] /\
    downloadQueue d = [] /\
    downloading d = false /\
    syncRequestedWhileDownloading d = false /\
    lastRunHadStuffToDownload d = false /\
    List.filter is_lsr (effects d) = [ELsr 0%nat "/sync"] /\
    List.filter is_set_timeout (effects d) = [ESetTimeout 1 60000] /\
    pollingTimeoutId d = 1 /\
    timers d = [1].
Proof.
  eexists. split; [by vm_compute|]. by vm_compute.
Qed.

(** C9 (the code departs from the claim).  The error listeners of a
    transfer stay on the session when it goes back to the pool, so an
    error on a reused session runs them all, each handing the session
    back.  With two files and one transfer at a time, an error during the
    second transfer leaves the one download session twice in the pool once
    the retry has succeeded: three borrows, four returns.  With one file
    whose session fails on the first attempt and again on the retry, the
    second failure starts two transfers on that session at once. *)
Theorem session_returned_twice :
  (exists d,
     run slashed one_at_a_time
       [SyncRequest;
        LsrDone 0%nat ErrNone [remote_file "a" 2; remote_file "b" 1];
        GetDone 0%nat ErrNone;
        EmitError 1%nat;
        GetDone 2%nat ErrNone]
       initial = Some d /\
     length (sessions d) = 2%nat /\
     ftpConnectionPool d = [1%nat; 1%nat] /\
     List.filter is_borrow (effects d) = [EBorrow 1%nat; EBorrow 1%nat; EBorrow 1%nat] /\
     List.filter is_return (effects d) =
       [EReturn 1%nat; EReturn 1%nat; EReturn 1%nat; EReturn 1%nat]) /\
  (exists d0 d,
     run slashed one_at_a_time
       [SyncRequest; LsrDone 0%nat ErrNone [remote_file "a" 1]; EmitError 1%nat]
       initial = Some d0 /\
     step slashed one_at_a_time (EmitError 1%nat) d0 = Some d /\
     length (gets d0) = 2%nat /\
     drop 2 (gets d) =
       [mkGet 1%nat 0%nat "/sync/a" "/local/a"; mkGet 1%nat 0%nat "/sync/a" "/local/a"] /\
     downloadQueue d = [0%nat] /\
     downloadingCount d = 1).
Proof.
  split.
  - eexists. split; [by vm_compute|]. by vm_compute.
  - eexists. eexists. split; [by vm_compute|]. split; [by vm_compute|].
    by vm_compute.
Qed.


(** C8 (the code departs from the claim).  Every scan puts fresh objects
    in the queue, and the listeners of the scan session stay active after
    the listing has arrived.  When that session times out while the first
    file is being transferred, the cycle is taken to be over; the next
    scan replaces the queue, and the entry whose transfer is still running
    is no longer in it.  When that transfer then fails, the error closure
    clears the flag of an entry that no drain pass can select any more:
    the cycle runs to its end and the entry has had its one failed
    transfer and no other.  (Meanwhile the new object for the same remote
    file was transferred beside it, two transfers under a cap of one.) *)
Theorem orphaned_entry_is_not_retried :
  exists d0 d1 d2,
    run slashed one_at_a_time
      [SyncRequest;
       LsrDone 0%nat ErrNone [remote_file "a" 2; remote_file "b" 1];
       EmitTimeout 0%nat;
       TimerFired 1;
       LsrDone 2%nat ErrNone [remote_file "a" 2; remote_file "b" 1]]
      initial = Some d0 /\
    downloadQueue d0 = [2%nat; 3%nat] /\
    busy (heap d0) 0%nat = true /\
    gets d0 =
      [mkGet 1%nat 0%nat "/sync/a" "/local/a";
       mkGet 3%nat 2%nat "/sync/a" "/local/a"] /\
    step slashed one_at_a_time (EmitError 1%nat) d0 = Some d1 /\
    busy (heap d1) 0%nat = false /\
    downloadQueue d1 = [2%nat; 3%nat] /\
    gets d1 = gets d0 /\
    ftpConnectionPool d1 = [1%nat] /\
    getNextFileToDownload one_at_a_time d1 = None /\
    run slashed one_at_a_time [GetDone 1%nat ErrNone; GetDone 2%nat ErrNone] d1 =
      Some d2 /\
    downloadQueue d2 = [] /\
    downloading d2 = false /\
    completedList d2 = [2%nat; 3%nat] /\
    map get_file (gets d2) = [0%nat; 2%nat; 3%nat] /\
    busy (heap d2) 0%nat = false.
Proof.
  eexists. eexists. eexists.
  split; [by vm_compute|]. do 3 (split; [by vm_compute|]).
  split; [by vm_compute|]. do 5 (split; [by vm_compute|]).
  split; [by vm_compute|]. by vm_compute.
Qed.

(** *** More runs of the orchestrator *)

(** A configuration that allows no transfer at all. *)
Definition none_at_a_time : Config :=
  mkConfig "/sync" 60 0 [] "/local" false.

Definition two_listed : list Event :=
  [SyncRequest; LsrDone 0%nat ErrNone [remote_file "a" 2; remote_file "b" 1]].

(** Two files were found and none could be dispatched. *)
Definition stalled : State :=
  default initial (run slashed none_at_a_time two_listed initial).

(** Two files were found and the first is being transferred. *)
Definition in_flight : State :=
  default initial (run slashed one_at_a_time two_listed initial).

(** The first transfer of [in_flight] has succeeded. *)
Definition first_done : State :=
  default initial (run slashed one_at_a_time [GetDone 0%nat ErrNone] in_flight).

(** A scan has been started and has not answered yet. *)
Definition scanning : State :=
  default initial (run slashed one_at_a_time [SyncRequest] initial).

(** A second request came in during that scan. *)
Definition asked_again : State :=
  default initial (run slashed one_at_a_time [SyncRequest; SyncRequest] initial).

(** A scan found nothing, and the polling timer is armed. *)
Definition idle_polling : State :=
  default initial
    (run slashed one_at_a_time [SyncRequest; LsrDone 0%nat ErrNone []] initial).

Lemma drain_pass_fills_cap_witness :
  exists d' extra,
    downloadNextInQueue slashed two_at_a_time stalled = Some d' /\
    downloadQueue d' = downloadQueue stalled /\
    gets d' = gets stalled ++ extra /\
    downloadingCount d' = downloadingCount stalled + Z.of_nat (length extra) /\
    getNextFileToDownload two_at_a_time d' = None /\
    (downloadingCount d' = countMax two_at_a_time \/
     firstNotDownloading (heap d') (downloadQueue d') = None).
Proof.
  apply (drain_pass_fills_cap slashed two_at_a_time stalled). split.
  - replace (downloadQueue stalled) with [0%nat; 1%nat] by (by vm_compute).
    apply NoDup_cons. split; [|apply NoDup_singleton].
    intros H. by apply list_elem_of_singleton in H.
  - by vm_compute.
Defined.

Lemma cap_of_zero_stalls_witness :
  getNextFileToDownload none_at_a_time stalled = None /\
  downloadNextInQueue slashed none_at_a_time stalled = Some stalled.
Proof.
  destruct (cap_of_zero_stalls slashed none_at_a_time stalled) as [Hnone Hstay];
    [by vm_compute|].
  split; [exact Hnone|]. apply Hstay. by vm_compute.
Defined.

Lemma removeFileFromQueue_behaviour_witness :
  removeFileFromQueue 1%nat [0%nat; 1%nat; 2%nat] =
    filter (fun x => x <> 1%nat) [0%nat; 1%nat; 2%nat] /\
  (1%nat ∉ removeFileFromQueue 1%nat [0%nat; 1%nat; 2%nat]) /\
  removeFileFromQueue 3%nat [0%nat; 1%nat; 2%nat] = [0%nat; 1%nat; 2%nat].
Proof.
  destruct (removeFileFromQueue_behaviour 1%nat [0%nat; 1%nat; 2%nat])
    as (_ & _ & Hnd & _).
  destruct (removeFileFromQueue_behaviour 3%nat [0%nat; 1%nat; 2%nat])
    as (_ & Habsent & _).
  destruct Hnd as [Hfilter Hgone].
  { apply NoDup_ListNoDup. repeat constructor; simpl; lia. }
  split; [exact Hfilter|]. split; [exact Hgone|].
  apply Habsent. intros H. apply list_elem_of_In in H. simpl in H. lia.
Defined.

Lemma pool_is_a_stack_witness :
  let '(ftp, d1) := ftpForDownloading initial in
  ftp = length (sessions initial) /\
  sessions d1 = sessions initial ++ [[(OnProgress, ftpProgressUpdate)]] /\
  ftpConnectionPool d1 = [].
Proof.
  destruct (pool_is_a_stack initial 0%nat 1%nat) as (_ & _ & Hfresh).
  apply Hfresh. reflexivity.
Defined.

Lemma deeper_scan_keeps_entries_witness :
  snd (processFilesJSON slashed 2 nested_listing "/sync" "" [])
    `sublist_of` snd (processFilesJSON slashed 3 nested_listing "/sync" "" []).
Proof.
  apply (deeper_scan_keeps_entries slashed 2 3 nested_listing "/sync" "" []). lia.
Defined.

Lemma successful_transfer_is_booked_witness :
  exists d',
    onGetDone slashed one_at_a_time (mkGet 1%nat 0%nat "/sync/a" "/local/a")
      ErrNone in_flight = Some d' /\
    downloadQueue d' =
      filter (fun x => x <> get_file (mkGet 1%nat 0%nat "/sync/a" "/local/a"))
        (downloadQueue in_flight) /\
    (get_file (mkGet 1%nat 0%nat "/sync/a" "/local/a") ∉ downloadQueue d') /\
    completedList d' =
      completedList in_flight ++ [get_file (mkGet 1%nat 0%nat "/sync/a" "/local/a")] /\
    (busy (heap in_flight) (get_file (mkGet 1%nat 0%nat "/sync/a" "/local/a")) = true ->
     busy (heap d') (get_file (mkGet 1%nat 0%nat "/sync/a" "/local/a")) = true).
Proof.
  apply (successful_transfer_is_booked slashed one_at_a_time
           (mkGet 1%nat 0%nat "/sync/a" "/local/a") ErrNone in_flight).
  - reflexivity.
  - replace (downloadQueue in_flight) with [0%nat; 1%nat] by (by vm_compute).
    apply NoDup_ListNoDup. repeat constructor; simpl; lia.
Defined.

Lemma listeners_are_never_removed_witness :
  (length (sessions in_flight) <= length (sessions first_done))%nat /\
  forall ftp hs,
    sessions in_flight !! ftp = Some hs ->
    exists more, sessions first_done !! ftp = Some (hs ++ more).
Proof.
  apply (listeners_are_never_removed slashed one_at_a_time
           [GetDone 0%nat ErrNone] in_flight first_done).
  by vm_compute.
Defined.

Lemma cycle_end_follows_request_only_witness :
  downloadCompleteCallback one_at_a_time asked_again =
    if syncRequestedWhileDownloading asked_again
    then startSync one_at_a_time (with_downloading false asked_again)
    else with_pollingTimeoutId (nextTimer asked_again)
           (snd (setTimeout (pollingIntervalInSeconds one_at_a_time * 1000)
                   (with_downloading false asked_again))).
Proof.
  apply (cycle_end_follows_request_only slashed one_at_a_time
           [SyncRequest; SyncRequest] asked_again).
  by vm_compute.
Defined.

Lemma busy_request_is_deferred_witness :
  let d1 := syncRequest one_at_a_time scanning in
  d1 = with_syncRequestedWhileDownloading true scanning /\
  effects d1 = effects scanning /\ sessions d1 = sessions scanning /\
  timers d1 = timers scanning /\
  downloading d1 = true /\ syncRequest one_at_a_time d1 = d1 /\
  let d2 := downloadCompleteCallback one_at_a_time d1 in
  downloading d2 = true /\ syncRequestedWhileDownloading d2 = false /\
  pollingTimeoutId d2 = 0 /\
  sessions d2 =
    sessions scanning ++ [[(OnError, ftpScanError); (OnTimeout, ftpScanError)]] /\
  last (effects d2) =
    Some (ELsr (length (sessions scanning)) (syncRoot one_at_a_time)) /\
  effects d2 =
    effects scanning ++
    (if pollingTimeoutId scanning =? 0 then []
     else [EClearTimeout (pollingTimeoutId scanning)]) ++
    [ELsr (length (sessions scanning)) (syncRoot one_at_a_time)] /\
  List.filter is_lsr (effects d2) =
    List.filter is_lsr (effects scanning) ++
    [ELsr (length (sessions scanning)) (syncRoot one_at_a_time)] /\
  List.filter is_set_timeout (effects d2) =
    List.filter is_set_timeout (effects scanning) /\
  timers d2 =
    (if pollingTimeoutId scanning =? 0 then timers scanning
     else List.filter (fun t => negb (t =? pollingTimeoutId scanning))
            (timers scanning)) /\
  nextTimer d2 = nextTimer scanning /\
  (forall t, t ∈ timers d2 -> t ∈ timers scanning) /\
  downloadQueue d2 = downloadQueue scanning /\ heap d2 = heap scanning /\
  gets d2 = gets scanning /\ ftpConnectionPool d2 = ftpConnectionPool scanning /\
  completedList d2 = completedList scanning /\
  lastRunHadStuffToDownload d2 = lastRunHadStuffToDownload scanning.
Proof.
  apply (busy_request_is_deferred one_at_a_time scanning). by vm_compute.
Defined.

Lemma request_cancels_poll_witness :
  let d' := syncRequest one_at_a_time idle_polling in
  (1 ∉ timers d') /\ pollingTimeoutId d' = 0 /\ downloading d' = true /\
  step slashed one_at_a_time (TimerFired 1) d' = Some d' /\
  last (effects d') =
    Some (ELsr (length (sessions idle_polling)) (syncRoot one_at_a_time)).
Proof.
  apply (request_cancels_poll slashed one_at_a_time idle_polling 1);
    by vm_compute.
Defined.

Lemma second_cycle_end_orphans_timer_witness :
  let d2 :=
    downloadCompleteCallback one_at_a_time
      (downloadCompleteCallback one_at_a_time scanning) in
  timers d2 = timers scanning ++ [nextTimer scanning; nextTimer scanning + 1] /\
  pollingTimeoutId d2 = nextTimer scanning + 1 /\
  downloading d2 = false /\
  (nextTimer scanning ∈ timers (syncRequest one_at_a_time d2)) /\
  (nextTimer scanning + 1 ∉ timers (syncRequest one_at_a_time d2)).
Proof.
  apply (second_cycle_end_orphans_timer one_at_a_time scanning); by vm_compute.
Defined.

Lemma progress_reaches_first_match_only_witness :
  deref (onProgress "/sync/a" 500 in_flight) 0%nat =
    set_transferred 500 (deref in_flight 0%nat) /\
  (forall l, l <> 0%nat ->
     deref (onProgress "/sync/a" 500 in_flight) l = deref in_flight l) /\
  onProgress "/sync/c" 500 in_flight = in_flight.
Proof.
  destruct (progress_reaches_first_match_only "/sync/a" 500 in_flight)
    as (_ & _ & Hfirst & _).
  destruct (progress_reaches_first_match_only "/sync/c" 500 in_flight)
    as (_ & _ & _ & Hnone).
  destruct (Hfirst [] 0%nat [1%nat]) as [Hset Hrest].
  - by vm_compute.
  - by vm_compute.
  - intros x Hx. by apply elem_of_nil in Hx.
  - split; [exact Hset|]. split; [exact Hrest|].
    apply Hnone.
    replace (downloadQueue in_flight) with [0%nat; 1%nat] by (by vm_compute).
    intros x Hx. apply list_elem_of_In in Hx. simpl in Hx.
    destruct Hx as [<-|[<-|[]]]; by vm_compute.
Defined.

Lemma scan_replaces_queue_witness :
  exists d',
    onLsrDone slashed one_at_a_time 0%nat ErrNone [remote_file "c" 3] in_flight =
      Some d' /\
    downloadQueue d' ≡ₚ
      seq (nextLoc in_flight)
        (length (entriesWithin slashed 20 (syncRoot one_at_a_time) (slashed "")
                   [remote_file "c" 3])) /\
    NoDup (downloadQueue d') /\
    (forall l, (l < nextLoc in_flight)%nat -> l ∉ downloadQueue d') /\
    completedList d' = completedList in_flight.
Proof.
  apply (scan_replaces_queue slashed one_at_a_time 0%nat ErrNone
           [remote_file "c" 3] in_flight).
  reflexivity.
Defined.

Lemma failed_transfer_restarts_drain_witness :
  exists d' later,
    onFtpDownloadError slashed one_at_a_time 0%nat 1%nat in_flight = Some d' /\
    gets d' =
      gets in_flight ++
      mkGet 1%nat 0%nat (fullPath (deref in_flight 0%nat))
        (slashed (getDestinationDirectory slashed one_at_a_time
                    (deref in_flight 0%nat)) +:+
         name (deref in_flight 0%nat)) :: later /\
    busy (heap d') 0%nat = true.
Proof.
  destruct (failed_transfer_restarts_drain slashed one_at_a_time 0%nat 1%nat
              in_flight)
    as (d' & rest & more & Hrun & _ & _ & _ & Hgets & _ & _ & _ & Hfirst).
  destruct (Hfirst [] [1%nat]) as [Hbusy (later & Hmore)].
  - by vm_compute.
  - replace (downloadQueue in_flight) with [0%nat; 1%nat] by (by vm_compute).
    apply NoDup_ListNoDup. repeat constructor; simpl; lia.
  - intros x Hx. by apply elem_of_nil in Hx.
  - by vm_compute.
  - exists d', later. rewrite Hmore in Hgets. by repeat split.
Defined.

(** The first of two files is being transferred when the scan session
    times out; the polling timer fires and the new scan lists both files
    again. *)
Definition orphaned : State :=
  default initial
    (run slashed one_at_a_time
       [SyncRequest;
        LsrDone 0%nat ErrNone [remote_file "a" 2; remote_file "b" 1];
        EmitTimeout 0%nat;
        TimerFired 1;
        LsrDone 2%nat ErrNone [remote_file "a" 2; remote_file "b" 1]]
       initial).

Lemma failure_outside_queue_is_final_witness :
  exists d' more,
    onFtpDownloadError slashed one_at_a_time 0%nat 1%nat orphaned = Some d' /\
    gets d' = gets orphaned ++ more /\
    (forall r, r ∈ more -> get_file r <> 0%nat) /\
    busy (heap d') 0%nat = false /\
    (0%nat ∉ downloadQueue d').
Proof.
  apply (failure_outside_queue_is_final slashed one_at_a_time 0%nat 1%nat orphaned).
  replace (downloadQueue orphaned) with [2%nat; 3%nat] by (by vm_compute).
  intros H. apply list_elem_of_In in H. simpl in H. lia.
Defined.
End Downloader.
